(** * Team balancer: the CP-SAT model built by [solver.py] and what is read
      back from a solution

    The development follows [build_and_solve] of [solver.py] section by
    section: roster columns, the directed avoid pairs, the assignment
    variables and their constraints, presets, scaled scores and deviations,
    conflict variables, the captain policy, the objective, the solver call
    and the extraction of the [Team] column and of the diagnostics.

    Python [int]s are modelled as [Z].  A number of the input is the
    rational it stands for ([Q]); where the program computes with floats
    (the weighted skills, the coefficients of the penalty terms, the reported
    scores) the result of every operation is rounded to the nearest double
    ([round53], [to_float], [fmul]).  The CP-SAT engine is an external
    capability: it is a parameter of [build_and_solve], and the theorems
    quantify over every engine that honours the CP-SAT contract
    ([solver_sound], [solver_optimal]). *)

From Stdlib Require Import ZArith QArith Qround Qabs Qpower String List Sorted Lia Lqa.
From stdpp Require Import gmap strings list pretty.

Open Scope Z_scope.

(** ** Exceptions *)

Inductive Exn : Type :=
  | ValueError (msg : string)
  | RuntimeError (msg : string)
  | ZeroDivisionError
  | KeyError (p : nat)
  | TypeError
  | OverflowError.

Inductive Result (A : Type) : Type :=
  | Ok (a : A)
  | Raise (e : Exn).

Arguments Ok {A} a.
Arguments Raise {A} e.

#[global] Instance Result_ret : MRet Result := λ A a, Ok a.
#[global] Instance Result_bind : MBind Result := λ A B f r,
  match r with
  | Ok a => f a
  | Raise e => Raise e
  end.

(** ** The signup table and the arguments of [build_and_solve] *)

(** A number is given by the rational it stands for.  The skills and the
    weights are floats in the program ([run] casts the three weights with
    [float], [prepare_data] the skills with [astype(float)]): a double stands
    for itself, and any other rational is read as the double nearest to it
    wherever the program computes with it ([to_float]). *)

Record Player : Type := {
  Name : string;
  Skill : Q;
  Position : Z;
  Captain : Z;
  Avoid : option string
}.

Record Inputs : Type := {
  df : list Player;
  roles : list Z;
  role_weights : gmap Z Q;
  num_teams : Z;
  captain_policy : string;
  captain_hard : bool;
  conflict_weight : Q;
  balance_weight : Q;
  captain_weight : Q;
  presets : list (string * Z);
  random_seed : Z
}.

(** ** Floats *)

(** A Python [float] and a cell of a [float64] array: a double (a rational
    [m * 2^j] with [|m| <= 2^53] and [j >= -1074], below [2^1024] in absolute
    value), an infinity or a NaN.  The sign of an infinity and of a zero is
    not kept: nothing in the program depends on it. *)
Inductive float : Type :=
  | Finite (q : Q)
  | Infinite
  | NaN.

(** To the nearest integer, a tie to the even one: [np.round] on a double,
    and the rounding of a significand. *)
Definition np_round (q : Q) : Z :=
  let f := Qfloor q in
  match ((q - inject_Z f) ?= (1 # 2))%Q with
  | Lt => f
  | Gt => f + 1
  | Eq => if Z.even f then f else f + 1
  end.

Definition pow2 (k : Z) : Q := (2 ^ k)%Q.

(** The binary exponent of a positive rational:
    [2^(ilog2 a) <= a < 2^(ilog2 a + 1)]. *)
Definition ilog2 (a : Q) : Z :=
  let e0 := Z.log2 (Qnum a) - Z.log2 (Z.pos (Qden a)) in
  if Qle_bool (pow2 e0) a then e0 else e0 - 1.

(** The gap between the doubles around [q]: 53 significant bits, and no gap
    below [2^-1074]. *)
Definition quantum (q : Q) : Q := pow2 (Z.max (ilog2 (Qabs q) - 52) (-1074)).

(** The double nearest to [q], a tie to the even significand (the exponent
    is not bounded from above here, see [to_float]). *)
Definition round53 (q : Q) : Q :=
  if Qeq_bool q 0 then 0%Q
  else (inject_Z (np_round (q / quantum q)) * quantum q)%Q.

(** The float an exact value is rounded to: an infinity once the rounded
    value reaches [2^1024].  This is how a number of the input is read as a
    float and how the exact result of a float operation is stored. *)
Definition to_float (q : Q) : float :=
  let r := round53 q in
  if Qle_bool (pow2 1024) (Qabs r) then Infinite else Finite r.

Definition is_zero (x : float) : bool :=
  match x with
  | Finite q => Qeq_bool q 0
  | _ => false
  end.

(** The product of two floats. *)
Definition fmul (x y : float) : float :=
  match x, y with
  | Finite a, Finite b => to_float (a * b)
  | NaN, _ | _, NaN => NaN
  | Infinite, _ => if is_zero y then NaN else Infinite
  | _, Infinite => if is_zero x then NaN else Infinite
  end.

(** The integer part of a rational, towards zero: Python's [int] on a float
    and the C cast of a double to an integer. *)
Definition trunc (q : Q) : Z := Z.quot (Qnum q) (Z.pos (Qden q)).

(** ** CP-SAT models *)

(** One constructor per family of variables of the source.  A conflict
    variable is created afresh at every iteration of the loop over
    [avoid_pairs], so it is identified by the position [k] of its pair in
    that list (the dictionary [y] of the source is never read back). *)
Inductive Var : Type :=
  | x_ (p t : nat)
  | s_ (t : nat)
  | d_ (t : nat)
  | diff_ (t : nat)
  | y_ (k t : nat)
  | c_t_ (t : nat)
  | m_t_ (t : nat)
  | k_t_ (t : nat).

#[global] Instance Var_eq_dec : EqDecision Var.
Proof. solve_decision. Defined.

Record LinExpr : Type := {
  terms : list (Z * Var);
  const : Z
}.

Inductive Constraint : Type :=
  | EqC (l r : LinExpr)
  | LeC (l r : LinExpr)
  | GeC (l r : LinExpr).

Record Model : Type := {
  variables : list (Var * (Z * Z));
  constraints : list Constraint;
  obj_terms : list (Q * list Var)
}.

Definition Valuation : Type := Var → Z.

Definition Zsum (l : list Z) : Z := foldr Z.add 0 l.

Definition eval (v : Valuation) (e : LinExpr) : Z :=
  Zsum ((λ ct : Z * Var, ct.1 * v ct.2) <$> terms e) + const e.

Definition holds (v : Valuation) (c : Constraint) : Prop :=
  match c with
  | EqC l r => eval v l = eval v r
  | LeC l r => eval v l <= eval v r
  | GeC l r => eval v r <= eval v l
  end.

Definition holdsb (v : Valuation) (c : Constraint) : bool :=
  match c with
  | EqC l r => eval v l =? eval v r
  | LeC l r => eval v l <=? eval v r
  | GeC l r => eval v r <=? eval v l
  end.

Definition in_domain (v : Valuation) (d : Var * (Z * Z)) : Prop :=
  d.2.1 <= v d.1 <= d.2.2.

Definition in_domainb (v : Valuation) (d : Var * (Z * Z)) : bool :=
  (d.2.1 <=? v d.1) && (v d.1 <=? d.2.2).

Definition satisfies (v : Valuation) (m : Model) : Prop :=
  Forall (in_domain v) (variables m) ∧ Forall (holds v) (constraints m).

Definition satisfiesb (v : Valuation) (m : Model) : bool :=
  forallb (in_domainb v) (variables m) && forallb (holdsb v) (constraints m).

Definition Qsum (l : list Q) : Q := foldr Qplus 0%Q l.

Definition objective_value (v : Valuation) (m : Model) : Q :=
  Qsum ((λ ot : Q * list Var, (ot.1 * inject_Z (Zsum (v <$> ot.2)))%Q) <$> obj_terms m).

(** Linear expressions as the source writes them. *)
Definition var_e (a : Var) : LinExpr := {| terms := [(1, a)]; const := 0 |}.
Definition const_e (c : Z) : LinExpr := {| terms := []; const := c |}.
Definition sum_e (ts : list (Z * Var)) : LinExpr := {| terms := ts; const := 0 |}.

(** ** The solver engine *)

Inductive Status : Type := UNKNOWN | MODEL_INVALID | FEASIBLE | INFEASIBLE | OPTIMAL.

#[global] Instance Status_eq_dec : EqDecision Status.
Proof. solve_decision. Defined.

Record SolverParams : Type := {
  max_time_in_seconds : Q;
  solver_random_seed : Z;
  num_search_workers : Z
}.

Definition Solver : Type := Model → SolverParams → Status * Valuation.

Definition usable (st : Status) : bool :=
  match st with
  | OPTIMAL | FEASIBLE => true
  | _ => false
  end.

(** The contract of the engine: with status [OPTIMAL] or [FEASIBLE] the
    valuation satisfies the model. *)
Definition solver_sound (solve : Solver) : Prop :=
  ∀ m prm, usable (solve m prm).1 = true → satisfies (solve m prm).2 m.

(** With status [OPTIMAL] no satisfying valuation has a smaller objective. *)
Definition solver_optimal (solve : Solver) : Prop :=
  ∀ m prm v', (solve m prm).1 = OPTIMAL → satisfies v' m →
    (objective_value (solve m prm).2 m <= objective_value v' m)%Q.

(** ** Roster columns *)

Definition players (df : list Player) : list string := Name <$> df.

(** [{n: i for i, n in enumerate(players)}]: a later row overwrites an
    earlier one of the same name. *)
Fixpoint index_names (i : nat) (names : list string) (m : gmap string nat)
  : gmap string nat :=
  match names with
  | [] => m
  | n :: rest => index_names (S i) rest (<[n := i]> m)
  end.

Definition name_to_idx (df : list Player) : gmap string nat :=
  index_names 0 (players df) ∅.

(** [list(range(num_teams))]: empty when [num_teams] is not positive. *)
Definition team_ids (num_teams : Z) : list nat := seq 0 (Z.to_nat num_teams).

(** [list(sorted(set(roles)))]. *)
Fixpoint insert_role (r : Z) (l : list Z) : list Z :=
  match l with
  | [] => [r]
  | h :: tl =>
      if r <? h then r :: l
      else if r =? h then l
      else h :: insert_role r tl
  end.

Definition sorted_set (l : list Z) : list Z := foldr insert_role [] l.

Definition skill (df : list Player) : list Q := Skill <$> df.
Definition pos (df : list Player) : list Z := Position <$> df.
Definition is_capt (df : list Player) : list Z := Captain <$> df.

Definition weight_by_role (rw : gmap Z Q) (df : list Player) : list Q :=
  (λ r, default 1%Q (rw !! r)) <$> pos df.

(** [skill * weight_by_role]: both columns are [float64] arrays
    ([astype(float)], [dtype=float]), multiplied cell by cell. *)
Definition weighted_skill (rw : gmap Z Q) (df : list Player) : list float :=
  zip_with (λ s w, fmul (to_float s) (to_float w)) (skill df) (weight_by_role rw df).

(** Directed avoid pairs (A avoids B), one row at a time.  The name of the
    row is always a key of [name_to_idx]; the last branch is never taken. *)
Definition avoid_pair_of_row (idx : gmap string nat) (row : Player)
  : list (nat * nat) :=
  match Avoid row with
  | None => []
  | Some b =>
      match idx !! b with
      | None => []
      | Some ib =>
          match idx !! Name row with
          | Some ia => [(ia, ib)]
          | None => []
          end
      end
  end.

Definition avoid_pairs (df : list Player) : list (nat * nat) :=
  mjoin (avoid_pair_of_row (name_to_idx df) <$> df).

(** ** Decision variables and structural constraints *)

Definition x_variables (P : nat) (tids : list nat) : list (Var * (Z * Z)) :=
  mjoin ((λ p, (λ t, (x_ p t, (0, 1))) <$> tids) <$> seq 0 P).

(** Each player on exactly one team. *)
Definition one_team_constraint (tids : list nat) (p : nat) : Constraint :=
  EqC (sum_e ((λ t, (1, x_ p t)) <$> tids)) (const_e 1).

Definition one_team_constraints (P : nat) (tids : list nat) : list Constraint :=
  one_team_constraint tids <$> seq 0 P.

(** For each team and role: exactly one player with that role. *)
Definition with_role (ps : list Z) (P : nat) (r : Z) : list nat :=
  filter (λ p, ps !!! p = r) (seq 0 P).

Definition role_constraint (ps : list Z) (P : nat) (t : nat) (r : Z) : Constraint :=
  EqC (sum_e ((λ p, (1, x_ p t)) <$> with_role ps P r)) (const_e 1).

Definition role_constraints (ps : list Z) (P : nat) (rs : list Z) (tids : list nat)
  : list Constraint :=
  mjoin ((λ t, role_constraint ps P t <$> rs) <$> tids).

(** ** Presets (team indexes in presets are 1-based) *)

Definition pin (p t : nat) (tids : list nat) : list Constraint :=
  (λ tt, EqC (var_e (x_ p tt)) (const_e (if decide (tt = t) then 1 else 0))) <$> tids.

Definition preset_not_found (name : string) : Exn :=
  ValueError ("Preset player '" +:+ name +:+ "' not found in signups.").

Definition preset_out_of_range (name : string) (num_teams : Z) : Exn :=
  ValueError ("Preset team index for '" +:+ name +:+ "' out of range 1.."
              +:+ pretty num_teams +:+ ".").

Fixpoint preset_constraints (idx : gmap string nat) (num_teams : Z)
    (ps : list (string * Z)) : Result (list Constraint) :=
  match ps with
  | [] => Ok []
  | (name, team1) :: rest =>
      match idx !! name with
      | None => Raise (preset_not_found name)
      | Some p =>
          if negb ((1 <=? team1) && (team1 <=? num_teams))
          then Raise (preset_out_of_range name num_teams)
          else
            cs ← preset_constraints idx num_teams rest;
            Ok (pin p (Z.to_nat (team1 - 1)) (team_ids num_teams) ++ cs)
      end
  end.

(** ** Team weighted scores (scaled to int) *)

Definition SCALE : Z := 100.

(** [np.round] on a cell of a float array: the result is a float again. *)
Definition np_round_float (x : float) : float :=
  match x with
  | Finite q => Finite (inject_Z (np_round q))
  | _ => x
  end.

Definition in_int64 (z : Z) : bool := (- 2 ^ 63 <=? z) && (z <? 2 ^ 63).

(** [astype(int)] on a cell of a float array: the C cast to [int64] (the
    [int] of numpy on Linux and macOS, and on every platform from numpy 2
    on).  Outside the range of [int64], on an infinity and on a NaN the cast
    gives the least [int64] (the value the x86-64 conversion leaves); numpy
    warns and goes on. *)
Definition astype_int (x : float) : Z :=
  match x with
  | Finite q => if in_int64 (trunc q) then trunc q else - 2 ^ 63
  | _ => - 2 ^ 63
  end.

(** One cell of [np.round(weighted_skill * SCALE).astype(int)]. *)
Definition scale_cell (w : float) : Z :=
  astype_int (np_round_float (fmul w (Finite (inject_Z SCALE)))).

Definition scaled_ws (rw : gmap Z Q) (df : list Player) : list Z :=
  scale_cell <$> weighted_skill rw df.

Definition big : Z := 1000000000.

Definition s_variables (tids : list nat) : list (Var * (Z * Z)) :=
  (λ t, (s_ t, (0, big))) <$> tids.

Definition score_constraint (sws : list Z) (P : nat) (t : nat) : Constraint :=
  EqC (var_e (s_ t)) (sum_e ((λ p, (sws !!! p, x_ p t)) <$> seq 0 P)).

Definition total_score (sws : list Z) : Z := Zsum sws.

(** [total_score // num_teams]: Python's floor division, which is [Z.div]
    for a non-zero divisor and raises on zero. *)
Definition floordiv (a b : Z) : Result Z :=
  if b =? 0 then Raise ZeroDivisionError else Ok (a `div` b).

Definition d_variables (tids : list nat) : list (Var * (Z * Z)) :=
  (λ t, (d_ t, (0, big))) <$> tids.

Definition diff_variables (tids : list nat) : list (Var * (Z * Z)) :=
  (λ t, (diff_ t, (- big, big))) <$> tids.

Definition deviation_constraints (target : Z) (t : nat) : list Constraint :=
  [ EqC (var_e (diff_ t)) {| terms := [(1, s_ t)]; const := - target |};
    GeC (var_e (d_ t)) (var_e (diff_ t));
    GeC (var_e (d_ t)) {| terms := [(-1, diff_ t)]; const := 0 |} ].

(** ** Conflicts *)

Definition y_variables (aps : list (nat * nat)) (tids : list nat)
  : list (Var * (Z * Z)) :=
  mjoin (imap (λ k (_ : nat * nat), (λ t, (y_ k t, (0, 1))) <$> tids) aps).

Definition conflict_constraint (k : nat) (ab : nat * nat) (t : nat) : list Constraint :=
  [ LeC (var_e (y_ k t)) (var_e (x_ ab.1 t));
    LeC (var_e (y_ k t)) (var_e (x_ ab.2 t));
    GeC (var_e (y_ k t)) {| terms := [(1, x_ ab.1 t); (1, x_ ab.2 t)]; const := -1 |} ].

Definition conflict_constraints (aps : list (nat * nat)) (tids : list nat)
  : list Constraint :=
  mjoin (imap (λ k ab, mjoin (conflict_constraint k ab <$> tids)) aps).

Definition conflict_terms (aps : list (nat * nat)) (tids : list nat) : list Var :=
  mjoin (imap (λ k (_ : nat * nat), y_ k <$> tids) aps).

(** ** Captain policy *)

Definition c_t_variables (R : Z) (tids : list nat) : list (Var * (Z * Z)) :=
  (λ t, (c_t_ t, (0, R))) <$> tids.

Definition captain_count_constraint (caps : list Z) (P : nat) (t : nat) : Constraint :=
  EqC (var_e (c_t_ t)) (sum_e ((λ p, (caps !!! p, x_ p t)) <$> seq 0 P)).

Record CaptainPart : Type := {
  cp_variables : list (Var * (Z * Z));
  cp_constraints : list Constraint;
  captain_penalty_terms : list Var;
  cp_warnings : list string
}.

Definition no_captain_part (ws : list string) : CaptainPart :=
  {| cp_variables := []; cp_constraints := [];
     captain_penalty_terms := []; cp_warnings := ws |}.

Definition warn_at_least_one : string :=
  "Not enough captains for 'at_least_one' hard constraint; downgrading to soft penalty.".

Definition warn_separate : string :=
  "Too many captains for 'separate' hard constraint; downgrading to soft penalty.".

Definition at_least_one_part (hard : bool) (ncap num_teams : Z) (tids : list nat)
  : CaptainPart :=
  let downgrade := hard && (ncap <? num_teams) in
  let ws := if downgrade then [warn_at_least_one] else [] in
  let hard' := if downgrade then false else hard in
  if hard'
  then {| cp_variables := [];
          cp_constraints := (λ t, GeC (var_e (c_t_ t)) (const_e 1)) <$> tids;
          captain_penalty_terms := [];
          cp_warnings := ws |}
  else {| cp_variables := (λ t, (m_t_ t, (0, 1))) <$> tids;
          cp_constraints :=
            (λ t, GeC (var_e (m_t_ t)) {| terms := [(-1, c_t_ t)]; const := 1 |}) <$> tids;
          captain_penalty_terms := m_t_ <$> tids;
          cp_warnings := ws |}.

Definition separate_part (hard : bool) (ncap num_teams R : Z) (tids : list nat)
  : CaptainPart :=
  let downgrade := hard && (num_teams <? ncap) in
  let ws := if downgrade then [warn_separate] else [] in
  let hard' := if downgrade then false else hard in
  if hard'
  then {| cp_variables := [];
          cp_constraints := (λ t, LeC (var_e (c_t_ t)) (const_e 1)) <$> tids;
          captain_penalty_terms := [];
          cp_warnings := ws |}
  else {| cp_variables := (λ t, (k_t_ t, (0, R))) <$> tids;
          cp_constraints :=
            (λ t, GeC (var_e (k_t_ t)) {| terms := [(1, c_t_ t)]; const := -1 |}) <$> tids;
          captain_penalty_terms := k_t_ <$> tids;
          cp_warnings := ws |}.

Definition bad_policy : Exn :=
  ValueError "captain_policy must be one of: none, at_least_one, separate".

Definition captain_part (policy : string) (hard : bool) (ncap num_teams R : Z)
    (tids : list nat) : Result CaptainPart :=
  if bool_decide (policy ∈ ["none"; "at_least_one"; "separate"])
  then
    if bool_decide (policy = "at_least_one")
    then Ok (at_least_one_part hard ncap num_teams tids)
    else if bool_decide (policy = "separate")
    then Ok (separate_part hard ncap num_teams R tids)
    else Ok (no_captain_part [])
  else Raise bad_policy.

(** ** Objective *)

(** Python's [int] on a float truncates towards zero; it raises on an
    infinity and on a NaN. *)
Definition py_int (x : float) : Result Z :=
  match x with
  | Finite q => Ok (trunc q)
  | Infinite => Raise OverflowError
  | NaN => Raise (ValueError "cannot convert float NaN to integer")
  end.

Definition nonzero (q : Q) : bool := negb (Qeq_bool q 0).

Definition nonempty {A} (l : list A) : bool :=
  match l with [] => false | _ => true end.

(** The balance term: the weight is compared with zero and handed to the
    engine as it is, as the coefficient of the sum of the deviations. *)
Definition balance_term (bw : Q) (tids : list nat) : list (Q * list Var) :=
  if nonzero bw then [(bw, d_ <$> tids)] else [].

(** [weight * SCALE], a float product. *)
Definition scaled_weight (w : Q) : float :=
  fmul (to_float w) (Finite (inject_Z SCALE)).

(** [weight != 0 and terms]: the weight is compared as the float it is. *)
Definition penalised (w : Q) (pts : list Var) : bool :=
  negb (is_zero (to_float w)) && nonempty pts.

(** [int(weight * SCALE)], evaluated when the term is wanted; the conversion
    may raise. *)
Definition penalty_check (w : Q) (pts : list Var) : Result unit :=
  if penalised w pts then _ ← py_int (scaled_weight w); Ok () else Ok ().

(** The value of [int(weight * SCALE)] once [penalty_check] has passed. *)
Definition coefficient (w : Q) : Z :=
  match py_int (scaled_weight w) with
  | Ok c => c
  | Raise _ => 0
  end.

(** The conflict and the captain term: an integer coefficient times the sum
    of the penalty variables, left out when the weight is zero or there is no
    variable. *)
Definition penalty_term (w : Q) (pts : list Var) : list (Q * list Var) :=
  if penalised w pts then [(inject_Z (coefficient w), pts)] else [].

Definition objective (bw cw kw : Q) (tids : list nat) (cts pts : list Var)
  : list (Q * list Var) :=
  balance_term bw tids ++ penalty_term cw cts ++ penalty_term kw pts.

(** [model.Minimize(sum(obj_terms))] takes a linear expression or an
    integer.  A term over no variable is the float its weight gives when
    multiplied by the empty sum ([balance_weight * 0] when there is no team); a
    sum of such terms only is a float, which [Minimize] refuses. *)
Definition minimize (obj : list (Q * list Var)) : Result unit :=
  if nonempty obj && forallb (λ ot : Q * list Var, negb (nonempty ot.2)) obj
  then Raise TypeError else Ok ().

(** [solver.parameters.random_seed = random_seed]: the field holds a 32-bit
    integer and refuses any other value. *)
Definition set_random_seed (seed : Z) : Result unit :=
  if (- 2 ^ 31 <=? seed) && (seed <? 2 ^ 31) then Ok () else Raise TypeError.

(** ** The model builder: everything [build_and_solve] does before it
    calls the solver *)

Record Built : Type := {
  b_model : Model;
  b_target : Z;
  b_num_captains : Z;
  b_warnings : list string
}.

(** [np.random.default_rng] accepts no negative seed. *)
Definition default_rng (seed : Z) : Result unit :=
  if seed <? 0 then Raise (ValueError "expected non-negative integer") else Ok ().

Definition num_players (inp : Inputs) : nat := length (players (df inp)).
Definition num_roles (inp : Inputs) : Z := Z.of_nat (length (sorted_set (roles inp))).
Definition count_captains (inp : Inputs) : Z := Zsum (is_capt (df inp)).

(** The model once the fallible steps have gone through: [pcs] are the
    preset constraints, [target] the balancing target and [cp] the part the
    captain policy adds. *)
Definition assemble (inp : Inputs) (pcs : list Constraint) (target : Z)
    (cp : CaptainPart) : Built :=
  let P := num_players inp in
  let tids := team_ids (num_teams inp) in
  let rs := sorted_set (roles inp) in
  let R := num_roles inp in
  let aps := avoid_pairs (df inp) in
  let sws := scaled_ws (role_weights inp) (df inp) in
  {| b_model :=
       {| variables :=
            x_variables P tids ++ s_variables tids ++ d_variables tids ++
            diff_variables tids ++ y_variables aps tids ++
            c_t_variables R tids ++ cp_variables cp;
          constraints :=
            one_team_constraints P tids ++
            role_constraints (pos (df inp)) P rs tids ++
            pcs ++
            (score_constraint sws P <$> tids) ++
            mjoin (deviation_constraints target <$> tids) ++
            conflict_constraints aps tids ++
            (captain_count_constraint (is_capt (df inp)) P <$> tids) ++
            cp_constraints cp;
          obj_terms :=
            objective (balance_weight inp) (conflict_weight inp)
              (captain_weight inp) tids (conflict_terms aps tids)
              (captain_penalty_terms cp) |};
     b_target := target;
     b_num_captains := count_captains inp;
     b_warnings := cp_warnings cp |}.

Definition build_model (inp : Inputs) : Result Built :=
  _ ← default_rng (random_seed inp);
  pcs ← preset_constraints (name_to_idx (df inp)) (num_teams inp) (presets inp);
  target ← floordiv (total_score (scaled_ws (role_weights inp) (df inp)))
                    (num_teams inp);
  cp ← captain_part (captain_policy inp) (captain_hard inp) (count_captains inp)
                    (num_teams inp) (num_roles inp) (team_ids (num_teams inp));
  _ ← penalty_check (conflict_weight inp)
        (conflict_terms (avoid_pairs (df inp)) (team_ids (num_teams inp)));
  _ ← penalty_check (captain_weight inp) (captain_penalty_terms cp);
  _ ← minimize (obj_terms (b_model (assemble inp pcs target cp)));
  _ ← set_random_seed (random_seed inp);
  Ok (assemble inp pcs target cp).

(** ** Solving and reading the solution back *)

Definition solver_params (inp : Inputs) : SolverParams :=
  {| max_time_in_seconds := 30;
     solver_random_seed := random_seed inp;
     num_search_workers := 8 |}.

Record OutRow : Type := {
  row : Player;
  Team : Z
}.

Record Diagnostics : Type := {
  status : string;
  team_scores : gmap Z Q;
  target_score : Q;
  deviations : gmap Z Q;
  captain_counts : gmap Z Z;
  num_captains : Z;
  feasibility_warnings : list string
}.

(** The first team whose indicator is set, as a 1-based label. *)
Definition team_for_p (v : Valuation) (tids : list nat) (p : nat) : option Z :=
  (λ t, Z.of_nat t + 1) <$> List.find (λ t, v (x_ p t) =? 1) tids.

(** [[team_for_p[p] for p in range(P)]]: a player without a set indicator
    is a missing key. *)
Fixpoint team_column (v : Valuation) (tids : list nat) (ps : list nat)
  : Result (list Z) :=
  match ps with
  | [] => Ok []
  | p :: rest =>
      match team_for_p v tids p with
      | None => Raise (KeyError p)
      | Some t => ts ← team_column v tids rest; Ok (t :: ts)
      end
  end.

(** [value / SCALE] on two integers: the double nearest to the exact
    quotient. *)
Definition unscale (z : Z) : Q := round53 (inject_Z z / inject_Z SCALE).

Definition per_team {A} (f : nat → A) (tids : list nat) : gmap Z A :=
  list_to_map ((λ t, (Z.of_nat t + 1, f t)) <$> tids).

Definition status_name (st : Status) : string :=
  match st with OPTIMAL => "OPTIMAL" | _ => "FEASIBLE" end.

Definition extract (inp : Inputs) (b : Built) (st : Status) (v : Valuation)
  : Result (list OutRow * Diagnostics) :=
  let tids := team_ids (num_teams inp) in
  teams ← team_column v tids (seq 0 (num_players inp));
  Ok (zip_with Build_OutRow (df inp) teams,
      {| status := status_name st;
         team_scores := per_team (λ t, unscale (v (s_ t))) tids;
         target_score := unscale (b_target b);
         deviations := per_team (λ t, unscale (v (d_ t))) tids;
         captain_counts := per_team (λ t, v (c_t_ t)) tids;
         num_captains := b_num_captains b;
         feasibility_warnings := b_warnings b |}).

Definition no_assignment : Exn :=
  RuntimeError "No feasible assignment found. Try relaxing constraints or presets.".

(** A run of [build_and_solve]: the calls made to the engine, in order, and
    what the function returns or raises. *)
Record Run : Type := {
  solver_calls : list (Model * SolverParams);
  outcome : Result (list OutRow * Diagnostics)
}.

Definition build_and_solve (solve : Solver) (inp : Inputs) : Run :=
  match build_model inp with
  | Raise e => {| solver_calls := []; outcome := Raise e |}
  | Ok b =>
      let prm := solver_params inp in
      let sv := solve (b_model b) prm in
      {| solver_calls := [(b_model b, prm)];
         outcome := if usable sv.1 then extract inp b sv.1 sv.2
                    else Raise no_assignment |}
  end.

(** ** Engines used in examples *)

(** An engine that proposes one fixed valuation and reports it only when it
    satisfies the model. *)
Definition checked (st : Status) (cand : Valuation) : Solver :=
  λ m _, if satisfiesb cand m then (st, cand) else (INFEASIBLE, cand).

(** An engine that gives up. *)
Definition gives_up (st : Status) : Solver := λ _ _, (st, λ _, 0).

(** ** Auxiliary notions used in the statements *)

Definition target_of (inp : Inputs) : Z :=
  total_score (scaled_ws (role_weights inp) (df inp)) `div` num_teams inp.

#[global] Instance Player_inhabited : Inhabited Player :=
  populate {| Name := ""; Skill := 0; Position := 0; Captain := 0; Avoid := None |}.

(** The label the extraction loop gives player [p]. *)
Definition label (v : Valuation) (tids : list nat) (p : nat) : Z :=
  default 0 (team_for_p v tids p).

(** ** Example rosters, inputs and valuations *)

Definition player (n : string) (s : Q) (p c : Z) (a : option string) : Player :=
  {| Name := n; Skill := s; Position := p; Captain := c; Avoid := a |}.

(** Four players, two roles, two captains. *)
Definition roster4 : list Player :=
  [ player "P1" 10 1 0 None; player "P2" 20 1 1 None;
    player "P3" 15 2 0 None; player "P4" 25 2 1 None ].

Definition scenario : Inputs :=
  {| df := roster4; roles := [1; 2]; role_weights := ∅; num_teams := 2;
     captain_policy := "at_least_one"; captain_hard := true;
     conflict_weight := 1; balance_weight := 1; captain_weight := 5;
     presets := []; random_seed := 42 |}.

(** P1 and P4 on team 1, P2 and P3 on team 2: both teams score 35. *)
Definition split_35_35 : Valuation := λ a,
  match a with
  | x_ 0 0 | x_ 3 0 | x_ 1 1 | x_ 2 1 => 1
  | s_ _ => 3500
  | c_t_ _ => 1
  | _ => 0
  end.

Definition scenario_out : list OutRow :=
  zip_with Build_OutRow roster4 [1; 2; 2; 1].

Definition scenario_diag : Diagnostics :=
  {| status := "OPTIMAL";
     team_scores := per_team (λ _, unscale 3500) [0; 1]%nat;
     target_score := unscale 3500;
     deviations := per_team (λ _, unscale 0) [0; 1]%nat;
     captain_counts := per_team (λ _, 1) [0; 1]%nat;
     num_captains := 2;
     feasibility_warnings := [] |}.

(** The scenario with P1 preset to team 2, and a valuation that honours it. *)
Definition scenario_preset : Inputs :=
  {| df := roster4; roles := [1; 2]; role_weights := ∅; num_teams := 2;
     captain_policy := "at_least_one"; captain_hard := true;
     conflict_weight := 1; balance_weight := 1; captain_weight := 5;
     presets := [("P1", 2)]; random_seed := 42 |}.

Definition swapped_35_35 : Valuation := λ a,
  match a with
  | x_ 0 1 | x_ 3 1 | x_ 1 0 | x_ 2 0 => 1
  | s_ _ => 3500
  | c_t_ _ => 1
  | _ => 0
  end.

Definition scenario_preset_out : list OutRow :=
  zip_with Build_OutRow roster4 [2; 1; 1; 2].

(** ** Configuration errors *)

(** The configuration errors the builder checks for: an unknown captain
    policy, a preset for a player that is not in the roster, a preset team
    outside [1..num_teams]. *)
Definition config_error (inp : Inputs) : Prop :=
  captain_policy inp ∉ ["none"; "at_least_one"; "separate"] ∨
  ∃ name team1, (name, team1) ∈ presets inp ∧
    (name ∉ players (df inp) ∨ ¬ (1 <= team1 <= num_teams inp)).

(** A role-weight map is consistent with the declared roles when its keys
    are exactly those roles. *)
Definition weights_consistent (inp : Inputs) : Prop :=
  ∀ r, is_Some (role_weights inp !! r) ↔ r ∈ roles inp.

Definition set_policy (inp : Inputs) (policy : string) (hard : bool) : Inputs :=
  {| df := df inp; roles := roles inp; role_weights := role_weights inp;
     num_teams := num_teams inp; captain_policy := policy; captain_hard := hard;
     conflict_weight := conflict_weight inp; balance_weight := balance_weight inp;
     captain_weight := captain_weight inp; presets := presets inp;
     random_seed := random_seed inp |}.

Definition set_df (inp : Inputs) (d : list Player) : Inputs :=
  {| df := d; roles := roles inp; role_weights := role_weights inp;
     num_teams := num_teams inp; captain_policy := captain_policy inp;
     captain_hard := captain_hard inp;
     conflict_weight := conflict_weight inp; balance_weight := balance_weight inp;
     captain_weight := captain_weight inp; presets := presets inp;
     random_seed := random_seed inp |}.

Definition set_presets (inp : Inputs) (ps : list (string * Z)) : Inputs :=
  {| df := df inp; roles := roles inp; role_weights := role_weights inp;
     num_teams := num_teams inp; captain_policy := captain_policy inp;
     captain_hard := captain_hard inp;
     conflict_weight := conflict_weight inp; balance_weight := balance_weight inp;
     captain_weight := captain_weight inp; presets := ps;
     random_seed := random_seed inp |}.

Definition set_role_weights (inp : Inputs) (rw : gmap Z Q) : Inputs :=
  {| df := df inp; roles := roles inp; role_weights := rw;
     num_teams := num_teams inp; captain_policy := captain_policy inp;
     captain_hard := captain_hard inp;
     conflict_weight := conflict_weight inp; balance_weight := balance_weight inp;
     captain_weight := captain_weight inp; presets := presets inp;
     random_seed := random_seed inp |}.

(** The scenario with a policy name the builder does not know. *)
Definition scenario_bad_policy : Inputs := set_policy scenario "sometimes" true.

(** The scenario with weights for roles 1 and 3 while the declared roles are
    1 and 2. *)
Definition scenario_odd_weights : Inputs :=
  set_role_weights scenario (<[1 := 1%Q]> (<[3 := 2%Q]> ∅)).

(** Two players of role 1 preset to team 1: no assignment exists. *)
Definition scenario_clash : Inputs := set_presets scenario [("P1", 1); ("P2", 1)].

(** ** Avoid targets outside the roster *)

Definition forget_unknown (names : list string) (r : Player) : Player :=
  {| Name := Name r; Skill := Skill r; Position := Position r; Captain := Captain r;
     Avoid := match Avoid r with
              | Some b => if bool_decide (b ∈ names) then Some b else None
              | None => None
              end |}.

(** The table with every avoid target that names no roster player blanked. *)
Definition forget_unknown_avoid (d : list Player) : list Player :=
  forget_unknown (players d) <$> d.


(** ** Scores read off the output table *)

(** The scaled weighted skill of one row. *)
Definition scaled_of (rw : gmap Z Q) (r : Player) : Z :=
  scale_cell (fmul (to_float (Skill r)) (to_float (default 1%Q (rw !! Position r)))).

(** The sum of the scaled weighted skills of the rows labelled [t]. *)
Definition team_total (rw : gmap Z Q) (out : list OutRow) (t : Z) : Z :=
  Zsum ((λ o, if bool_decide (Team o = t) then scaled_of rw (row o) else 0) <$> out).

(** The sum of the captain flags of the rows labelled [t]. *)
Definition captains_on_team (out : list OutRow) (t : Z) : Z :=
  Zsum ((λ o, if bool_decide (Team o = t) then Captain (row o) else 0) <$> out).

(** P1 and P4 avoid each other. *)
Definition roster_feud : list Player :=
  [ player "P1" 10 1 0 (Some "P4"); player "P2" 20 1 1 None;
    player "P3" 15 2 0 None; player "P4" 25 2 1 (Some "P1") ].

Definition scenario_feud : Inputs := set_df scenario roster_feud.

(** What the builder produces for [scenario_feud]. *)
Definition feud_built : Built :=
  assemble scenario_feud [] 3500 (at_least_one_part true 2 2 [0; 1]%nat).

(** The 35/35 split, which puts P1 and P4 together on team 1. *)
Definition feud_together : Valuation := λ a,
  match a with
  | y_ 0 0 | y_ 1 0 => 1
  | _ => split_35_35 a
  end.

(** ** Which variables a constraint reads *)

Definition cvars (c : Constraint) : list Var :=
  match c with
  | EqC l r | LeC l r | GeC l r => (snd <$> terms l) ++ (snd <$> terms r)
  end.

(** Variables of the assignment, score, conflict and captain-count parts. *)
Definition structural (a : Var) : Prop :=
  match a with
  | x_ _ _ | s_ _ | y_ _ _ | c_t_ _ => True
  | _ => False
  end.

(** Variables the captain policy may read. *)
Definition captain_var (a : Var) : Prop :=
  match a with
  | c_t_ _ | m_t_ _ | k_t_ _ => True
  | _ => False
  end.

(** Variables of neither penalty family. *)
Definition not_penalty (a : Var) : Prop :=
  match a with
  | m_t_ _ | k_t_ _ => False
  | _ => True
  end.

(** [v] with the deviation variable of team [t] set to [z]. *)
Definition set_deviation (v : Valuation) (t : nat) (z : Z) : Valuation :=
  λ a, if decide (a = d_ t) then z else v a.

(** [v] with every captain-violation variable set to the least value the
    soft constraints allow. *)
Definition with_least_violations (v : Valuation) : Valuation :=
  λ a, match a with
       | m_t_ t => if 1 <=? v (c_t_ t) then 0 else 1
       | k_t_ t => Z.max 0 (v (c_t_ t) - 1)
       | _ => v a
       end.

(** Every declaration of a deviation variable has lower bound 0. *)
Definition deviation_decl_ok (d : Var * (Z * Z)) : Prop :=
  match d.1 with
  | d_ _ => d.2.1 = 0
  | _ => True
  end.

(** ** Engines that know one model *)

#[global] Instance Q_eq_dec : EqDecision Q.
Proof. solve_decision. Defined.

#[global] Instance LinExpr_eq_dec : EqDecision LinExpr.
Proof. solve_decision. Defined.

#[global] Instance Constraint_eq_dec : EqDecision Constraint.
Proof. solve_decision. Defined.

#[global] Instance Model_eq_dec : EqDecision Model.
Proof. solve_decision. Defined.

(** An engine that answers [OPTIMAL] with [cand] on the model [m0] and gives
    up on every other model. *)
Definition oracle (m0 : Model) (cand : Valuation) : Solver :=
  λ m _, if decide (m = m0) then (OPTIMAL, cand) else (UNKNOWN, cand).

Definition set_balance_weight (inp : Inputs) (bw : Q) : Inputs :=
  {| df := df inp; roles := roles inp; role_weights := role_weights inp;
     num_teams := num_teams inp; captain_policy := captain_policy inp;
     captain_hard := captain_hard inp;
     conflict_weight := conflict_weight inp; balance_weight := bw;
     captain_weight := captain_weight inp; presets := presets inp;
     random_seed := random_seed inp |}.

(** What the builder produces for [scenario]. *)
Definition scenario_built : Built :=
  assemble scenario [] 3500 (at_least_one_part true 2 2 [0; 1]%nat).

(** The scenario with the balance weight set to zero, and the 35/35 split
    with a deviation of 5.00 recorded for team 1. *)
Definition scenario_unweighted : Inputs := set_balance_weight scenario 0.

Definition unweighted_built : Built :=
  assemble scenario_unweighted [] 3500 (at_least_one_part true 2 2 [0; 1]%nat).

Definition slack_35_35 : Valuation := λ a,
  match a with
  | d_ 0 => 500
  | _ => split_35_35 a
  end.

Definition slack_diag : Diagnostics :=
  {| status := "OPTIMAL";
     team_scores := per_team (λ _, unscale 3500) [0; 1]%nat;
     target_score := unscale 3500;
     deviations := per_team (λ t, unscale (slack_35_35 (d_ t))) [0; 1]%nat;
     captain_counts := per_team (λ _, 1) [0; 1]%nat;
     num_captains := 2;
     feasibility_warnings := [] |}.

(** ** The captain policy, as the statements speak of it *)

(** The hard bound cannot be met by any assignment: fewer captains than
    teams for [at_least_one], more captains than teams for [separate]. *)
Definition pigeonhole_infeasible (inp : Inputs) : Prop :=
  (captain_policy inp = "at_least_one" ∧ count_captains inp < num_teams inp) ∨
  (captain_policy inp = "separate" ∧ num_teams inp < count_captains inp).

Definition downgrade_warning (inp : Inputs) : string :=
  if bool_decide (captain_policy inp = "at_least_one")
  then warn_at_least_one else warn_separate.

(** Every team of the output table meets the hard bound of the policy. *)
Definition hard_bound_holds (inp : Inputs) (out : list OutRow) : Prop :=
  ∀ t, 1 <= t <= num_teams inp →
    (captain_policy inp = "at_least_one" → 1 <= captains_on_team out t) ∧
    (captain_policy inp = "separate" → captains_on_team out t <= 1).

(** One captain for two teams. *)
Definition roster_one_captain : list Player :=
  [ player "P1" 10 1 0 None; player "P2" 20 1 1 None;
    player "P3" 15 2 0 None; player "P4" 25 2 0 None ].

Definition scenario_one_captain : Inputs := set_df scenario roster_one_captain.

(** The 35/35 split for that roster: team 2 has the captain, team 1 pays the
    violation. *)
Definition split_one_captain : Valuation := λ a,
  match a with
  | x_ 0 0 | x_ 3 0 | x_ 1 1 | x_ 2 1 => 1
  | s_ _ => 3500
  | c_t_ 1 => 1
  | m_t_ 0 => 1
  | _ => 0
  end.

Definition one_captain_out : list OutRow :=
  zip_with Build_OutRow roster_one_captain [1; 2; 2; 1].

Definition one_captain_diag : Diagnostics :=
  {| status := "FEASIBLE";
     team_scores := per_team (λ _, unscale 3500) [0; 1]%nat;
     target_score := unscale 3500;
     deviations := per_team (λ _, unscale 0) [0; 1]%nat;
     captain_counts := per_team (λ t, Z.of_nat t) [0; 1]%nat;
     num_captains := 1;
     feasibility_warnings := [warn_at_least_one] |}.

(** ** Tactics for lists of constraints and declarations *)

Ltac footprint_step :=
  match goal with
  | |- Forall _ [] => apply Forall_nil_2
  | |- Forall _ (_ :: _) => apply Forall_cons_2
  | |- Forall _ (_ ++ _) => apply Forall_app_2
  | |- Forall _ (_ <$> _) => apply Forall_fmap
  | |- Forall _ (mjoin _) => apply Forall_join
  | |- _ => progress simpl
  | |- Forall _ _ => apply Forall_forall; intros ? ?
  end.

Ltac footprint := repeat footprint_step; try exact I.

Ltac decl_step :=
  match goal with
  | |- Forall _ [] => apply Forall_nil_2
  | |- Forall _ (_ ++ _) => apply Forall_app_2
  | |- Forall _ (_ <$> _) => apply Forall_fmap
  | |- Forall _ (mjoin _) => apply Forall_join
  | |- Forall _ (imap _ _) => apply Forall_forall; intros ? (? & ? & -> & _)%elem_of_lookup_imap
  | |- _ => progress simpl
  | |- Forall _ _ => apply Forall_forall; intros ? ?
  end.

(** ** Notions used for the whole table *)

(** The team labels [1..num_teams] of the output table. *)
Definition team_labels (num_teams : Z) : list Z :=
  (λ t, Z.of_nat t + 1) <$> team_ids num_teams.

(** The rows of the output table labelled [t]. *)
Definition team_rows (out : list OutRow) (t : Z) : list OutRow :=
  filter (λ o, Team o = t) out.

(** The scenario with no team at all and a policy name that is not one. *)
Definition scenario_no_teams : Inputs :=
  {| df := roster4; roles := [1; 2]; role_weights := ∅; num_teams := 0;
     captain_policy := "sometimes"; captain_hard := true;
     conflict_weight := 1; balance_weight := 1; captain_weight := 5;
     presets := []; random_seed := 42 |}.

(** P1 names itself as the player to avoid. *)
Definition roster_self : list Player :=
  [ player "P1" 10 1 0 (Some "P1"); player "P2" 20 1 1 None;
    player "P3" 15 2 0 None; player "P4" 25 2 1 None ].

Definition scenario_self : Inputs := set_df scenario roster_self.

Definition self_built : Built :=
  assemble scenario_self [] 3500 (at_least_one_part true 2 2 [0; 1]%nat).

(** * [data_prep.py] *)

(** Exceptions of the code around the core: those of the core, and the
    built-in one met in [data_prep.py]. *)
Inductive Raised : Type :=
  | Core (e : Exn)
  | IndexError.

Inductive Outcome (A : Type) : Type :=
  | Return (a : A)
  | Throw (e : Raised).

Arguments Return {A} a.
Arguments Throw {A} e.

#[global] Instance Outcome_ret : MRet Outcome := λ A a, Return a.
#[global] Instance Outcome_bind : MBind Outcome := λ A B f r,
  match r with
  | Return a => f a
  | Throw e => Throw e
  end.

Definition lift {A} (r : Result A) : Outcome A :=
  match r with
  | Ok a => Return a
  | Raise e => Throw (Core e)
  end.

(** ** [prepare_data] *)

(** The table as [pd.read_csv] returns it: the names of its columns and, row
    by row, the cells of the five columns the function reads.  A cell of
    [Name] is the string [astype(str)] gives; a cell of [Position],
    [Captain] or [Skill] is the value its cast gives, or [None] when the cast
    raises; a cell of [Avoid] is [None] for a missing value and the string
    [str] gives otherwise. *)
Record RawRow : Type := {
  raw_Name : string;
  raw_Skill : option Q;
  raw_Position : option Z;
  raw_Captain : option Z;
  raw_Avoid : option string
}.

Record Csv : Type := {
  csv_columns : list string;
  csv_rows : list RawRow
}.

Definition expected : list string := ["Name"; "Skill"; "Position"; "Captain"; "Avoid"].

Definition missing_columns (cols : list string) : list string :=
  filter (λ c, c ∉ cols) expected.

(** The [repr] of a list of the expected column names. *)
Definition repr_columns (l : list string) : string :=
  "[" +:+ String.concat ", " ((λ c, "'" +:+ c +:+ "'") <$> l) +:+ "]".

Definition missing_error (missing : list string) : Exn :=
  ValueError ("Missing required columns in signups CSV: " +:+ repr_columns missing).

(** The three messages below are modelled by their fixed part: the casts
    raise inside pandas, and the other two print a set and a list. *)
Definition cast_error (col : string) : Exn :=
  ValueError ("cannot cast column " +:+ col).

Definition unknown_roles_error : Exn := ValueError "Found unknown roles".

Definition duplicate_names_error : Exn :=
  ValueError "Duplicate player names found. Names must be unique.".

(** [astype] on a column: all its cells cast, or the cast raises. *)
Definition cast_column {A} (col : string) (cells : list (option A)) : Result (list A) :=
  match mapM id cells with
  | Some l => Ok l
  | None => Raise (cast_error col)
  end.

(** White space in the sense of [str.strip] among the ASCII characters. *)
Definition is_space (a : Ascii.ascii) : bool :=
  let n := Ascii.nat_of_ascii a in
  ((9 <=? n)%nat && (n <=? 13)%nat) || ((28 <=? n)%nat && (n <=? 32)%nat).

Fixpoint lstrip (s : string) : string :=
  match s with
  | String a s' => if is_space a then lstrip s' else s
  | EmptyString => EmptyString
  end.

(** [str.strip()] on ASCII text; used where an example needs a concrete
    function. *)
Definition ascii_strip (s : string) : string :=
  String.rev (lstrip (String.rev (lstrip s))).

Section DataPrep.
(** [str.strip()], which strips Unicode white space, is a parameter. *)
Variable strip : string → string.

Definition clean_avoid (x : option string) : option string :=
  match x with
  | None => None
  | Some s =>
      let s := strip s in
      if (String.length s =? 0)%nat then None else Some s
  end.

Definition typed_rows (names : list string) (skills : list Q) (positions captains : list Z)
    (avoids : list (option string)) : list Player :=
  zip_with (λ na sc, Build_Player na.1 sc.1 sc.2.1 sc.2.2 na.2)
    (zip names avoids) (zip skills (zip positions captains)).

Definition prepare_data (csv : Csv) (roles : list Z) : Result (list Player) :=
  let missing := missing_columns (csv_columns csv) in
  if nonempty missing then Raise (missing_error missing)
  else
    let names := (λ r, strip (raw_Name r)) <$> csv_rows csv in
    positions ← cast_column "Position" (raw_Position <$> csv_rows csv);
    captains ← cast_column "Captain" (raw_Captain <$> csv_rows csv);
    skills ← cast_column "Skill" (raw_Skill <$> csv_rows csv);
    let avoids := (λ r, clean_avoid (raw_Avoid r)) <$> csv_rows csv in
    let bad_roles : gset Z := list_to_set positions ∖ list_to_set roles in
    if bool_decide (bad_roles ≠ ∅) then Raise unknown_roles_error
    else if bool_decide (NoDup names)
    then Ok (typed_rows names skills positions captains avoids)
    else Raise duplicate_names_error.
End DataPrep.

(** ** [infer_num_teams] *)

(** [df.groupby("Position")["Name"].count()]: the positions that occur, in
    increasing order, each with its number of rows. *)
Definition position_counts (d : list Player) : list (Z * nat) :=
  (λ r, (r, length (filter (λ p, Position p = r) d))) <$> sorted_set (pos d).

Definition roles_mismatch_error : Exn :=
  ValueError "Dataset roles don't match configured roles.".

Definition uneven_roles_error : Exn :=
  ValueError "Each role must have the same number of players to form balanced teams.".

Definition player_count_error : Exn :=
  ValueError "Player count != num_teams * roles. Fix the input or num_teams.".

(** The value of [num_teams] when the configuration gives none. *)
Definition counted_teams (d : list Player) (roles : list Z) : Outcome Z :=
  let counts := position_counts d in
  if bool_decide (list_to_set counts.*1 ≠@{gset Z} list_to_set roles)
  then Throw (Core roles_mismatch_error)
  else
    match counts.*2 with
    | [] => Throw IndexError
    | v0 :: _ =>
        if forallb (λ c, c =? v0)%nat counts.*2
        then Return (Z.of_nat v0)
        else Throw (Core uneven_roles_error)
    end.

Definition infer_num_teams (d : list Player) (roles : list Z) (num_teams_cfg : option Z)
  : Outcome Z :=
  num_teams ← match num_teams_cfg with
              | Some n => Return n
              | None => counted_teams d roles
              end;
  let R := Z.of_nat (length roles) in
  if bool_decide (Z.of_nat (length d) ≠ num_teams * R)
  then Throw (Core player_count_error)
  else Return num_teams.

(** Row [p] of the prepared table is row [r] of the file, cleaned. *)
Definition cleaned (strip : string → string) (r : RawRow) (p : Player) : Prop :=
  Name p = strip (raw_Name r) ∧
  raw_Skill r = Some (Skill p) ∧
  raw_Position r = Some (Position p) ∧
  raw_Captain r = Some (Captain p) ∧
  Avoid p = clean_avoid strip (raw_Avoid r).

(** The cells of the three numeric columns of a row can be cast. *)
Definition castable (r : RawRow) : Prop :=
  is_Some (raw_Position r) ∧ is_Some (raw_Captain r) ∧ is_Some (raw_Skill r).

(** * [main.py] *)

(** The configuration as [load_config] returns it, restricted to the entries
    [run] passes on, each with the type [run] casts it to. *)
Record Config : Type := {
  cfg_roles : list Z;
  cfg_num_teams : option Z;
  cfg_role_weights : gmap Z Q;
  cfg_captain_policy : string;
  cfg_captain_hard : bool;
  cfg_conflict_weight : Q;
  cfg_balance_weight : Q;
  cfg_captain_weight : Q;
  cfg_presets : list (string * Z);
  cfg_random_seed : Z
}.

(** The arguments [run] gives [build_and_solve]. *)
Definition inputs_of (cfg : Config) (d : list Player) (T : Z) : Inputs :=
  {| df := d;
     roles := cfg_roles cfg;
     role_weights := cfg_role_weights cfg;
     num_teams := T;
     captain_policy := cfg_captain_policy cfg;
     captain_hard := cfg_captain_hard cfg;
     conflict_weight := cfg_conflict_weight cfg;
     balance_weight := cfg_balance_weight cfg;
     captain_weight := cfg_captain_weight cfg;
     presets := cfg_presets cfg;
     random_seed := cfg_random_seed cfg |}.

(** [run] up to the return of [build_and_solve]; what follows writes the
    result to files.  The calls made to the engine are recorded as in
    [Run]. *)
Record MainRun : Type := {
  engine_calls : list (Model * SolverParams);
  result : Outcome (list OutRow * Diagnostics)
}.

Definition run (strip : string → string) (solve : Solver) (cfg : Config) (csv : Csv)
  : MainRun :=
  let roles := cfg_roles cfg in
  match prepare_data strip csv roles with
  | Raise e => {| engine_calls := []; result := Throw (Core e) |}
  | Ok d =>
      match infer_num_teams d roles (cfg_num_teams cfg) with
      | Throw e => {| engine_calls := []; result := Throw e |}
      | Return T =>
          let r := build_and_solve solve (inputs_of cfg d T) in
          {| engine_calls := solver_calls r; result := lift (outcome r) |}
      end
  end.

(** * [plotting.py] *)

(** [sorted(roles)]: in increasing order, repetitions kept. *)
Fixpoint insert_sorted (r : Z) (l : list Z) : list Z :=
  match l with
  | [] => [r]
  | h :: t => if r <=? h then r :: l else h :: insert_sorted r t
  end.

Definition sorted (l : list Z) : list Z := foldr insert_sorted [] l.

(** [sorted(out_df["Team"].unique())] *)
Definition teams_of (out : list OutRow) : list Z := sorted_set (Team <$> out).

(** The grid of panels of [plot_mmr_bars_per_team] ([width = 4]) and
    [plot_team_reports] ([width = 3]): [(rows, cols)].  The quotient
    [T / cols] is a float in the source and an exact rational here. *)
Definition grid (width : Z) (T : Z) : Outcome (Z * Z) :=
  let cols := Z.min width T in
  if cols =? 0 then Throw (Core ZeroDivisionError)
  else Return (Qceiling (inject_Z T / inject_Z cols), cols).

Definition mmr_bars_grid (out : list OutRow) : Outcome (Z * Z) :=
  grid 4 (Z.of_nat (length (teams_of out))).

Definition team_reports_grid (out : list OutRow) : Outcome (Z * Z) :=
  grid 3 (Z.of_nat (length (teams_of out))).

(** The pandas in use: before 3.0 [float] converts a column of one cell
    (with a deprecation warning in the 2.x releases) and raises [TypeError]
    on any other column; from 3.0 on it raises [TypeError] on every
    column. *)
Inductive Pandas : Type := pandas_2 | pandas_3.

(** [float(column)] *)
Definition float_of_column (pd : Pandas) (cells : list Q) : Outcome Q :=
  match pd, cells with
  | pandas_2, [x] => Return x
  | _, _ => Throw (Core TypeError)
  end.

(** [float(g[g["Position"] == r]["Skill"])] *)
Definition heat_cell (pd : Pandas) (g : list OutRow) (r : Z) : Outcome Q :=
  float_of_column pd ((λ o, Skill (row o)) <$> filter (λ o, Position (row o) = r) g).

(** The matrix [data] of [plot_avg_role_mmr_by_team]: a line per team, a
    column per entry of [sorted(roles)]. *)
Definition heat_data (pd : Pandas) (out : list OutRow) (roles : list Z)
  : Outcome (list (list Q)) :=
  mapM (λ t, mapM (heat_cell pd (team_rows out t)) (sorted roles)) (teams_of out).

(** ** Example files and configurations *)

Definition raw (n : string) (s : Q) (p c : Z) (a : option string) : RawRow :=
  {| raw_Name := n; raw_Skill := Some s; raw_Position := Some p;
     raw_Captain := Some c; raw_Avoid := a |}.

(** A file whose cleaned table is [roster4]: names with surrounding blanks and
    an avoid cell of blanks only. *)
Definition signups : Csv :=
  {| csv_columns := ["Name"; "Skill"; "Position"; "Captain"; "Avoid"];
     csv_rows := [ raw " P1" 10 1 0 None; raw "P2 " 20 1 1 (Some "  ");
                   raw "P3" 15 2 0 None; raw "P4" 25 2 1 None ] |}.

(** P1 avoids P4, written with blanks around the name. *)
Definition signups_avoid : Csv :=
  {| csv_columns := ["Name"; "Skill"; "Position"; "Captain"; "Avoid"];
     csv_rows := [ raw "P1" 10 1 0 (Some " P4 "); raw "P2" 20 1 1 None;
                   raw "P3" 15 2 0 None; raw " P4" 25 2 1 None ] |}.

(** The configuration of [scenario], the number of teams left to be
    inferred. *)
Definition config4 : Config :=
  {| cfg_roles := [1; 2]; cfg_num_teams := None; cfg_role_weights := ∅;
     cfg_captain_policy := "at_least_one"; cfg_captain_hard := true;
     cfg_conflict_weight := 1; cfg_balance_weight := 1; cfg_captain_weight := 5;
     cfg_presets := []; cfg_random_seed := 42 |}.

(** The table a file gives when its three numeric columns can be cast. *)
Definition clean_row (strip : string → string) (r : RawRow) : Player :=
  {| Name := strip (raw_Name r);
     Skill := default 0%Q (raw_Skill r);
     Position := default 0 (raw_Position r);
     Captain := default 0 (raw_Captain r);
     Avoid := clean_avoid strip (raw_Avoid r) |}.

(** Three players of role 1 and one of role 2, for two teams of two: the
    number of rows fits, the roles do not. *)
Definition signups_uneven : Csv :=
  {| csv_columns := ["Name"; "Skill"; "Position"; "Captain"; "Avoid"];
     csv_rows := [ raw "P1" 10 1 0 None; raw "P2" 20 1 1 None;
                   raw "P3" 15 1 0 None; raw "P4" 25 2 1 None ] |}.

Definition roster_uneven : list Player :=
  [ player "P1" 10 1 0 None; player "P2" 20 1 1 None;
    player "P3" 15 1 0 None; player "P4" 25 2 1 None ].

Definition config_two_teams : Config :=
  {| cfg_roles := [1; 2]; cfg_num_teams := Some 2; cfg_role_weights := ∅;
     cfg_captain_policy := "none"; cfg_captain_hard := false;
     cfg_conflict_weight := 1; cfg_balance_weight := 1; cfg_captain_weight := 5;
     cfg_presets := []; cfg_random_seed := 42 |}.

(** A grid of [rows] by [cols] panels fits [T] panels filled line by line:
    every panel has a cell, no line is empty and no line is wider than
    [width]. *)
Definition fits (width T rows cols : Z) : Prop :=
  1 <= cols <= width ∧ (rows - 1) * cols < T <= rows * cols.

(** The cell of the heat map for team [t] and role [r] holds the skill of a
    row of the table with that team and that role. *)
Definition cell_of (out : list OutRow) (t r : Z) (x : Q) : Prop :=
  ∃ o, o ∈ out ∧ Team o = t ∧ Position (row o) = r ∧ x = Skill (row o).

(** ** An assignment for every validated table *)

(** The valuation of the assignment that puts player [p] on team [a p]. *)
Definition assigned (inp : Inputs) (a : nat → nat) : Valuation := λ var,
  let x := λ p t : nat, if bool_decide (a p = t) then 1 else 0 in
  let s := λ t, Zsum ((λ p, scaled_ws (role_weights inp) (df inp) !!! p * x p t)
                        <$> seq 0 (num_players inp)) in
  match var with
  | x_ p t => x p t
  | s_ t => s t
  | diff_ t => s t - target_of inp
  | d_ t => Z.abs (s t - target_of inp)
  | y_ k t =>
      match avoid_pairs (df inp) !! k with
      | Some ab => x ab.1 t * x ab.2 t
      | None => 0
      end
  | c_t_ t => Zsum ((λ p, is_capt (df inp) !!! p * x p t) <$> seq 0 (num_players inp))
  | m_t_ _ | k_t_ _ => 0
  end.

(** The captains among the players of role [r]. *)
Definition captains_of (ps cs : list Z) (P : nat) (r : Z) : list nat :=
  filter (λ p, cs !!! p = 1) (with_role ps P r).

(** The players of role [r], its captains first. *)
Definition block (ps cs : list Z) (P : nat) (r : Z) : list nat :=
  captains_of ps cs P r ++ filter (λ p, ¬ cs !!! p = 1) (with_role ps P r).

(** The place of player [p] in the block of its role. *)
Definition slot (ps cs : list Z) (P : nat) (p : nat) : nat :=
  if bool_decide (cs !!! p = 1)
  then length (filter (λ q, cs !!! q = 1 ∧ ps !!! q = ps !!! p) (seq 0 p))
  else Nat.add (length (captains_of ps cs P (ps !!! p)))
               (length (filter (λ q, ¬ cs !!! q = 1 ∧ ps !!! q = ps !!! p) (seq 0 p))).

(** The number of captains in the roles of [rs] below [r]. *)
Definition offset (ps cs : list Z) (P : nat) (rs : list Z) (r : Z) : nat :=
  sum_list ((λ r', length (captains_of ps cs P r')) <$> filter (λ r', r' < r) rs).

(** The captains are dealt to the teams in turn, role after role; the other
    players of a role go to the teams that follow its captains. *)
Definition captains_first (inp : Inputs) (p : nat) : nat :=
  let ps := pos (df inp) in
  let cs := is_capt (df inp) in
  let P := num_players inp in
  Nat.modulo (Nat.add (offset ps cs P (sorted_set (roles inp)) (ps !!! p)) (slot ps cs P p))
             (Z.to_nat (num_teams inp)).

(** ** Doubles, as the statements speak of them *)

(** A rational with a significand of 53 bits and an exponent of at least
    [-1074]: every double is one, and one below [2^1024] in absolute value is
    a double. *)
Definition representable (x : Q) : Prop :=
  ∃ m j : Z, -1074 <= j ∧ Z.abs m <= 2 ^ 53 ∧ (x == inject_Z m * pow2 j)%Q.

(** [x] is a double nearest to the exact value [y]. *)
Definition nearest_double (x y : Q) : Prop :=
  representable x ∧ ∀ z, representable z → (Qabs (x - y) <= Qabs (z - y))%Q.

(** [c] is [y] with its fractional part dropped. *)
Definition integer_part (y : Q) (c : Z) : Prop :=
  (Qabs (inject_Z c) <= Qabs y)%Q ∧ (Qabs y < Qabs (inject_Z c) + 1)%Q ∧
  (0 <= inject_Z c * y)%Q.

(** Case analysis on every absolute value of the goal and of the context. *)
Ltac qabs :=
  repeat match goal with H : context [Qabs _] |- _ => revert H end;
  repeat match goal with
         | |- context [Qabs ?a] => pattern (Qabs a); apply Qabs_case; intro
         end;
  intros.

(** ** Constraints that do not bound a captain count *)

(** An equation, or an inequality whose left side is not the captain count
    of a team. *)
Definition not_captain_bound (c : Constraint) : Prop :=
  match c with
  | EqC _ _ => True
  | LeC l _ | GeC l _ => ∀ t, l ≠ var_e (c_t_ t)
  end.

(** Three captains for two teams, under the hard [separate] policy. *)
Definition roster_three_captains : list Player :=
  [ player "P1" 10 1 1 None; player "P2" 20 1 1 None;
    player "P3" 15 2 0 None; player "P4" 25 2 1 None ].

Definition scenario_three_captains : Inputs :=
  set_policy (set_df scenario roster_three_captains) "separate" true.

(** The 35/35 split for that roster: team 1 has two captains and pays one
    violation. *)
Definition split_three_captains : Valuation := λ a,
  match a with
  | x_ 0 0 | x_ 3 0 | x_ 1 1 | x_ 2 1 => 1
  | s_ _ => 3500
  | c_t_ 0 => 2
  | c_t_ 1 => 1
  | k_t_ 0 => 1
  | _ => 0
  end.

Definition three_captains_out : list OutRow :=
  zip_with Build_OutRow roster_three_captains [1; 2; 2; 1].

Definition three_captains_diag : Diagnostics :=
  {| status := "FEASIBLE";
     team_scores := per_team (λ _, unscale 3500) [0; 1]%nat;
     target_score := unscale 3500;
     deviations := per_team (λ _, unscale 0) [0; 1]%nat;
     captain_counts := per_team (λ t, 2 - Z.of_nat t) [0; 1]%nat;
     num_captains := 3;
     feasibility_warnings := [warn_separate] |}.

(** ** Inputs with one argument changed *)

Definition set_seed (inp : Inputs) (seed : Z) : Inputs :=
  {| df := df inp; roles := roles inp; role_weights := role_weights inp;
     num_teams := num_teams inp; captain_policy := captain_policy inp;
     captain_hard := captain_hard inp;
     conflict_weight := conflict_weight inp; balance_weight := balance_weight inp;
     captain_weight := captain_weight inp; presets := presets inp;
     random_seed := seed |}.

Definition set_num_teams (inp : Inputs) (T : Z) : Inputs :=
  {| df := df inp; roles := roles inp; role_weights := role_weights inp;
     num_teams := T; captain_policy := captain_policy inp;
     captain_hard := captain_hard inp;
     conflict_weight := conflict_weight inp; balance_weight := balance_weight inp;
     captain_weight := captain_weight inp; presets := presets inp;
     random_seed := random_seed inp |}.

Definition set_conflict_weight (inp : Inputs) (cw : Q) : Inputs :=
  {| df := df inp; roles := roles inp; role_weights := role_weights inp;
     num_teams := num_teams inp; captain_policy := captain_policy inp;
     captain_hard := captain_hard inp;
     conflict_weight := cw; balance_weight := balance_weight inp;
     captain_weight := captain_weight inp; presets := presets inp;
     random_seed := random_seed inp |}.

(** ** Skills on which float arithmetic shows *)




(** * Sums of indicators *)

Lemma Zsum_app (l1 l2 : list Z) : Zsum (l1 ++ l2) = Zsum l1 + Zsum l2.
Proof. induction l1 as [|a l1 IH]; simpl; [done | rewrite IH; lia]. Qed.

Lemma eval_var_e (v : Valuation) (a : Var) : eval v (var_e a) = v a.
Proof. unfold eval; simpl. lia. Qed.

Lemma eval_const_e (v : Valuation) (c : Z) : eval v (const_e c) = c.
Proof. reflexivity. Qed.

Lemma eval_sum_e (v : Valuation) (ts : list (Z * Var)) :
  eval v (sum_e ts) = Zsum ((λ ct : Z * Var, ct.1 * v ct.2) <$> ts).
Proof. unfold eval; simpl. lia. Qed.

Lemma eval_sum_weighted {A} (v : Valuation) (w : A → Z) (g : A → Var) (l : list A) :
  eval v (sum_e ((λ a, (w a, g a)) <$> l)) = Zsum ((λ a, w a * v (g a)) <$> l).
Proof. rewrite eval_sum_e, <- list_fmap_compose. reflexivity. Qed.

Lemma eval_sum_ones {A} (v : Valuation) (g : A → Var) (l : list A) :
  eval v (sum_e ((λ a, (1, g a)) <$> l)) = Zsum ((λ a, v (g a)) <$> l).
Proof.
  rewrite eval_sum_weighted. f_equal. apply list_fmap_ext.
  intros _ a _. lia.
Qed.

Lemma Zsum_ext {A} (f g : A → Z) (l : list A) :
  (∀ a, a ∈ l → f a = g a) → Zsum (f <$> l) = Zsum (g <$> l).
Proof.
  induction l as [|a l IH]; intros H; [done|].
  rewrite !fmap_cons. unfold Zsum in *. simpl.
  rewrite H by left. rewrite IH; [done|]. intros b Hb. apply H. by right.
Qed.

(** A sum of 0/1 values counts the ones. *)
Lemma Zsum_bits {A} (f : A → Z) (l : list A) :
  (∀ a, a ∈ l → f a = 0 ∨ f a = 1) →
  Zsum (f <$> l) = Z.of_nat (length (filter (λ a, f a = 1) l)).
Proof.
  induction l as [|a l IH]; intros H; [done|].
  rewrite filter_cons, fmap_cons.
  change (Zsum (f a :: (f <$> l))) with (f a + Zsum (f <$> l)).
  rewrite IH by (intros b Hb; apply H; by right).
  destruct (H a) as [E|E]; [by left| |]; destruct (decide (f a = 1)); simpl; lia.
Qed.

Lemma length_one_unique {A} (l : list A) (a b : A) :
  length l = 1%nat → a ∈ l → b ∈ l → a = b.
Proof.
  destruct l as [|c [|c' l]]; simpl; try discriminate.
  intros _ Ha Hb. apply list_elem_of_singleton in Ha, Hb. congruence.
Qed.

(** Among 0/1 values that sum to one, exactly one is set, and a left to
    right search finds it. *)
Lemma one_hot {A} (f : A → Z) (l : list A) :
  (∀ a, a ∈ l → f a = 0 ∨ f a = 1) →
  Zsum (f <$> l) = 1 →
  ∃ a, a ∈ l ∧ f a = 1 ∧ List.find (λ a, f a =? 1) l = Some a ∧
       (∀ b, b ∈ l → f b = 1 → b = a).
Proof.
  intros Hb Hs. rewrite Zsum_bits in Hs by done.
  assert (Hlen : length (filter (λ a, f a = 1) l) = 1%nat) by lia.
  clear Hs.
  assert (∃ a, List.find (λ a, f a =? 1) l = Some a) as [a Ha].
  { clear Hb. induction l as [|c l IH]; [discriminate|].
    simpl. rewrite filter_cons in Hlen.
    destruct (decide (f c = 1)) as [E|E].
    - exists c. by rewrite E.
    - apply Z.eqb_neq in E as ->. by apply IH. }
  exists a. apply find_some in Ha as Hin. destruct Hin as [Hin Hfa].
  apply list_elem_of_In in Hin. apply Z.eqb_eq in Hfa.
  repeat split; try done.
  intros b Hbl Hfb.
  apply (length_one_unique _ _ _ Hlen); apply list_elem_of_filter; done.
Qed.

(** * What a successful build consists of *)

Lemma build_model_inv (inp : Inputs) (b : Built) :
  build_model inp = Ok b →
  ∃ pcs cp,
    0 <= random_seed inp ∧
    preset_constraints (name_to_idx (df inp)) (num_teams inp) (presets inp) = Ok pcs ∧
    num_teams inp ≠ 0 ∧
    captain_part (captain_policy inp) (captain_hard inp) (count_captains inp)
      (num_teams inp) (num_roles inp) (team_ids (num_teams inp)) = Ok cp ∧
    b = assemble inp pcs (target_of inp) cp.
Proof.
  unfold build_model, default_rng, floordiv, target_of.
  destruct (Z.ltb_spec (random_seed inp) 0) as [?|Hseed]; [discriminate|].
  simpl.
  destruct (preset_constraints _ _ _) as [pcs|]; [|discriminate]. simpl.
  destruct (Z.eqb_spec (num_teams inp) 0) as [?|Hnz]; [discriminate|]. simpl.
  destruct (captain_part _ _ _ _ _ _) as [cp|]; [|discriminate]. simpl.
  destruct (penalty_check (conflict_weight inp) _); [|simpl; discriminate]. simpl.
  destruct (penalty_check _ _); [|simpl; discriminate]. simpl.
  destruct (minimize _); [|simpl; discriminate]. simpl.
  destruct (set_random_seed _); [|simpl; discriminate]. simpl.
  intros [= <-]. exists pcs, cp. done.
Qed.

Lemma build_and_solve_inv (solve : Solver) (inp : Inputs) out diag :
  outcome (build_and_solve solve inp) = Ok (out, diag) →
  ∃ b, build_model inp = Ok b ∧
       usable (solve (b_model b) (solver_params inp)).1 = true ∧
       extract inp b (solve (b_model b) (solver_params inp)).1
                     (solve (b_model b) (solver_params inp)).2 = Ok (out, diag).
Proof.
  unfold build_and_solve. destruct (build_model inp) as [b|]; [|discriminate].
  simpl. destruct (usable _) eqn:Hu; [|discriminate].
  intros H. exists b. done.
Qed.

(** * What a valuation that satisfies the model says *)

Section Solution.
Variables (inp : Inputs) (pcs : list Constraint) (target : Z) (cp : CaptainPart).
Variable v : Valuation.
Hypothesis Hsat : satisfies v (b_model (assemble inp pcs target cp)).

Let P := num_players inp.
Let tids := team_ids (num_teams inp).

Lemma sol_bits p t :
  (p < P)%nat → t ∈ tids → v (x_ p t) = 0 ∨ v (x_ p t) = 1.
Proof.
  intros Hp Ht. destruct Hsat as [Hdom _]. simpl in Hdom.
  apply Forall_app in Hdom as [Hx _].
  rewrite Forall_forall in Hx.
  specialize (Hx (x_ p t, (0, 1))). unfold in_domain in Hx. simpl in Hx.
  enough (0 <= v (x_ p t) <= 1) by lia. apply Hx.
  unfold x_variables. apply list_elem_of_join.
  exists ((λ t, (x_ p t, (0, 1))) <$> tids). split.
  - apply list_elem_of_fmap. by exists t.
  - apply list_elem_of_fmap. exists p. split; [done|].
    apply elem_of_seq. fold P. lia.
Qed.

Lemma sol_one_team p :
  (p < P)%nat → Zsum ((λ t, v (x_ p t)) <$> tids) = 1.
Proof.
  intros Hp. destruct Hsat as [_ Hc]. simpl in Hc.
  apply Forall_app in Hc as [Hc _]. rewrite Forall_forall in Hc.
  specialize (Hc (one_team_constraint tids p)). simpl in Hc.
  rewrite eval_sum_ones in Hc. apply Hc.
  apply list_elem_of_fmap. exists p. split; [done|].
  apply elem_of_seq. fold P. lia.
Qed.

Lemma sol_role t r :
  t ∈ tids → r ∈ sorted_set (roles inp) →
  Zsum ((λ p, v (x_ p t)) <$> with_role (pos (df inp)) P r) = 1.
Proof.
  intros Ht Hr. destruct Hsat as [_ Hc]. simpl in Hc.
  apply Forall_app in Hc as [_ Hc]. apply Forall_app in Hc as [Hc _].
  rewrite Forall_forall in Hc.
  specialize (Hc (role_constraint (pos (df inp)) P t r)). simpl in Hc.
  rewrite eval_sum_ones in Hc. apply Hc.
  apply list_elem_of_join.
  exists (role_constraint (pos (df inp)) P t <$> sorted_set (roles inp)). split.
  - apply list_elem_of_fmap. by exists r.
  - apply list_elem_of_fmap. by exists t.
Qed.

Lemma sol_presets : Forall (holds v) pcs.
Proof.
  destruct Hsat as [_ Hc]. simpl in Hc.
  do 2 apply Forall_app in Hc as [_ Hc]. by apply Forall_app in Hc as [Hc _].
Qed.

Lemma sol_score t :
  t ∈ tids →
  v (s_ t) =
    Zsum ((λ p, scaled_ws (role_weights inp) (df inp) !!! p * v (x_ p t)) <$> seq 0 P).
Proof.
  intros Ht. destruct Hsat as [_ Hc]. simpl in Hc.
  do 3 apply Forall_app in Hc as [_ Hc]. apply Forall_app in Hc as [Hc _].
  rewrite Forall_forall in Hc.
  specialize (Hc (score_constraint (scaled_ws (role_weights inp) (df inp)) P t)).
  simpl in Hc. rewrite eval_var_e, eval_sum_weighted in Hc. apply Hc.
  apply list_elem_of_fmap. by exists t.
Qed.

Lemma sol_deviation t :
  t ∈ tids →
  v (diff_ t) = v (s_ t) - target ∧ Z.abs (v (s_ t) - target) <= v (d_ t).
Proof.
  intros Ht. destruct Hsat as [_ Hc]. simpl in Hc.
  do 4 apply Forall_app in Hc as [_ Hc]. apply Forall_app in Hc as [Hc _].
  rewrite Forall_forall in Hc.
  assert (Hin : ∀ c, c ∈ deviation_constraints target t → holds v c).
  { intros c Hin. apply Hc. apply list_elem_of_join. eexists. split; [exact Hin|].
    apply list_elem_of_fmap. by exists t. }
  pose proof (Hin _ (list_elem_of_here _ _)) as H1.
  pose proof (Hin _ (list_elem_of_further _ _ _ (list_elem_of_here _ _))) as H2.
  pose proof (Hin _ (list_elem_of_further _ _ _
                (list_elem_of_further _ _ _ (list_elem_of_here _ _)))) as H3.
  unfold holds, eval in H1, H2, H3. simpl in H1, H2, H3. lia.
Qed.

Lemma sol_conflict k pa pb t :
  avoid_pairs (df inp) !! k = Some (pa, pb) → t ∈ tids →
  (v (y_ k t) = 0 ∨ v (y_ k t) = 1) ∧
  v (y_ k t) <= v (x_ pa t) ∧ v (y_ k t) <= v (x_ pb t) ∧
  v (x_ pa t) + v (x_ pb t) - 1 <= v (y_ k t).
Proof.
  intros Hk Ht. destruct Hsat as [Hdom Hc]. simpl in Hdom, Hc.
  split.
  - do 4 apply Forall_app in Hdom as [_ Hdom]. apply Forall_app in Hdom as [Hy _].
    rewrite Forall_forall in Hy. specialize (Hy (y_ k t, (0, 1))).
    unfold in_domain in Hy. simpl in Hy.
    enough (0 <= v (y_ k t) <= 1) by lia. apply Hy.
    unfold y_variables. apply list_elem_of_join.
    exists ((λ t, (y_ k t, (0, 1))) <$> tids). split.
    + apply list_elem_of_fmap. by exists t.
    + apply elem_of_lookup_imap. by exists k, (pa, pb).
  - do 5 apply Forall_app in Hc as [_ Hc]. apply Forall_app in Hc as [Hc _].
    rewrite Forall_forall in Hc.
    assert (Hin : ∀ c, c ∈ conflict_constraint k (pa, pb) t → holds v c).
    { intros c Hin. apply Hc. unfold conflict_constraints.
      apply list_elem_of_join.
      exists (mjoin (conflict_constraint k (pa, pb) <$> tids)). split.
      - apply list_elem_of_join. eexists. split; [exact Hin|].
        apply list_elem_of_fmap. by exists t.
      - apply elem_of_lookup_imap. by exists k, (pa, pb). }
    pose proof (Hin _ (list_elem_of_here _ _)) as H1.
    pose proof (Hin _ (list_elem_of_further _ _ _ (list_elem_of_here _ _))) as H2.
    pose proof (Hin _ (list_elem_of_further _ _ _
                  (list_elem_of_further _ _ _ (list_elem_of_here _ _)))) as H3.
    unfold holds, eval in H1, H2, H3. simpl in H1, H2, H3. lia.
Qed.

Lemma sol_captain_count t :
  t ∈ tids →
  v (c_t_ t) = Zsum ((λ p, is_capt (df inp) !!! p * v (x_ p t)) <$> seq 0 P).
Proof.
  intros Ht. destruct Hsat as [_ Hc]. simpl in Hc.
  do 6 apply Forall_app in Hc as [_ Hc]. apply Forall_app in Hc as [Hc _].
  rewrite Forall_forall in Hc.
  specialize (Hc (captain_count_constraint (is_capt (df inp)) P t)).
  simpl in Hc. rewrite eval_var_e, eval_sum_weighted in Hc. apply Hc.
  apply list_elem_of_fmap. by exists t.
Qed.

Lemma sol_captain_part : Forall (holds v) (cp_constraints cp).
Proof.
  destruct Hsat as [_ Hc]. simpl in Hc.
  by do 7 apply Forall_app in Hc as [_ Hc].
Qed.
End Solution.

(** * Reading the [Team] column *)

Lemma team_column_inv v tids ps teams :
  team_column v tids ps = Ok teams →
  Forall2 (λ p z, team_for_p v tids p = Some z) ps teams.
Proof.
  revert teams. induction ps as [|p ps IH]; intros teams; simpl.
  - intros [= <-]. constructor.
  - destruct (team_for_p v tids p) as [z|] eqn:Hz; [|discriminate].
    destruct (team_column v tids ps) as [ts|]; [|discriminate]. simpl.
    intros [= <-]. constructor; [done|]. by apply IH.
Qed.

Lemma team_column_total v tids ps :
  (∀ p, p ∈ ps → is_Some (team_for_p v tids p)) →
  ∃ teams, team_column v tids ps = Ok teams.
Proof.
  induction ps as [|p ps IH]; intros H; simpl; [by eexists|].
  destruct (H p) as [z ->]; [by left|].
  destruct IH as [ts ->]; [intros q Hq; apply H; by right|].
  simpl. by eexists.
Qed.

Lemma team_column_labels v tids ps teams :
  team_column v tids ps = Ok teams → teams = label v tids <$> ps.
Proof.
  intros H%team_column_inv. induction H as [|p z ps ts Hz _ IH]; [done|].
  rewrite fmap_cons. unfold label at 1. rewrite Hz. simpl. by rewrite IH.
Qed.

Lemma extract_inv inp b st v out diag :
  extract inp b st v = Ok (out, diag) →
  let tids := team_ids (num_teams inp) in
  ∃ teams,
    team_column v tids (seq 0 (num_players inp)) = Ok teams ∧
    out = zip_with Build_OutRow (df inp) teams ∧
    diag = {| status := status_name st;
              team_scores := per_team (λ t, unscale (v (s_ t))) tids;
              target_score := unscale (b_target b);
              deviations := per_team (λ t, unscale (v (d_ t))) tids;
              captain_counts := per_team (λ t, v (c_t_ t)) tids;
              num_captains := b_num_captains b;
              feasibility_warnings := b_warnings b |}.
Proof.
  unfold extract. simpl.
  destruct (team_column _ _ _) as [teams|]; [|discriminate]. simpl.
  intros [= <- <-]. by exists teams.
Qed.

Lemma num_players_length inp : num_players inp = length (df inp).
Proof. unfold num_players, players. by rewrite length_fmap. Qed.

(** The output table, row by row. *)
Lemma extract_rows inp b st v out diag :
  extract inp b st v = Ok (out, diag) →
  out = (λ p, Build_OutRow (df inp !!! p) (label v (team_ids (num_teams inp)) p))
          <$> seq 0 (num_players inp).
Proof.
  intros (teams & Hcol & -> & _)%extract_inv.
  apply team_column_labels in Hcol as ->.
  apply list_eq. intros i.
  rewrite lookup_zip_with, !list_lookup_fmap.
  destruct (decide (i < num_players inp)%nat) as [Hi|Hi].
  - rewrite lookup_seq_lt by done. simpl.
    rewrite num_players_length in Hi.
    destruct (lookup_lt_is_Some_2 (df inp) i Hi) as [pl Hpl].
    rewrite Hpl. simpl. by rewrite (list_lookup_total_correct _ _ _ Hpl).
  - rewrite lookup_seq_ge by lia. simpl.
    rewrite num_players_length in Hi.
    rewrite (lookup_ge_None_2 (df inp) i) by lia. done.
Qed.

Lemma filter_ext_in {A} (P Q : A → Prop) `{!∀ a, Decision (P a), !∀ a, Decision (Q a)}
    (l : list A) :
  (∀ a, a ∈ l → P a ↔ Q a) → filter P l = filter Q l.
Proof.
  induction l as [|a l IH]; intros Hext; [done|].
  rewrite !filter_cons.
  rewrite IH by (intros b Hb; apply Hext; by right).
  pose proof (Hext a (list_elem_of_here _ _)) as Ha.
  destruct (decide (P a)) as [Hp|Hp], (decide (Q a)) as [Hq|Hq]; tauto.
Qed.

Lemma filter_fmap {A B} (f : A → B) (P : B → Prop) `{!∀ b, Decision (P b)} (l : list A) :
  filter P (f <$> l) = f <$> filter (λ a, P (f a)) l.
Proof.
  induction l as [|a l IH]; [done|].
  rewrite fmap_cons, !filter_cons, IH. by destruct (decide (P (f a))).
Qed.

Lemma elem_of_insert_role r a l : a ∈ insert_role r l ↔ a = r ∨ a ∈ l.
Proof.
  induction l as [|h tl IH]; simpl.
  - rewrite list_elem_of_singleton, elem_of_nil. tauto.
  - destruct (Z.ltb_spec r h); [by rewrite elem_of_cons|].
    destruct (Z.eqb_spec r h) as [->|].
    + rewrite elem_of_cons. tauto.
    + rewrite !elem_of_cons, IH. tauto.
Qed.

Lemma elem_of_sorted_set a l : a ∈ sorted_set l ↔ a ∈ l.
Proof.
  induction l as [|h tl IH]; simpl; [done|].
  rewrite elem_of_insert_role, IH, elem_of_cons. tauto.
Qed.

Lemma elem_of_team_ids t n : t ∈ team_ids n ↔ 0 <= Z.of_nat t < n.
Proof. unfold team_ids. rewrite elem_of_seq. lia. Qed.

Section Labels.
Variables (inp : Inputs) (pcs : list Constraint) (target : Z) (cp : CaptainPart).
Variable v : Valuation.
Hypothesis Hsat : satisfies v (b_model (assemble inp pcs target cp)).

Let P := num_players inp.
Let tids := team_ids (num_teams inp).

Lemma label_spec p :
  (p < P)%nat →
  ∃ t, t ∈ tids ∧ team_for_p v tids p = Some (Z.of_nat t + 1) ∧
       v (x_ p t) = 1 ∧ (∀ t', t' ∈ tids → v (x_ p t') = 1 → t' = t).
Proof.
  intros Hp.
  destruct (one_hot (λ t, v (x_ p t)) tids) as (t & Ht & Hv & Hfind & Huniq).
  - intros t Ht. by eapply sol_bits.
  - by eapply sol_one_team.
  - exists t. repeat split; try done.
    unfold team_for_p. by rewrite Hfind.
Qed.

Lemma label_iff p t :
  (p < P)%nat → t ∈ tids →
  label v tids p = Z.of_nat t + 1 ↔ v (x_ p t) = 1.
Proof.
  intros Hp Ht. destruct (label_spec p Hp) as (t0 & Ht0 & Hlab & Hv & Huniq).
  unfold label. rewrite Hlab. simpl. split.
  - intros E. assert (t = t0) as -> by lia. done.
  - intros E. by rewrite (Huniq t Ht E).
Qed.

Lemma label_range p :
  (p < P)%nat → 1 <= label v tids p <= num_teams inp.
Proof.
  intros Hp. destruct (label_spec p Hp) as (t0 & Ht0 & Hlab & _).
  unfold label. rewrite Hlab. simpl.
  apply elem_of_team_ids in Ht0. lia.
Qed.

Lemma team_column_succeeds :
  ∃ teams, team_column v tids (seq 0 P) = Ok teams.
Proof.
  apply team_column_total. intros p Hp%elem_of_seq.
  destruct (label_spec p) as (t & _ & -> & _); [lia|]. by eexists.
Qed.

(** Players of role [r] on team [t], counted through the indicators. *)
Lemma role_slot_count t r :
  t ∈ tids → r ∈ sorted_set (roles inp) →
  length (filter (λ p, Position (df inp !!! p) = r ∧
                       label v tids p = Z.of_nat t + 1) (seq 0 P)) = 1%nat.
Proof.
  intros Ht Hr. pose proof (sol_role _ _ _ _ _ Hsat t r Ht Hr) as Hsum.
  rewrite Zsum_bits in Hsum.
  2:{ intros p [_ Hp%elem_of_seq]%list_elem_of_filter.
      eapply sol_bits; [done| |done]. fold P in Hp |- *. lia. }
  unfold with_role in Hsum. rewrite list_filter_filter in Hsum.
  rewrite (filter_ext_in _ (λ a, v (x_ a t) = 1 ∧ pos (df inp) !!! a = r)).
  { fold P in Hsum. lia. }
  intros p Hp%elem_of_seq.
  assert (Hlt : (p < P)%nat) by lia.
  rewrite (label_iff p t Hlt Ht).
  unfold pos. rewrite (list_lookup_total_fmap Position); [tauto|].
  rewrite <- num_players_length. done.
Qed.
End Labels.

(** * From a returned result back to a satisfying valuation *)

Lemma solved_inv (solve : Solver) (inp : Inputs) out diag :
  solver_sound solve →
  outcome (build_and_solve solve inp) = Ok (out, diag) →
  ∃ pcs cp st v,
    build_model inp = Ok (assemble inp pcs (target_of inp) cp) ∧
    preset_constraints (name_to_idx (df inp)) (num_teams inp) (presets inp) = Ok pcs ∧
    captain_part (captain_policy inp) (captain_hard inp) (count_captains inp)
      (num_teams inp) (num_roles inp) (team_ids (num_teams inp)) = Ok cp ∧
    num_teams inp ≠ 0 ∧
    (st, v) = solve (b_model (assemble inp pcs (target_of inp) cp)) (solver_params inp) ∧
    usable st = true ∧
    satisfies v (b_model (assemble inp pcs (target_of inp) cp)) ∧
    extract inp (assemble inp pcs (target_of inp) cp) st v = Ok (out, diag).
Proof.
  intros Hsound (b & Hb & Hu & Hex)%build_and_solve_inv.
  pose proof Hb as (pcs & cp & _ & Hpcs & Hnz & Hcp & ->)%build_model_inv.
  exists pcs, cp, (solve (b_model (assemble inp pcs (target_of inp) cp)) (solver_params inp)).1,
    (solve (b_model (assemble inp pcs (target_of inp) cp)) (solver_params inp)).2.
  repeat split; try done.
  - by destruct (solve _ _).
  - by apply Hsound.
  - by apply Hsound.
Qed.

Lemma fmap_lookup_total_seq {A} `{!Inhabited A} (l : list A) :
  (λ p, l !!! p) <$> seq 0 (length l) = l.
Proof.
  apply list_eq. intros i. rewrite list_lookup_fmap.
  destruct (decide (i < length l)%nat) as [Hi|Hi].
  - rewrite lookup_seq_lt by done. simpl.
    destruct (lookup_lt_is_Some_2 l i Hi) as [a Ha].
    by rewrite Ha, (list_lookup_total_correct _ _ _ Ha).
  - rewrite lookup_seq_ge by lia. simpl. symmetry. apply lookup_ge_None_2. lia.
Qed.

Lemma satisfiesb_correct v m : satisfiesb v m = true → satisfies v m.
Proof.
  unfold satisfiesb, satisfies. intros [Hd Hc]%andb_prop. split.
  - rewrite forallb_forall in Hd. apply Forall_forall. intros d Hin%list_elem_of_In.
    apply Hd in Hin. unfold in_domainb in Hin. unfold in_domain.
    apply andb_prop in Hin as [?%Z.leb_le ?%Z.leb_le]. lia.
  - rewrite forallb_forall in Hc. apply Forall_forall. intros c Hin%list_elem_of_In.
    apply Hc in Hin. destruct c; simpl in *;
      [by apply Z.eqb_eq | by apply Z.leb_le | by apply Z.leb_le].
Qed.

Lemma checked_sound st cand : solver_sound (checked st cand).
Proof.
  intros m prm. unfold checked.
  destruct (satisfiesb cand m) eqn:E; simpl; [|discriminate].
  intros _. by apply satisfiesb_correct.
Qed.

Lemma gives_up_sound st : usable st = false → solver_sound (gives_up st).
Proof. intros H m prm. unfold gives_up. simpl. congruence. Qed.

(** * C1: every player on one team, every team with one player per role *)

Example scenario_outcome :
  outcome (build_and_solve (checked OPTIMAL split_35_35) scenario)
  = Ok (scenario_out, scenario_diag).
Proof. vm_compute. reflexivity. Qed.

(** C1.  Whenever [build_and_solve] returns a result (with an engine that
    honours its contract), the output table has the input rows in order, each
    with one [Team] label in [1..num_teams], and for every team and every
    role exactly one row has that role and that team. *)
Theorem C1_partition (solve : Solver) (inp : Inputs) out diag :
  solver_sound solve →
  outcome (build_and_solve solve inp) = Ok (out, diag) →
  row <$> out = df inp ∧
  Forall (λ o, 1 <= Team o <= num_teams inp) out ∧
  ∀ t r, 1 <= t <= num_teams inp → r ∈ roles inp →
    length (filter (λ o, Position (row o) = r ∧ Team o = t) out) = 1%nat.
Proof.
  intros Hsound Hres.
  destruct (solved_inv _ _ _ _ Hsound Hres)
    as (pcs & cp & st & v & _ & _ & _ & _ & _ & _ & Hsat & Hex).
  apply extract_rows in Hex as ->. split; [|split].
  - rewrite <- list_fmap_compose. simpl.
    rewrite num_players_length. apply fmap_lookup_total_seq.
  - apply Forall_fmap, Forall_forall. intros p Hp%elem_of_seq. simpl.
    eapply label_range; [exact Hsat|lia].
  - intros t r Ht Hr.
    rewrite filter_fmap, length_fmap. simpl.
    assert (Hid : Z.to_nat (t - 1) ∈ team_ids (num_teams inp))
      by (apply elem_of_team_ids; lia).
    pose proof (role_slot_count _ _ _ _ _ Hsat (Z.to_nat (t - 1)) r Hid) as Hcount.
    rewrite elem_of_sorted_set in Hcount. specialize (Hcount Hr).
    replace (Z.of_nat (Z.to_nat (t - 1)) + 1) with t in Hcount by lia.
    exact Hcount.
Qed.

Lemma C1_partition_witness :
  solver_sound (checked OPTIMAL split_35_35) ∧
  outcome (build_and_solve (checked OPTIMAL split_35_35) scenario)
    = Ok (scenario_out, scenario_diag) ∧
  row <$> scenario_out = df scenario ∧
  Forall (λ o, 1 <= Team o <= num_teams scenario) scenario_out ∧
  ∀ t r, 1 <= t <= num_teams scenario → r ∈ roles scenario →
    length (filter (λ o, Position (row o) = r ∧ Team o = t) scenario_out) = 1%nat.
Proof.
  assert (Hs : solver_sound (checked OPTIMAL split_35_35)) by apply checked_sound.
  assert (Ho : outcome (build_and_solve (checked OPTIMAL split_35_35) scenario)
               = Ok (scenario_out, scenario_diag)) by (vm_compute; reflexivity).
  exact (conj Hs (conj Ho (C1_partition _ _ _ _ Hs Ho))).
Defined.

(** * The name index *)

Lemma index_names_lookup_Some i names m n j :
  index_names i names m !! n = Some j →
  (m !! n = Some j ∧ n ∉ names) ∨ (∃ k, names !! k = Some n ∧ j = (i + k)%nat).
Proof.
  revert i m. induction names as [|a names IH]; intros i m; simpl.
  - intros H. left. split; [done|]. apply not_elem_of_nil.
  - intros [[Hm Hnot]|(k & Hk & ->)]%IH.
    + destruct (decide (a = n)) as [->|Hne].
      * rewrite lookup_insert_eq in Hm. injection Hm as <-.
        right. exists 0%nat. split; [done|lia].
      * rewrite lookup_insert_ne in Hm by done. left. split; [done|].
        rewrite not_elem_of_cons. split; [congruence|done].
    + right. exists (S k). split; [done|lia].
Qed.

Lemma index_names_lookup_NoDup i names m n k :
  NoDup names → names !! k = Some n →
  index_names i names m !! n = Some (i + k)%nat.
Proof.
  revert i m k. induction names as [|a names IH]; intros i m k Hnd Hk; [done|].
  apply NoDup_cons in Hnd as [Hnotin Hnd]. simpl.
  destruct k as [|k]; simpl in Hk.
  - injection Hk as ->.
    destruct (index_names (S i) names (<[n:=i]> m) !! n) as [j|] eqn:E.
    + apply index_names_lookup_Some in E as [[Hm _]|(k & Hk & _)].
      * rewrite lookup_insert_eq in Hm. injection Hm as <-. f_equal. lia.
      * exfalso. apply Hnotin. by eapply list_elem_of_lookup_2.
    + exfalso. clear IH Hnotin Hnd.
      assert (Hsome : ∀ names' i' m', is_Some (m' !! n) →
                is_Some (index_names i' names' m' !! n)).
      { induction names' as [|b names' IH']; intros i' m' Hm'; simpl; [done|].
        apply IH'. destruct (decide (b = n)) as [->|Hne].
        - rewrite lookup_insert_eq. by eexists.
        - by rewrite lookup_insert_ne. }
      destruct (Hsome names (S i) (<[n:=i]> m)) as [j Hj].
      { rewrite lookup_insert_eq. by eexists. }
      congruence.
  - rewrite (IH (S i) _ k Hnd Hk). f_equal. lia.
Qed.

Lemma name_to_idx_Some df n p :
  name_to_idx df !! n = Some p → players df !! p = Some n.
Proof.
  unfold name_to_idx. intros [[Hm _]|(k & Hk & ->)]%index_names_lookup_Some.
  - by rewrite lookup_empty in Hm.
  - done.
Qed.

Lemma name_to_idx_NoDup df n p :
  NoDup (players df) → players df !! p = Some n → name_to_idx df !! n = Some p.
Proof. intros Hnd Hp. apply (index_names_lookup_NoDup 0 _ ∅ n p Hnd Hp). Qed.

Lemma index_names_lookup_None i names (m : gmap string nat) n :
  index_names i names m !! n = None ↔ m !! n = None ∧ n ∉ names.
Proof.
  revert i m. induction names as [|a names IH]; intros i m; simpl.
  - rewrite elem_of_nil. tauto.
  - rewrite IH, not_elem_of_cons. destruct (decide (a = n)) as [->|Hne].
    + rewrite lookup_insert_eq. split; [by intros [? _]|tauto].
    + rewrite lookup_insert_ne by done.
      split; [intros [? ?]|intros [? [? ?]]]; repeat split; congruence || done.
Qed.

Lemma name_to_idx_None df n :
  name_to_idx df !! n = None ↔ n ∉ players df.
Proof.
  unfold name_to_idx. rewrite index_names_lookup_None, lookup_empty. tauto.
Qed.

(** * C4: presets *)

Lemma preset_constraints_inv idx T ps pcs name team1 :
  preset_constraints idx T ps = Ok pcs → (name, team1) ∈ ps →
  ∃ p, idx !! name = Some p ∧ 1 <= team1 <= T ∧
       ∀ c, c ∈ pin p (Z.to_nat (team1 - 1)) (team_ids T) → c ∈ pcs.
Proof.
  revert pcs. induction ps as [|[n0 t0] ps IH]; intros pcs Hok Hin.
  - by apply elem_of_nil in Hin.
  - simpl in Hok. destruct (idx !! n0) as [p0|] eqn:Hidx; [|discriminate].
    destruct (Z.leb_spec 1 t0); [|discriminate].
    destruct (Z.leb_spec t0 T); [|discriminate]. simpl in Hok.
    destruct (preset_constraints idx T ps) as [cs|]; [|discriminate].
    simpl in Hok. injection Hok as <-.
    apply elem_of_cons in Hin as [[= -> ->]|Hin].
    + exists p0. split; [done|]. split; [lia|].
      intros c Hc. apply elem_of_app. by left.
    + destruct (IH cs eq_refl Hin) as (p & Hp & Hr & Hsub).
      exists p. split; [done|]. split; [lia|].
      intros c Hc. apply elem_of_app. right. auto.
Qed.

Lemma pin_holds v p t tids tt :
  Forall (holds v) (pin p t tids) → tt ∈ tids →
  v (x_ p tt) = if decide (tt = t) then 1 else 0.
Proof.
  intros Hall Htt. rewrite Forall_forall in Hall.
  specialize (Hall (EqC (var_e (x_ p tt)) (const_e (if decide (tt = t) then 1 else 0)))).
  simpl in Hall. rewrite eval_var_e in Hall. apply Hall.
  apply list_elem_of_fmap. by exists tt.
Qed.

Example scenario_preset_outcome :
  outcome (build_and_solve (checked OPTIMAL swapped_35_35) scenario_preset)
  = Ok (scenario_preset_out, scenario_diag).
Proof. vm_compute. reflexivity. Qed.

(** C4.  On a roster with unique names, whenever a result is returned every
    preset entry names a roster player and a team in [1..num_teams], every
    output row of that name carries the configured team, and in every
    valuation that satisfies the model the indicators of that player are 1
    for the configured team and 0 for every other team. *)
Theorem C4_presets (solve : Solver) (inp : Inputs) out diag name team1 :
  solver_sound solve →
  NoDup (players (df inp)) →
  outcome (build_and_solve solve inp) = Ok (out, diag) →
  (name, team1) ∈ presets inp →
  name ∈ players (df inp) ∧ 1 <= team1 <= num_teams inp ∧
  (∃ o, o ∈ out ∧ Name (row o) = name) ∧
  (∀ o, o ∈ out → Name (row o) = name → Team o = team1) ∧
  (∀ b v, build_model inp = Ok b → satisfies v (b_model b) →
     ∃ p, name_to_idx (df inp) !! name = Some p ∧
          ∀ t, t ∈ team_ids (num_teams inp) →
               v (x_ p t) = if decide (Z.of_nat t + 1 = team1) then 1 else 0).
Proof.
  intros Hsound Hnd Hres Hin.
  destruct (solved_inv _ _ _ _ Hsound Hres)
    as (pcs & cp & st & v & Hb & Hpcs & _ & _ & _ & _ & Hsat & Hex).
  destruct (preset_constraints_inv _ _ _ _ _ _ Hpcs Hin) as (p & Hp & Hr & Hsub).
  pose proof (name_to_idx_Some _ _ _ Hp) as Hname.
  assert (HpP : (p < num_players inp)%nat) by (by eapply lookup_lt_Some).
  assert (Hpinned : ∀ pcs' cp' v', satisfies v' (b_model (assemble inp pcs' (target_of inp) cp')) →
            preset_constraints (name_to_idx (df inp)) (num_teams inp) (presets inp) = Ok pcs' →
            ∀ t, t ∈ team_ids (num_teams inp) →
              v' (x_ p t) = if decide (Z.of_nat t + 1 = team1) then 1 else 0).
  { intros pcs' cp' v' Hsat' Hpcs' t Ht.
    destruct (preset_constraints_inv _ _ _ _ _ _ Hpcs' Hin) as (p' & Hp' & _ & Hsub').
    assert (p' = p) as -> by congruence.
    pose proof (sol_presets _ _ _ _ _ Hsat') as Hall.
    rewrite (pin_holds v' p (Z.to_nat (team1 - 1)) (team_ids (num_teams inp)) t); [|
      apply Forall_forall; intros c Hc; rewrite Forall_forall in Hall; auto | done].
    destruct (decide (t = Z.to_nat (team1 - 1))), (decide (Z.of_nat t + 1 = team1)); lia || done. }
  assert (Hlab : label v (team_ids (num_teams inp)) p = team1).
  { assert (Hid : Z.to_nat (team1 - 1) ∈ team_ids (num_teams inp))
      by (apply elem_of_team_ids; lia).
    pose proof (label_iff _ _ _ _ _ Hsat p _ HpP Hid) as [_ Hl].
    rewrite Hl; [lia|].
    rewrite (Hpinned pcs cp v Hsat Hpcs _ Hid). destruct (decide _); [done|lia]. }
  apply extract_rows in Hex as ->.
  assert (Hdfp : df inp !! p = Some (df inp !!! p)).
  { apply list_lookup_lookup_total_lt. rewrite <- num_players_length. done. }
  assert (Hnm : ∀ q, (q < num_players inp)%nat → Name (df inp !!! q) = name → q = p).
  { intros q Hq Hqn. eapply NoDup_lookup; [exact Hnd| |exact Hname].
    unfold players. rewrite list_lookup_fmap.
    rewrite (list_lookup_lookup_total_lt (df inp) q)
      by (by rewrite <- num_players_length).
    simpl. by rewrite Hqn. }
  assert (Hpn : Name (df inp !!! p) = name).
  { unfold players in Hname. rewrite list_lookup_fmap, Hdfp in Hname.
    simpl in Hname. congruence. }
  split; [by eapply list_elem_of_lookup_2|]. split; [lia|]. split; [|split].
  - exists (Build_OutRow (df inp !!! p) (label v (team_ids (num_teams inp)) p)).
    split; [|exact Hpn].
    apply list_elem_of_fmap. exists p. split; [done|]. apply elem_of_seq. lia.
  - intros o (q & -> & Hq%elem_of_seq)%list_elem_of_fmap Hqn. simpl in *.
    rewrite (Hnm q) by (lia || done). done.
  - intros b v' Hb' Hsat'. exists p. split; [done|].
    pose proof Hb' as (pcs' & cp' & _ & Hpcs' & _ & _ & ->)%build_model_inv.
    by eapply Hpinned.
Qed.

Lemma C4_presets_witness :
  solver_sound (checked OPTIMAL swapped_35_35) ∧
  NoDup (players (df scenario_preset)) ∧
  outcome (build_and_solve (checked OPTIMAL swapped_35_35) scenario_preset)
    = Ok (scenario_preset_out, scenario_diag) ∧
  ("P1", 2) ∈ presets scenario_preset ∧
  ∀ o, o ∈ scenario_preset_out → Name (row o) = "P1" → Team o = 2.
Proof.
  assert (Hs : solver_sound (checked OPTIMAL swapped_35_35)) by apply checked_sound.
  assert (Hn : NoDup (players (df scenario_preset)))
    by (apply (bool_decide_unpack _); vm_compute; exact I).
  assert (Ho : outcome (build_and_solve (checked OPTIMAL swapped_35_35) scenario_preset)
               = Ok (scenario_preset_out, scenario_diag)) by (vm_compute; reflexivity).
  assert (Hi : ("P1", 2) ∈ presets scenario_preset) by (simpl; left).
  destruct (C4_presets _ _ _ _ "P1" 2 Hs Hn Ho Hi) as (_ & _ & _ & H & _).
  exact (conj Hs (conj Hn (conj Ho (conj Hi H)))).
Defined.

(** * C8: solver failure *)

Lemma scenario_clash_status :
  match build_model scenario_clash with
  | Ok b => (checked OPTIMAL split_35_35 (b_model b) (solver_params scenario_clash)).1
  | Raise _ => OPTIMAL
  end = INFEASIBLE.
Proof. vm_compute. reflexivity. Qed.

Lemma mjoin_imap_nil {A B} (f : nat → A → list B) (l : list A) :
  (∀ k x, f k x = []) → mjoin (imap f l) = [].
Proof.
  revert f. induction l as [|x l IH]; intros f Hf; [done|].
  rewrite imap_cons.
  change (mjoin (f 0%nat x :: imap (f ∘ S) l)) with (f 0%nat x ++ mjoin (imap (f ∘ S) l)).
  rewrite Hf, IH; [done|]. intros k y. apply Hf.
Qed.

Lemma conflict_terms_no_team aps : conflict_terms aps [] = [].
Proof. unfold conflict_terms. by apply mjoin_imap_nil. Qed.

Lemma captain_part_no_team policy hard ncap T R cp :
  captain_part policy hard ncap T R [] = Ok cp → captain_penalty_terms cp = [].
Proof.
  unfold captain_part. destruct (bool_decide (policy ∈ _)); [|discriminate].
  destruct (bool_decide (policy = "at_least_one")).
  { intros [= <-]. unfold at_least_one_part.
    by destruct (if hard && (ncap <? T) then false else hard). }
  destruct (bool_decide (policy = "separate")).
  { intros [= <-]. unfold separate_part.
    by destruct (if hard && (T <? ncap) then false else hard). }
  by intros [= <-].
Qed.

(** Without a team the objective is the float [balance_weight * 0], unless
    the balance weight is zero. *)
Lemma minimize_no_team bw cw kw :
  nonzero bw = true → minimize (objective bw cw kw [] [] []) = Raise TypeError.
Proof.
  intros H. unfold objective, balance_term, penalty_term, penalised. rewrite H.
  simpl. by rewrite !andb_false_r.
Qed.



Example timed_out_outcome :
  outcome (build_and_solve (gives_up UNKNOWN) scenario) = Raise no_assignment ∧
  length (solver_calls (build_and_solve (gives_up UNKNOWN) scenario)) = 1%nat.
Proof. split; vm_compute; reflexivity. Qed.

(** * C7: configuration errors *)

Lemma build_model_raise_no_call (solve : Solver) (inp : Inputs) e :
  build_model inp = Raise e →
  outcome (build_and_solve solve inp) = Raise e ∧
  solver_calls (build_and_solve solve inp) = [].
Proof. intros H. unfold build_and_solve. by rewrite H. Qed.

Lemma preset_constraints_bad idx T ps name team1 :
  (name, team1) ∈ ps →
  idx !! name = None ∨ ¬ (1 <= team1 <= T) →
  ∃ msg, preset_constraints idx T ps = Raise (ValueError msg).
Proof.
  induction ps as [|[n0 t0] ps IH]; intros Hin Hbad.
  - by apply elem_of_nil in Hin.
  - simpl. destruct (idx !! n0) as [p0|] eqn:Hidx; [|by eexists].
    destruct (Z.leb_spec 1 t0); [|by eexists].
    destruct (Z.leb_spec t0 T); [|by eexists]. simpl.
    apply elem_of_cons in Hin as [[= -> ->]|Hin].
    + destruct Hbad as [Hnone|Hrange]; [congruence|lia].
    + destruct (IH Hin Hbad) as [msg ->]. by eexists.
Qed.

Lemma captain_part_bad policy hard ncap T R tids :
  policy ∉ ["none"; "at_least_one"; "separate"] →
  captain_part policy hard ncap T R tids = Raise bad_policy.
Proof. intros H. unfold captain_part. by rewrite bool_decide_eq_false_2. Qed.

(** Whatever the order of the checks, a configuration error makes the
    builder raise. *)
Lemma config_error_raises (inp : Inputs) :
  config_error inp →
  ∃ e, build_model inp = Raise e ∧ ((∃ msg, e = ValueError msg) ∨ e = ZeroDivisionError).
Proof.
  intros Herr. unfold build_model, default_rng.
  destruct (random_seed inp <? 0); [eexists; split; [done|left; by eexists]|].
  simpl. destruct Herr as [Hpol|(name & team1 & Hin & Hbad)].
  - destruct (preset_constraints _ _ _) as [pcs|e] eqn:Hp; simpl.
    + unfold floordiv. destruct (num_teams inp =? 0); simpl;
        [eexists; split; [done|by right]|].
      rewrite captain_part_bad by done. simpl.
      eexists; split; [done|left; by eexists].
    + exists e. split; [done|]. left.
      clear -Hp. revert Hp. generalize (presets inp) as ps.
      induction ps as [|[n0 t0] ps IH]; simpl; [discriminate|].
      destruct (name_to_idx (df inp) !! n0); [|intros [= <-]; by eexists].
      destruct (negb _); [intros [= <-]; by eexists|].
      destruct (preset_constraints _ _ ps); simpl; [discriminate|].
      intros [= <-]. by apply IH.
  - destruct (preset_constraints_bad (name_to_idx (df inp)) (num_teams inp)
                (presets inp) name team1 Hin) as [msg ->].
    + destruct Hbad as [Hb|Hb]; [left; by apply name_to_idx_None|by right].
    + simpl. eexists; split; [done|left; by eexists].
Qed.

Example scenario_odd_weights_outcome :
  outcome (build_and_solve (checked OPTIMAL split_35_35) scenario_odd_weights)
  = Ok (scenario_out, scenario_diag).
Proof. vm_compute. reflexivity. Qed.

(** C7 as stated fails: a role-weight map whose keys are not the declared
    roles is accepted, the engine is called and a result is returned. *)
Lemma C7_counterexample :
  ¬ weights_consistent scenario_odd_weights ∧
  outcome (build_and_solve (checked OPTIMAL split_35_35) scenario_odd_weights)
    = Ok (scenario_out, scenario_diag) ∧
  length (solver_calls (build_and_solve (checked OPTIMAL split_35_35)
                          scenario_odd_weights)) = 1%nat.
Proof.
  split; [|split].
  - intros H. specialize (H 3). destruct H as [H _].
    assert (Hin : 3 ∈ roles scenario_odd_weights) by (apply H; vm_compute; by eexists).
    simpl in Hin. apply elem_of_cons in Hin as [?|Hin]; [done|].
    apply elem_of_cons in Hin as [?|Hin]; [done|]. by apply elem_of_nil in Hin.
  - vm_compute. reflexivity.
  - vm_compute. reflexivity.
Qed.

(** C7, amended.  An unknown captain-policy name, a preset for a player
    that is not in the roster and a preset team outside [1..num_teams] make
    [build_and_solve] raise without any call to the engine, hence without
    table or diagnostics.  The role-weight map is not checked against the
    declared roles: the weight of a row is the entry of its role, and 1 when
    the map has none. *)
Theorem C7_config_errors (solve : Solver) (inp : Inputs) :
  (config_error inp →
     ∃ e, outcome (build_and_solve solve inp) = Raise e ∧
          ((∃ msg, e = ValueError msg) ∨ e = ZeroDivisionError) ∧
          solver_calls (build_and_solve solve inp) = []) ∧
  (∀ p r, df inp !! p = Some r →
     weight_by_role (role_weights inp) (df inp) !! p
     = Some (default 1%Q (role_weights inp !! Position r))).
Proof.
  split.
  - intros (e & He & Hkind)%config_error_raises.
    destruct (build_model_raise_no_call solve inp e He) as [Ho Hc].
    exists e. done.
  - intros p r Hp. unfold weight_by_role, pos.
    rewrite !list_lookup_fmap, Hp. done.
Qed.

Lemma C7_config_errors_witness :
  config_error scenario_bad_policy ∧
  ∃ e, outcome (build_and_solve (checked OPTIMAL split_35_35) scenario_bad_policy)
         = Raise e ∧
       ((∃ msg, e = ValueError msg) ∨ e = ZeroDivisionError) ∧
       solver_calls (build_and_solve (checked OPTIMAL split_35_35) scenario_bad_policy)
         = [].
Proof.
  assert (Hc : config_error scenario_bad_policy).
  { left. simpl. intros Hin.
    repeat (apply elem_of_cons in Hin as [Hin|Hin]; [discriminate Hin|]).
    by apply elem_of_nil in Hin. }
  exact (conj Hc
    (proj1 (C7_config_errors (checked OPTIMAL split_35_35) scenario_bad_policy) Hc)).
Defined.

(** * C9: what the caller can set at the solve call *)

Lemma solver_calls_params (solve : Solver) (inp : Inputs) c :
  c ∈ solver_calls (build_and_solve solve inp) → c.2 = solver_params inp.
Proof.
  unfold build_and_solve. destruct (build_model inp) as [b|e]; simpl.
  - intros ->%list_elem_of_singleton. done.
  - intros H. by apply elem_of_nil in H.
Qed.

(** C9 as stated fails: no input and no engine make [build_and_solve] call
    the engine with one worker. *)
Lemma C9_counterexample :
  ¬ ∃ (inp : Inputs) (solve : Solver) c,
      c ∈ solver_calls (build_and_solve solve inp) ∧ num_search_workers c.2 = 1.
Proof.
  intros (inp & solve & c & Hc & Hw).
  rewrite (solver_calls_params _ _ _ Hc) in Hw. discriminate.
Qed.

(** C9, amended.  Of the parameters of the solve call the caller supplies
    the random seed only: every call is made with a time budget of 30
    seconds, 8 workers and the seed of the input; the scale factor is the
    constant 100, applied to every weighted skill, and the engine is called at
    most once. *)
Theorem C9_fixed_parameters (solve : Solver) (inp : Inputs) :
  (∀ c, c ∈ solver_calls (build_and_solve solve inp) →
     max_time_in_seconds c.2 = 30%Q ∧
     num_search_workers c.2 = 8 ∧
     solver_random_seed c.2 = random_seed inp) ∧
  (length (solver_calls (build_and_solve solve inp)) <= 1)%nat ∧
  SCALE = 100 ∧
  scaled_ws (role_weights inp) (df inp)
  = (λ w, astype_int (np_round_float (fmul w (Finite 100))))
      <$> weighted_skill (role_weights inp) (df inp).
Proof.
  split; [|split; [|split]].
  - intros c ->%solver_calls_params. done.
  - unfold build_and_solve. destruct (build_model inp); simpl; lia.
  - reflexivity.
  - reflexivity.
Qed.

(** * C10: an avoid target that is not in the roster *)

Lemma forget_unknown_columns d :
  players (forget_unknown_avoid d) = players d ∧
  skill (forget_unknown_avoid d) = skill d ∧
  pos (forget_unknown_avoid d) = pos d ∧
  is_capt (forget_unknown_avoid d) = is_capt d.
Proof.
  unfold players, skill, pos, is_capt, forget_unknown_avoid.
  rewrite <- !list_fmap_compose. done.
Qed.

Lemma name_to_idx_forget d : name_to_idx (forget_unknown_avoid d) = name_to_idx d.
Proof.
  unfold name_to_idx. by rewrite (proj1 (forget_unknown_columns d)).
Qed.

Lemma avoid_pair_of_row_unknown d r b :
  Avoid r = Some b → b ∉ players d → avoid_pair_of_row (name_to_idx d) r = [].
Proof.
  intros Hb Hnot. unfold avoid_pair_of_row. rewrite Hb.
  apply name_to_idx_None in Hnot as ->. done.
Qed.

Lemma avoid_pair_of_row_forget d r :
  avoid_pair_of_row (name_to_idx d) (forget_unknown (players d) r)
  = avoid_pair_of_row (name_to_idx d) r.
Proof.
  unfold avoid_pair_of_row, forget_unknown. simpl.
  destruct (Avoid r) as [b|]; [|done].
  destruct (bool_decide_reflect (b ∈ players d)) as [Hin|Hnot]; [done|].
  apply name_to_idx_None in Hnot as ->. done.
Qed.

Lemma avoid_pairs_forget d : avoid_pairs (forget_unknown_avoid d) = avoid_pairs d.
Proof.
  unfold avoid_pairs. rewrite name_to_idx_forget.
  unfold forget_unknown_avoid at 1. rewrite <- list_fmap_compose. f_equal.
  apply list_fmap_ext. intros _ r _. simpl. apply avoid_pair_of_row_forget.
Qed.

Lemma build_model_forget (inp : Inputs) :
  build_model (set_df inp (forget_unknown_avoid (df inp))) = build_model inp.
Proof.
  destruct (forget_unknown_columns (df inp)) as (Hpl & Hsk & Hpos & Hcap).
  unfold build_model, assemble, num_players, count_captains, num_roles,
    scaled_ws, weighted_skill, weight_by_role. simpl.
  rewrite name_to_idx_forget, avoid_pairs_forget, Hpl, Hsk, Hpos, Hcap. done.
Qed.

(** C10.  A row whose avoid target names no roster player contributes no
    directed pair; blanking every such target changes neither the model nor
    the warnings nor an error of the builder, so the engine receives the same
    call, and the run ends in the same exception or in the same team labels
    and diagnostics. *)
Theorem C10_unknown_avoid_ignored (solve : Solver) (inp : Inputs) :
  let inp' := set_df inp (forget_unknown_avoid (df inp)) in
  (∀ r b, Avoid r = Some b → b ∉ players (df inp) →
          avoid_pair_of_row (name_to_idx (df inp)) r = []) ∧
  avoid_pairs (df inp') = avoid_pairs (df inp) ∧
  build_model inp' = build_model inp ∧
  solver_calls (build_and_solve solve inp') = solver_calls (build_and_solve solve inp) ∧
  (∀ e, outcome (build_and_solve solve inp) = Raise e →
        outcome (build_and_solve solve inp') = Raise e) ∧
  (∀ out diag, outcome (build_and_solve solve inp) = Ok (out, diag) →
     ∃ out', outcome (build_and_solve solve inp') = Ok (out', diag) ∧
             Team <$> out' = Team <$> out ∧
             row <$> out' = forget_unknown_avoid (df inp)).
Proof.
  intros inp'. split; [|split; [|split]].
  - intros r b. apply avoid_pair_of_row_unknown.
  - apply avoid_pairs_forget.
  - apply build_model_forget.
  - pose proof (build_model_forget inp) as Hb. fold inp' in Hb.
    assert (Hprm : solver_params inp' = solver_params inp) by done.
    unfold build_and_solve. rewrite Hb, Hprm.
    destruct (build_model inp) as [b|e]; simpl.
    + split; [done|]. destruct (usable _); simpl.
      * set (sv := solve (b_model b) (solver_params inp)).
        unfold extract. simpl.
        assert (Hn : num_players inp' = num_players inp).
        { unfold num_players. simpl.
          by rewrite (proj1 (forget_unknown_columns (df inp))). }
        rewrite Hn.
        destruct (team_column sv.2 (team_ids (num_teams inp))
                    (seq 0 (num_players inp))) as [teams|e] eqn:Hcol; simpl.
        -- split; [discriminate|]. intros out diag [= <- <-].
           eexists. split; [reflexivity|].
           apply team_column_inv, Forall2_length in Hcol.
           rewrite length_seq, num_players_length in Hcol.
           assert (Hlen' : length (forget_unknown_avoid (df inp)) = length teams).
           { unfold forget_unknown_avoid. by rewrite length_fmap. }
           split.
           ++ rewrite !fmap_zip_with_r by (done || lia). done.
           ++ rewrite fmap_zip_with_l by (done || lia). done.
        -- split; [intros ? [= <-]; done|discriminate].
      * split; [intros ? [= <-]; done|discriminate].
    + split; [done|]. split; [intros ? [= <-]; done|discriminate].
Qed.

(** * Rounding to the nearest double *)

Lemma np_round_nearest (q : Q) : (Qabs (inject_Z (np_round q) - q) <= 1 # 2)%Q.
Proof.
  unfold np_round.
  pose proof (Qfloor_le q) as Hlo. pose proof (Qlt_floor q) as Hhi.
  rewrite inject_Z_plus in Hhi. change (inject_Z 1) with 1%Q in Hhi.
  set (f := Qfloor q) in *.
  assert (H1 : inject_Z (f + 1) = (inject_Z f + 1)%Q) by apply inject_Z_plus.
  apply Qabs_Qle_condition.
  destruct (Qcompare_spec (q - inject_Z f) (1 # 2)) as [He|Hl|Hg].
  - destruct (Z.even f); [|rewrite H1]; split; lra.
  - split; lra.
  - rewrite H1. split; lra.
Qed.

Lemma pow2_pos k : (0 < pow2 k)%Q.
Proof. apply Qpower_0_lt. reflexivity. Qed.

Lemma pow2_plus a b : (pow2 (a + b) == pow2 a * pow2 b)%Q.
Proof. apply Qpower_plus. discriminate. Qed.

Lemma pow2_Z k : 0 <= k → (pow2 k == inject_Z (2 ^ k))%Q.
Proof. intros Hk. unfold pow2. rewrite Zpower_Qpower by done. reflexivity. Qed.

Lemma pow2_ge_1 k : 0 <= k → (1 <= pow2 k)%Q.
Proof.
  intros Hk. rewrite pow2_Z by done. change 1%Q with (inject_Z 1).
  rewrite <- Zle_Qle. pose proof (Z.pow_pos_nonneg 2 k). lia.
Qed.

Lemma pow2_le a b : a <= b → (pow2 a <= pow2 b)%Q.
Proof.
  intros H. replace b with (a + (b - a)) by lia. rewrite pow2_plus.
  pose proof (pow2_pos a). pose proof (pow2_ge_1 (b - a) ltac:(lia)). nra.
Qed.

Lemma pow2_lt a b : a < b → (pow2 a < pow2 b)%Q.
Proof.
  intros H. replace b with (a + 1 + (b - a - 1)) by lia. rewrite !pow2_plus.
  pose proof (pow2_pos a). pose proof (pow2_ge_1 (b - a - 1) ltac:(lia)).
  change (pow2 1) with 2%Q. nra.
Qed.

Lemma pow2_lt_inv a b : (pow2 a < pow2 b)%Q → a < b.
Proof.
  intros H. destruct (Z_lt_le_dec a b) as [|Hle]; [done|].
  apply pow2_le in Hle. lra.
Qed.

Lemma pow2_frac x y :
  0 <= x → 0 <= y → (pow2 (x - y) == inject_Z (2 ^ x) / inject_Z (2 ^ y))%Q.
Proof.
  intros Hx Hy. unfold Z.sub. rewrite pow2_plus. unfold pow2 at 2.
  rewrite Qpower_opp. fold (pow2 y). rewrite !pow2_Z by done. reflexivity.
Qed.

Lemma inject_Z_pos z : 0 < z → (0 < inject_Z z)%Q.
Proof. intros H. change 0%Q with (inject_Z 0). by rewrite <- Zlt_Qlt. Qed.

Lemma frac_le (A B C D : Z) :
  0 < B → 0 < D → A * D <= C * B →
  (inject_Z A / inject_Z B <= inject_Z C / inject_Z D)%Q.
Proof.
  intros HB HD H. pose proof (inject_Z_pos B HB). pose proof (inject_Z_pos D HD).
  assert (inject_Z A * inject_Z D <= inject_Z C * inject_Z B)%Q
    by (rewrite <- !inject_Z_mult, <- Zle_Qle; done).
  apply Qle_shift_div_r; [done|].
  assert (E : (inject_Z C / inject_Z D * inject_Z B ==
               inject_Z C * inject_Z B / inject_Z D)%Q) by (field; lra).
  rewrite E.
  by apply Qle_shift_div_l.
Qed.

Lemma frac_lt (A B C D : Z) :
  0 < B → 0 < D → A * D < C * B →
  (inject_Z A / inject_Z B < inject_Z C / inject_Z D)%Q.
Proof.
  intros HB HD H. pose proof (inject_Z_pos B HB). pose proof (inject_Z_pos D HD).
  assert (inject_Z A * inject_Z D < inject_Z C * inject_Z B)%Q
    by (rewrite <- !inject_Z_mult, <- Zlt_Qlt; done).
  apply Qlt_shift_div_r; [done|].
  assert (E : (inject_Z C / inject_Z D * inject_Z B ==
               inject_Z C * inject_Z B / inject_Z D)%Q) by (field; lra).
  rewrite E.
  by apply Qlt_shift_div_l.
Qed.

Lemma Q_as_frac (a : Q) : (a == inject_Z (Qnum a) / inject_Z (Z.pos (Qden a)))%Q.
Proof. destruct a as [n d]. simpl. rewrite Qmake_Qdiv. reflexivity. Qed.

Lemma ilog2_spec (a : Q) :
  (0 < a)%Q → (pow2 (ilog2 a) <= a)%Q ∧ (a < pow2 (ilog2 a + 1))%Q.
Proof.
  intros Ha. unfold ilog2.
  set (n := Qnum a). set (d := Z.pos (Qden a)).
  assert (Hn : 0 < n). { destruct a as [n' d']. unfold Qlt in Ha. simpl in *. lia. }
  assert (Hd : 0 < d) by (unfold d; lia).
  pose proof (Z.log2_spec n Hn) as [Hn1 Hn2].
  pose proof (Z.log2_spec d Hd) as [Hd1 Hd2].
  pose proof (Z.log2_nonneg n) as Hln. pose proof (Z.log2_nonneg d) as Hld.
  set (ln := Z.log2 n) in *. set (ld := Z.log2 d) in *.
  assert (P1 : 0 < 2 ^ ld) by (apply Z.pow_pos_nonneg; lia).
  assert (P2 : 0 < 2 ^ ln) by (apply Z.pow_pos_nonneg; lia).
  assert (P3 : 0 < 2 ^ Z.succ ld) by (apply Z.pow_pos_nonneg; lia).
  assert (P4 : 0 < 2 ^ Z.succ ln) by (apply Z.pow_pos_nonneg; lia).
  destruct (Qle_bool (pow2 (ln - ld)) a) eqn:E.
  - apply Qle_bool_iff in E. split; [done|].
    replace (ln - ld + 1) with (Z.succ ln - ld) by lia.
    rewrite pow2_frac by lia.
    eapply Qle_lt_trans; [apply Qle_lteq; right; apply (Q_as_frac a)|]. fold n d.
    apply frac_lt; [done..|]. nia.
  - assert (a < pow2 (ln - ld))%Q as Hlt.
    { apply Qnot_le_lt. intros H. apply Qle_bool_iff in H. congruence. }
    split; [|by replace (ln - ld - 1 + 1) with (ln - ld) by lia].
    replace (ln - ld - 1) with (ln - Z.succ ld) by lia.
    rewrite pow2_frac by lia.
    eapply Qle_trans; [|apply Qle_lteq; right; symmetry; apply (Q_as_frac a)]. fold n d.
    apply frac_le; [done..|]. nia.
Qed.

Lemma ilog2_ge (a : Q) k : (pow2 k <= a)%Q → k <= ilog2 a.
Proof.
  intros H. assert (0 < a)%Q by (pose proof (pow2_pos k); lra).
  destruct (ilog2_spec a) as [_ Hup]; [done|].
  assert (pow2 k < pow2 (ilog2 a + 1))%Q by lra.
  apply pow2_lt_inv in H1. lia.
Qed.

Lemma ilog2_lt (a : Q) k : (0 < a)%Q → (a < pow2 k)%Q → ilog2 a < k.
Proof.
  intros Ha H. destruct (ilog2_spec a) as [Hlo _]; [done|].
  apply pow2_lt_inv. lra.
Qed.

Lemma inject_Z_succ_le (n N : Z) : n < N → (inject_Z n + 1 <= inject_Z N)%Q.
Proof.
  intros H. change 1%Q with (inject_Z 1). rewrite <- inject_Z_plus, <- Zle_Qle. lia.
Qed.

(** [np_round q] is an integer nearest to [q]. *)
Lemma np_round_closest (x : Q) (n : Z) :
  (Qabs (inject_Z (np_round x) - x) <= Qabs (inject_Z n - x))%Q.
Proof.
  pose proof (np_round_nearest x) as Hn.
  set (N := np_round x) in *.
  destruct (Z.lt_trichotomy n N) as [Hlt|[->|Hgt]].
  - apply inject_Z_succ_le in Hlt. qabs; lra.
  - apply Qle_refl.
  - apply inject_Z_succ_le in Hgt. qabs; lra.
Qed.

Lemma Qabs_scale (a u : Q) : (0 < u)%Q → (Qabs (a * u) == Qabs a * u)%Q.
Proof. intros Hu. rewrite Qabs_Qmult, (Qabs_pos u) by lra. reflexivity. Qed.

Lemma quantum_pos q : (0 < quantum q)%Q.
Proof. apply pow2_pos. Qed.

Lemma round53_nonzero q :
  ¬ (q == 0)%Q → round53 q = (inject_Z (np_round (q / quantum q)) * quantum q)%Q.
Proof.
  intros H. unfold round53. destruct (Qeq_bool q 0) eqn:E; [|done].
  apply Qeq_bool_iff in E. contradiction.
Qed.

Lemma round53_zero q : (q == 0)%Q → round53 q = 0%Q.
Proof.
  intros H. unfold round53. apply Qeq_bool_iff in H. by rewrite H.
Qed.

(** No multiple of the quantum is nearer to [q] than [round53 q]. *)
Lemma round53_multiple (q : Q) (n : Z) :
  (Qabs (round53 q - q) <= Qabs (inject_Z n * quantum q - q))%Q.
Proof.
  destruct (Qeq_dec q 0) as [E|E].
  - rewrite (round53_zero q E).
    assert (H0 : (Qabs (0 - q) <= 0)%Q) by (qabs; lra).
    eapply Qle_trans; [exact H0 | apply Qabs_nonneg].
  - rewrite (round53_nonzero q E).
    pose proof (quantum_pos q) as Hu. set (u := quantum q) in *.
    assert (E1 : ∀ k : Z, (inject_Z k * u - q == (inject_Z k - q / u) * u)%Q)
      by (intros k; field; lra).
    rewrite !E1, !Qabs_scale by done.
    apply Qmult_le_compat_r; [|lra]. apply np_round_closest.
Qed.

Lemma Qabs_inject_Z_le (m b : Z) : Z.abs m <= b → (Qabs (inject_Z m) <= inject_Z b)%Q.
Proof.
  intros H. apply Qabs_Qle_condition. rewrite <- inject_Z_opp, <- !Zle_Qle. lia.
Qed.

Lemma Qabs_nonzero_pos q : ¬ (q == 0)%Q → (0 < Qabs q)%Q.
Proof.
  intros H. destruct (Qlt_le_dec 0 (Qabs q)) as [|Hle]; [done|].
  exfalso. apply H. revert Hle. apply Qabs_case; intros; lra.
Qed.

Lemma round53_nearest (q z : Q) :
  representable z → (Qabs (round53 q - q) <= Qabs (z - q))%Q.
Proof.
  intros (m & j & Hj & Hm & Hz).
  destruct (Qeq_dec q 0) as [E|E].
  { rewrite (round53_zero q E). qabs; lra. }
  set (e := ilog2 (Qabs q)). set (qe := Z.max (e - 52) (-1074)).
  assert (Hu : quantum q = pow2 qe) by reflexivity.
  destruct (Z_le_gt_dec qe j) as [Hle|Hgt].
  - assert (Hz' : (z == inject_Z (m * 2 ^ (j - qe)) * quantum q)%Q).
    { rewrite Hz, Hu, inject_Z_mult. replace j with ((j - qe) + qe) at 1 by lia.
      rewrite pow2_plus, (pow2_Z (j - qe)) by lia. ring. }
    eapply Qle_trans; [apply (round53_multiple q (m * 2 ^ (j - qe)))|].
    rewrite <- Hz'. apply Qle_refl.
  - assert (Hqe : qe = e - 52) by lia.
    destruct (ilog2_spec (Qabs q)) as [Hlo _]; [by apply Qabs_nonzero_pos|].
    fold e in Hlo.
    assert (Hzabs : (Qabs z <= pow2 e)%Q).
    { rewrite Hz, Qabs_scale by apply pow2_pos.
      apply Qle_trans with (inject_Z (2 ^ 53) * pow2 j)%Q.
      - apply Qmult_le_compat_r; [by apply Qabs_inject_Z_le|].
        apply Qlt_le_weak, pow2_pos.
      - rewrite <- (pow2_Z 53), <- pow2_plus by lia. apply pow2_le. lia. }
    assert (Hp : (pow2 e == inject_Z (2 ^ 52) * quantum q)%Q).
    { rewrite Hu. replace e with (52 + qe) at 1 by lia.
      rewrite pow2_plus, (pow2_Z 52) by lia. reflexivity. }
    clearbody qe e.
    destruct (Qlt_le_dec q 0) as [Hneg|Hpos].
    + eapply Qle_trans; [apply (round53_multiple q (- 2 ^ 52))|].
      assert (Hn : (inject_Z (- 2 ^ 52) * quantum q == - pow2 e)%Q)
        by (rewrite inject_Z_opp, Hp; ring).
      rewrite Hn. qabs; lra.
    + eapply Qle_trans; [apply (round53_multiple q (2 ^ 52))|].
      rewrite <- Hp. qabs; lra.
Qed.

Lemma round53_representable (q : Q) : representable (round53 q).
Proof.
  destruct (Qeq_dec q 0) as [E|E].
  { rewrite (round53_zero q E). exists 0, 0. split; [lia|]. split; [lia|].
    reflexivity. }
  rewrite (round53_nonzero q E).
  set (e := ilog2 (Qabs q)). set (qe := Z.max (e - 52) (-1074)).
  assert (Hu : quantum q = pow2 qe) by reflexivity.
  exists (np_round (q / quantum q)), qe. split; [lia|]. split; [|by rewrite Hu].
  destruct (ilog2_spec (Qabs q)) as [_ Hhi]; [by apply Qabs_nonzero_pos|].
  fold e in Hhi.
  pose proof (quantum_pos q) as Hupos.
  assert (Hx : (Qabs (q / quantum q) < inject_Z (2 ^ 53))%Q).
  { unfold Qdiv. rewrite Qabs_scale by (by apply Qinv_lt_0_compat).
    apply Qlt_shift_div_r; [done|].
    apply Qlt_le_trans with (pow2 (e + 1)); [done|].
    rewrite Hu, <- (pow2_Z 53), <- pow2_plus by lia. apply pow2_le. lia. }
  pose proof (np_round_nearest (q / quantum q)) as Hn.
  set (N := np_round (q / quantum q)) in *. clearbody N qe e.
  destruct (Z_le_gt_dec (Z.abs N) (2 ^ 53)) as [|Hgt]; [done|exfalso].
  destruct (Z_le_gt_dec 0 N) as [H0|H0].
  - assert (H1 : (inject_Z (2 ^ 53) + 1 <= inject_Z N)%Q)
      by (apply inject_Z_succ_le; lia).
    qabs; lra.
  - assert (H1 : (inject_Z N + 1 <= inject_Z (- 2 ^ 53))%Q)
      by (apply inject_Z_succ_le; lia).
    rewrite inject_Z_opp in H1. qabs; lra.
Qed.

Lemma round53_nearest_double (q : Q) : nearest_double (round53 q) q.
Proof. split; [apply round53_representable|]. intros z. apply round53_nearest. Qed.

(** A double is read as itself. *)
Lemma round53_fixed (z : Q) : representable z → (round53 z == z)%Q.
Proof.
  intros H. pose proof (round53_nearest z z H) as Hn.
  assert (Hz : (Qabs (z - z) <= 0)%Q) by (qabs; lra).
  revert Hn Hz. qabs; lra.
Qed.

Lemma representable_Z (k : Z) : Z.abs k <= 2 ^ 53 → representable (inject_Z k).
Proof.
  intros H. exists k, 0. split; [lia|]. split; [done|].
  change (pow2 0) with 1%Q. ring.
Qed.

(** Rounding does not cross an integer of at most 53 bits. *)
Lemma round53_ge (q : Q) (k : Z) :
  Z.abs k <= 2 ^ 53 → (inject_Z k <= q)%Q → (inject_Z k <= round53 q)%Q.
Proof.
  intros Hk Hle. pose proof (round53_nearest q _ (representable_Z k Hk)) as Hn.
  revert Hn. qabs; lra.
Qed.

Lemma round53_le (q : Q) (k : Z) :
  Z.abs k <= 2 ^ 53 → (q <= inject_Z k)%Q → (round53 q <= inject_Z k)%Q.
Proof.
  intros Hk Hle. pose proof (round53_nearest q _ (representable_Z k Hk)) as Hn.
  revert Hn. qabs; lra.
Qed.

(** ** What the float operations give within the range of 53-bit integers *)

Lemma representable_opp (z : Q) : representable z → representable (- z).
Proof.
  intros (m & j & Hj & Hm & Hz). exists (- m), j. split; [done|]. split; [lia|].
  rewrite inject_Z_opp, Hz. ring.
Qed.

(** Rounding does not cross a double. *)
Lemma round53_ge_rep (q z : Q) : representable z → (z <= q)%Q → (z <= round53 q)%Q.
Proof.
  intros Hz Hle. pose proof (round53_nearest q z Hz) as Hn. revert Hn. qabs; lra.
Qed.

Lemma round53_le_rep (q z : Q) : representable z → (q <= z)%Q → (round53 q <= z)%Q.
Proof.
  intros Hz Hle. pose proof (round53_nearest q z Hz) as Hn. revert Hn. qabs; lra.
Qed.

Lemma round53_abs_le (q : Q) (A : Z) :
  A <= 2 ^ 53 → (Qabs q <= inject_Z A)%Q → (Qabs (round53 q) <= inject_Z A)%Q.
Proof.
  intros HA Hq.
  assert (H0 : 0 <= A).
  { rewrite Zle_Qle. eapply Qle_trans; [apply Qabs_nonneg|exact Hq]. }
  apply Qabs_Qle_condition in Hq as [Hlo Hhi]. apply Qabs_Qle_condition. split.
  - rewrite <- inject_Z_opp in *. apply round53_ge; [lia|done].
  - apply round53_le; [lia|done].
Qed.

Lemma pow2_1024_big (A : Z) : A <= 2 ^ 53 → (inject_Z A < pow2 1024)%Q.
Proof.
  intros HA. rewrite (pow2_Z 1024) by lia. rewrite <- Zlt_Qlt.
  assert (2 ^ 53 < 2 ^ 1024) by (apply Z.pow_lt_mono_r; lia). lia.
Qed.

(** A number of at most [A <= 2^53] in absolute value is read as the double
    nearest to it, which is no larger than [A] either. *)
Lemma to_float_bounded (q : Q) (A : Z) :
  A <= 2 ^ 53 → (Qabs q <= inject_Z A)%Q →
  to_float q = Finite (round53 q) ∧ (Qabs (round53 q) <= inject_Z A)%Q.
Proof.
  intros HA Hq. pose proof (round53_abs_le q A HA Hq) as Hr. split; [|done].
  unfold to_float. destruct (Qle_bool _ _) eqn:E; [|done].
  apply Qle_bool_iff in E. pose proof (pow2_1024_big A HA). lra.
Qed.

Lemma Qabs_mult_le (a b : Q) (A B : Z) :
  (Qabs a <= inject_Z A)%Q → (Qabs b <= inject_Z B)%Q →
  (Qabs (a * b) <= inject_Z (A * B))%Q.
Proof.
  intros Ha Hb. rewrite Qabs_Qmult, inject_Z_mult.
  pose proof (Qabs_nonneg a). pose proof (Qabs_nonneg b).
  set (x := Qabs a) in *. set (y := Qabs b) in *. clearbody x y. nra.
Qed.





(** * C6: scaling, rounding and the balancing target *)


Lemma scaled_ws_rows rw d : scaled_ws rw d = scaled_of rw <$> d.
Proof.
  unfold scaled_ws, weighted_skill, weight_by_role, skill, pos.
  induction d as [|r d IH]; [done|].
  rewrite !fmap_cons. simpl. f_equal. exact IH.
Qed.


Lemma per_team_lookup {A} (f : nat → A) (n : Z) (t : nat) :
  t ∈ team_ids n → per_team f (team_ids n) !! (Z.of_nat t + 1) = Some (f t).
Proof.
  intros Ht. unfold per_team. apply elem_of_list_to_map_1.
  - rewrite <- list_fmap_compose.
    apply NoDup_fmap_2; [|apply NoDup_seq].
    intros a b. simpl. lia.
  - apply list_elem_of_fmap. by exists t.
Qed.

Section Scores.
Variables (inp : Inputs) (pcs : list Constraint) (target : Z) (cp : CaptainPart).
Variable v : Valuation.
Hypothesis Hsat : satisfies v (b_model (assemble inp pcs target cp)).

Let P := num_players inp.
Let tids := team_ids (num_teams inp).
Let out := (λ p, Build_OutRow (df inp !!! p) (label v tids p)) <$> seq 0 P.

(** A sum weighted by the indicators of team [t] is the sum over the rows
    labelled [t + 1]. *)
Lemma indicator_sum (w : Player → Z) (col : list Z) t :
  t ∈ tids → col = w <$> df inp →
  Zsum ((λ p, col !!! p * v (x_ p t)) <$> seq 0 P)
  = Zsum ((λ o, if bool_decide (Team o = Z.of_nat t + 1) then w (row o) else 0) <$> out).
Proof.
  intros Ht ->. unfold out. rewrite <- list_fmap_compose.
  apply Zsum_ext. intros p Hp%elem_of_seq. simpl.
  assert (Hlt : (p < P)%nat) by lia.
  rewrite (list_lookup_total_fmap w) by (by rewrite <- num_players_length).
  pose proof (label_iff _ _ _ _ _ Hsat p t Hlt Ht) as Hiff.
  destruct (sol_bits _ _ _ _ _ Hsat p t Hlt Ht) as [E|E].
  - rewrite bool_decide_eq_false_2; [rewrite E; lia|].
    intros Hl. apply Hiff in Hl. fold tids in Hl. lia.
  - rewrite bool_decide_eq_true_2; [rewrite E; lia|]. by apply Hiff.
Qed.

Lemma score_team_total t :
  t ∈ tids → v (s_ t) = team_total (role_weights inp) out (Z.of_nat t + 1).
Proof.
  intros Ht. rewrite (sol_score _ _ _ _ _ Hsat t Ht).
  apply indicator_sum; [done|]. apply scaled_ws_rows.
Qed.

Lemma captain_count_on_team t :
  t ∈ tids → v (c_t_ t) = captains_on_team out (Z.of_nat t + 1).
Proof.
  intros Ht. rewrite (sol_captain_count _ _ _ _ _ Hsat t Ht).
  by apply indicator_sum.
Qed.

End Scores.

(** Float rounding decides the value a player enters the model with: the
    product [1.015 * 100] is the double just below 101.5 and rounds to 101
    (the exact product 101.5 would round to 102); the product [2.675 * 100]
    is the double 267.5 and rounds to the even 268. *)
Example scaled_of_floats :
  scaled_of ∅ (player "A" (1015 # 1000) 1 0 None) = 101 ∧
  scaled_of ∅ (player "A" (2675 # 1000) 1 0 None) = 268 ∧
  scaled_of ∅ (player "A" 25 1 0 None) = 2500 ∧
  scaled_of (<[1 := 3 # 2]> ∅) (player "A" 25 1 0 None) = 3750.
Proof. vm_compute. done. Qed.




(** * C5: conflicts *)

Lemma elem_of_avoid_pairs d pa pb :
  (pa, pb) ∈ avoid_pairs d ↔
  ∃ r b, r ∈ d ∧ Avoid r = Some b ∧
         name_to_idx d !! Name r = Some pa ∧ name_to_idx d !! b = Some pb.
Proof.
  unfold avoid_pairs. rewrite list_elem_of_join. split.
  - intros (l & Hin & (r & -> & Hr)%list_elem_of_fmap).
    unfold avoid_pair_of_row in Hin.
    destruct (Avoid r) as [b|] eqn:Hb; [|by apply elem_of_nil in Hin].
    destruct (name_to_idx d !! b) as [ib|] eqn:Hib; [|by apply elem_of_nil in Hin].
    destruct (name_to_idx d !! Name r) as [ia|] eqn:Hia; [|by apply elem_of_nil in Hin].
    apply list_elem_of_singleton in Hin as [= -> ->]. by exists r, b.
  - intros (r & b & Hr & Hb & Hia & Hib).
    exists [(pa, pb)]. split; [by apply list_elem_of_singleton|].
    apply list_elem_of_fmap. exists r. split; [|done].
    unfold avoid_pair_of_row. by rewrite Hb, Hib, Hia.
Qed.

Lemma avoid_pairs_bound d pa pb :
  (pa, pb) ∈ avoid_pairs d →
  (pa < length (players d))%nat ∧ (pb < length (players d))%nat.
Proof.
  intros (r & b & _ & _ & Ha%name_to_idx_Some & Hb%name_to_idx_Some)%elem_of_avoid_pairs.
  split; by eapply lookup_lt_Some.
Qed.

(** A one-hot family selects one term of a sum. *)
Lemma Zsum_one_hot_mul {A} (f g : A → Z) (l : list A) (a : A) :
  NoDup l → a ∈ l → f a = 1 → (∀ b, b ∈ l → b ≠ a → f b = 0) →
  Zsum ((λ b, f b * g b) <$> l) = g a.
Proof.
  induction l as [|c l IH]; intros Hnd Ha Hfa Hz.
  - by apply elem_of_nil in Ha.
  - apply NoDup_cons in Hnd as [Hc Hnd]. rewrite fmap_cons.
    change (Zsum (f c * g c :: ((λ b, f b * g b) <$> l)))
      with (f c * g c + Zsum ((λ b, f b * g b) <$> l)).
    apply elem_of_cons in Ha as [->|Ha].
    + rewrite Hfa.
      rewrite (Zsum_ext _ (λ _, 0)).
      * assert (Zsum ((λ _ : A, 0) <$> l) = 0) as ->; [|lia].
        clear. induction l as [|? l IH]; [done|]. rewrite fmap_cons.
        change (Zsum (0 :: ((λ _ : A, 0) <$> l))) with (0 + Zsum ((λ _ : A, 0) <$> l)).
        by rewrite IH.
      * intros b Hb. rewrite Hz; [lia|by right|]. intros ->. done.
    + rewrite Hz; [|by left|intros ->; done].
      rewrite IH; [lia|done|done|done|]. intros b Hb. apply Hz. by right.
Qed.

Section Conflicts.
Variables (inp : Inputs) (pcs : list Constraint) (target : Z) (cp : CaptainPart).
Variable v : Valuation.
Hypothesis Hsat : satisfies v (b_model (assemble inp pcs target cp)).

Let P := num_players inp.
Let tids := team_ids (num_teams inp).
Let aps := avoid_pairs (df inp).

(** The co-placement variable is the conjunction of the two indicators. *)
Lemma conflict_and k pa pb t :
  aps !! k = Some (pa, pb) → t ∈ tids →
  v (y_ k t) = v (x_ pa t) * v (x_ pb t).
Proof.
  intros Hk Ht.
  destruct (avoid_pairs_bound (df inp) pa pb) as [Ha Hb];
    [by eapply list_elem_of_lookup_2|].
  destruct (sol_conflict _ _ _ _ _ Hsat k pa pb t Hk Ht) as (Hy & H1 & H2 & H3).
  destruct (sol_bits _ _ _ _ _ Hsat pa t Ha Ht),
           (sol_bits _ _ _ _ _ Hsat pb t Hb Ht); lia.
Qed.

(** Summed over the teams, the variables of one pair count 1 when its two
    players share a team and 0 otherwise. *)
Lemma pair_penalty k pa pb :
  aps !! k = Some (pa, pb) →
  Zsum ((λ t, v (y_ k t)) <$> tids)
  = if bool_decide (label v tids pa = label v tids pb) then 1 else 0.
Proof.
  intros Hk.
  destruct (avoid_pairs_bound (df inp) pa pb) as [Ha Hb];
    [by eapply list_elem_of_lookup_2|].
  rewrite (Zsum_ext _ (λ t, v (x_ pa t) * v (x_ pb t)))
    by (intros t Ht; by apply conflict_and).
  destruct (label_spec _ _ _ _ _ Hsat pa Ha) as (ta & Hta & Hla & Hva & Hua).
  rewrite (Zsum_one_hot_mul (λ t, v (x_ pa t)) (λ t, v (x_ pb t)) tids ta);
    [|apply NoDup_seq|done|done|].
  2:{ intros t Ht Hne. destruct (sol_bits _ _ _ _ _ Hsat pa t Ha Ht) as [E|E]; [done|].
      exfalso. apply Hne. by apply Hua. }
  pose proof (label_iff _ _ _ _ _ Hsat pb ta Hb Hta) as Hiff.
  assert (Elab : label v tids pa = Z.of_nat ta + 1)
    by (unfold label, tids; by rewrite Hla).
  rewrite Elab.
  destruct (sol_bits _ _ _ _ _ Hsat pb ta Hb Hta) as [E|E].
  - rewrite bool_decide_eq_false_2; [done|]. intros Hl. symmetry in Hl.
    apply Hiff in Hl. fold tids in Hl. lia.
  - rewrite bool_decide_eq_true_2; [done|]. symmetry. by apply Hiff.
Qed.

Lemma conflict_sum_from (l : list (nat * nat)) (k0 : nat) :
  (∀ k ab, l !! k = Some ab → aps !! (k0 + k)%nat = Some ab) →
  Zsum (v <$> mjoin (imap (λ k (_ : nat * nat), y_ (k0 + k) <$> tids) l))
  = Z.of_nat (length (filter (λ ab, label v tids ab.1 = label v tids ab.2) l)).
Proof.
  revert k0. induction l as [|[pa pb] l IH]; intros k0 Hl; [done|].
  rewrite imap_cons.
  match goal with |- context [mjoin (?a :: ?r)] =>
    change (mjoin (a :: r)) with (a ++ mjoin r) end.
  rewrite fmap_app, Zsum_app, filter_cons.
  rewrite (imap_ext _ (λ k _, y_ (S k0 + k) <$> tids))
    by (intros; simpl; do 2 f_equal; lia).
  rewrite IH by (intros k ab Hk; rewrite <- (Hl (S k) ab Hk); f_equal; lia).
  rewrite <- list_fmap_compose.
  change (v ∘ y_ (k0 + 0) <$> tids) with ((λ t, v (y_ (k0 + 0) t)) <$> tids).
  rewrite (pair_penalty (k0 + 0) pa pb) by (by apply Hl).
  simpl. destruct (decide (label v tids pa = label v tids pb)) as [E|E].
  - rewrite bool_decide_eq_true_2 by done. simpl. lia.
  - rewrite bool_decide_eq_false_2 by done. lia.
Qed.

(** The conflict term of the objective counts the directed pairs whose two
    players share a team. *)
Lemma conflict_count :
  Zsum (v <$> conflict_terms aps tids)
  = Z.of_nat (length (filter (λ ab, label v tids ab.1 = label v tids ab.2) aps)).
Proof. apply (conflict_sum_from aps 0). by intros k ab Hk. Qed.
End Conflicts.

Lemma conflict_structure inp pcs target cp k pa pb t :
  avoid_pairs (df inp) !! k = Some (pa, pb) → t ∈ team_ids (num_teams inp) →
  let m := b_model (assemble inp pcs target cp) in
  (y_ k t, (0, 1)) ∈ variables m ∧
  (∀ c, c ∈ conflict_constraint k (pa, pb) t → c ∈ constraints m) ∧
  y_ k t ∈ conflict_terms (avoid_pairs (df inp)) (team_ids (num_teams inp)).
Proof.
  intros Hk Ht m. split; [|split].
  - unfold m. simpl. rewrite !elem_of_app. do 4 right. left.
    unfold y_variables. apply list_elem_of_join.
    exists ((λ t, (y_ k t, (0, 1))) <$> team_ids (num_teams inp)). split.
    + apply list_elem_of_fmap. by exists t.
    + apply elem_of_lookup_imap. by exists k, (pa, pb).
  - intros c Hc. unfold m. simpl. rewrite !elem_of_app. do 5 right. left.
    unfold conflict_constraints. apply list_elem_of_join.
    exists (mjoin (conflict_constraint k (pa, pb) <$> team_ids (num_teams inp))). split.
    + apply list_elem_of_join. eexists. split; [exact Hc|].
      apply list_elem_of_fmap. by exists t.
    + apply elem_of_lookup_imap. by exists k, (pa, pb).
  - unfold conflict_terms. apply list_elem_of_join.
    exists (y_ k <$> team_ids (num_teams inp)). split.
    + apply list_elem_of_fmap. by exists t.
    + apply elem_of_lookup_imap. by exists k, (pa, pb).
Qed.

Lemma mutual_pairs d i j ra rb :
  NoDup (players d) → d !! i = Some ra → d !! j = Some rb → i ≠ j →
  Avoid ra = Some (Name rb) → Avoid rb = Some (Name ra) →
  ∃ k1 k2, k1 ≠ k2 ∧ avoid_pairs d !! k1 = Some (i, j) ∧
           avoid_pairs d !! k2 = Some (j, i).
Proof.
  intros Hnd Hi Hj Hne Hab Hba.
  assert (Hni : name_to_idx d !! Name ra = Some i).
  { apply name_to_idx_NoDup; [done|]. unfold players. by rewrite list_lookup_fmap, Hi. }
  assert (Hnj : name_to_idx d !! Name rb = Some j).
  { apply name_to_idx_NoDup; [done|]. unfold players. by rewrite list_lookup_fmap, Hj. }
  assert (H1 : (i, j) ∈ avoid_pairs d).
  { apply elem_of_avoid_pairs. exists ra, (Name rb).
    split; [by eapply list_elem_of_lookup_2|done]. }
  assert (H2 : (j, i) ∈ avoid_pairs d).
  { apply elem_of_avoid_pairs. exists rb, (Name ra).
    split; [by eapply list_elem_of_lookup_2|done]. }
  apply list_elem_of_lookup in H1 as [k1 Hk1], H2 as [k2 Hk2].
  exists k1, k2. split; [|done]. intros ->. congruence.
Qed.

Lemma trunc_integer_part (y : Q) : integer_part y (trunc y).
Proof.
  unfold integer_part.
  destruct (Qlt_le_dec y 0) as [Hneg|Hpos].
  - assert (E : trunc y = - Qfloor (- y)).
    { destruct y as [n d]. unfold trunc, Qlt in *. simpl in *.
      assert (n < 0) by lia.
      rewrite <- (Z.opp_involutive n) at 1.
      rewrite Z.quot_opp_l by done. rewrite Z.quot_div_nonneg by lia. done. }
    rewrite E, inject_Z_opp.
    pose proof (Qfloor_le (- y)) as Hle. pose proof (Qlt_floor (- y)) as Hlt.
    rewrite inject_Z_plus in Hlt. change (inject_Z 1) with 1%Q in Hlt.
    assert (H0 : (0 <= inject_Z (Qfloor (- y)))%Q).
    { change 0%Q with (inject_Z 0). rewrite <- Zle_Qle.
      change 0 with (Qfloor 0). apply Qfloor_resp_le. lra. }
    set (f := inject_Z (Qfloor (- y))) in *. clearbody f.
    split; [|split]; [qabs; lra | qabs; lra | nra].
  - assert (E : trunc y = Qfloor y).
    { destruct y as [n d]. unfold trunc, Qle in *. simpl in *.
      rewrite Z.quot_div_nonneg by lia. done. }
    rewrite E.
    pose proof (Qfloor_le y) as Hle. pose proof (Qlt_floor y) as Hlt.
    rewrite inject_Z_plus in Hlt. change (inject_Z 1) with 1%Q in Hlt.
    assert (H0 : (0 <= inject_Z (Qfloor y))%Q).
    { change 0%Q with (inject_Z 0). rewrite <- Zle_Qle.
      change 0 with (Qfloor 0). by apply Qfloor_resp_le. }
    set (f := inject_Z (Qfloor y)) in *. clearbody f.
    split; [|split]; [qabs; lra | qabs; lra | nra].
Qed.

Lemma representable_pow2 (k : Z) : -1074 <= k → representable (pow2 k).
Proof.
  intros Hk. exists 1, k. split; [done|]. split; [|ring].
  assert (0 < 2 ^ 53) by (by apply Z.pow_pos_nonneg). lia.
Qed.

(** A number that is not below the least positive double in absolute value
    is not read as zero. *)
Lemma round53_not_zero (q : Q) :
  (pow2 (-1074) <= Qabs q)%Q → ¬ (round53 q == 0)%Q.
Proof.
  intros Hq Hz. pose proof (pow2_pos (-1074)) as Hp.
  assert (Hr : representable (pow2 (-1074))) by (by apply representable_pow2).
  destruct (Qlt_le_dec q 0) as [Hneg|Hpos].
  - assert (Hle : (q <= - pow2 (-1074))%Q) by (revert Hq; qabs; lra).
    pose proof (round53_le_rep q _ (representable_opp _ Hr) Hle). lra.
  - assert (Hle : (pow2 (-1074) <= q)%Q) by (revert Hq; qabs; lra).
    pose proof (round53_ge_rep q _ Hr Hle). lra.
Qed.

Lemma to_float_cases (q : Q) :
  to_float q = Finite (round53 q) ∨ to_float q = Infinite.
Proof. unfold to_float. destruct (Qle_bool _ _); auto. Qed.

(** What a successful conversion [int(weight * SCALE)] returns. *)
Lemma penalty_check_coefficient (w : Q) (pts : list Var) :
  penalised w pts = true → penalty_check w pts = Ok () →
  ∃ x y : Q, nearest_double x w ∧ nearest_double y (x * 100) ∧
             integer_part y (coefficient w).
Proof.
  unfold penalty_check, coefficient, scaled_weight. intros -> Hc.
  destruct (to_float_cases w) as [E|E]; rewrite E in *; cbn [fmul] in *;
    [|simpl in Hc; discriminate].
  change (inject_Z SCALE) with 100%Q in *.
  destruct (to_float_cases (round53 w * 100)) as [E'|E']; rewrite E' in *;
    [|simpl in Hc; discriminate].
  exists (round53 w), (round53 (round53 w * 100)).
  split; [apply round53_nearest_double|]. split; [apply round53_nearest_double|].
  simpl. apply trunc_integer_part.
Qed.

Lemma penalised_intro (w : Q) (pts : list Var) :
  (pow2 (-1074) <= Qabs w)%Q → pts ≠ [] → penalised w pts = true.
Proof.
  intros Hw Hne. unfold penalised. apply andb_true_intro. split.
  - destruct (to_float_cases w) as [E|E]; rewrite E; [|done]. simpl.
    apply negb_true_iff. destruct (Qeq_bool _ _) eqn:Hz; [|done].
    apply Qeq_bool_iff in Hz. by apply round53_not_zero in Hz.
  - by destruct pts.
Qed.

Lemma objective_conflict_term bw cw kw tids cts pts :
  penalised cw cts = true →
  (inject_Z (coefficient cw), cts) ∈ objective bw cw kw tids cts pts.
Proof.
  intros H1. unfold objective, penalty_term. rewrite H1.
  apply elem_of_app. right. by left.
Qed.

(** The checks a successful build has passed. *)
Lemma build_model_checks (inp : Inputs) (b : Built) :
  build_model inp = Ok b →
  ∃ pcs cp,
    b = assemble inp pcs (target_of inp) cp ∧
    preset_constraints (name_to_idx (df inp)) (num_teams inp) (presets inp) = Ok pcs ∧
    num_teams inp ≠ 0 ∧
    captain_part (captain_policy inp) (captain_hard inp) (count_captains inp)
      (num_teams inp) (num_roles inp) (team_ids (num_teams inp)) = Ok cp ∧
    penalty_check (conflict_weight inp)
      (conflict_terms (avoid_pairs (df inp)) (team_ids (num_teams inp))) = Ok () ∧
    penalty_check (captain_weight inp) (captain_penalty_terms cp) = Ok () ∧
    minimize (obj_terms (b_model b)) = Ok () ∧
    0 <= random_seed inp < 2 ^ 31.
Proof.
  unfold build_model, default_rng, floordiv, target_of, set_random_seed.
  destruct (Z.ltb_spec (random_seed inp) 0) as [?|Hseed]; [discriminate|].
  simpl.
  destruct (preset_constraints _ _ _) as [pcs|]; [|discriminate]. simpl.
  destruct (Z.eqb_spec (num_teams inp) 0) as [?|Hnz]; [discriminate|]. simpl.
  destruct (captain_part _ _ _ _ _ _) as [cp|]; [|discriminate]. simpl.
  destruct (penalty_check (conflict_weight inp) _) as [[]|]; [|simpl; discriminate].
  simpl.
  destruct (penalty_check _ _) as [[]|] eqn:Hk; [|simpl; discriminate]. simpl.
  destruct (minimize _) as [[]|] eqn:Hmin; [|simpl; discriminate]. simpl.
  destruct (Z.leb_spec (- 2 ^ 31) (random_seed inp)); [|simpl; discriminate].
  destruct (Z.ltb_spec (random_seed inp) (2 ^ 31)); [|simpl; discriminate].
  simpl. intros [= <-]. exists pcs, cp. repeat split; done || lia.
Qed.

(** The coefficient of a penalty term is the integer part of a float
    product: 28 for the weight 0.29, 30 for the weight 0.3. *)
Example coefficient_floats :
  coefficient 1 = 100 ∧ coefficient 5 = 500 ∧ coefficient (1 # 2) = 50 ∧
  coefficient (29 # 100) = 28 ∧ coefficient (3 # 10) = 30.
Proof. vm_compute. done. Qed.

(** C5.  Once the model is built: a directed pair is recorded exactly for
    the rows whose avoid target is a roster name; every recorded pair, taken
    by its position in the list, has for every team one boolean variable of
    its own with the three inequalities, and in every satisfying valuation
    that variable is 1 exactly when both indicators are 1; the variables
    summed in the conflict term count the recorded pairs whose players share a
    team; when there is such a variable and the conflict weight is not read as
    zero, the objective has the sum of these variables with the coefficient
    [int(conflict_weight * 100)], the integer part of a double nearest to 100
    times a double nearest to the weight; and two players who avoid each
    other are recorded as two pairs with two variables per team, both 1 on a
    team they share. *)
Theorem C5_conflicts (inp : Inputs) (b : Built) :
  build_model inp = Ok b →
  let aps := avoid_pairs (df inp) in
  let tids := team_ids (num_teams inp) in
  (∀ pa pb, (pa, pb) ∈ aps ↔
     ∃ r tgt, r ∈ df inp ∧ Avoid r = Some tgt ∧
              name_to_idx (df inp) !! Name r = Some pa ∧
              name_to_idx (df inp) !! tgt = Some pb) ∧
  (∀ k pa pb t, aps !! k = Some (pa, pb) → t ∈ tids →
     (y_ k t, (0, 1)) ∈ variables (b_model b) ∧
     LeC (var_e (y_ k t)) (var_e (x_ pa t)) ∈ constraints (b_model b) ∧
     LeC (var_e (y_ k t)) (var_e (x_ pb t)) ∈ constraints (b_model b) ∧
     GeC (var_e (y_ k t)) {| terms := [(1, x_ pa t); (1, x_ pb t)]; const := -1 |}
       ∈ constraints (b_model b) ∧
     y_ k t ∈ conflict_terms aps tids) ∧
  (∀ v, satisfies v (b_model b) →
     (∀ k pa pb t, aps !! k = Some (pa, pb) → t ∈ tids →
        (v (y_ k t) = 0 ∨ v (y_ k t) = 1) ∧
        (v (y_ k t) = 1 ↔ v (x_ pa t) = 1 ∧ v (x_ pb t) = 1)) ∧
     Zsum (v <$> conflict_terms aps tids)
     = Z.of_nat (length (filter (λ ab, label v tids ab.1 = label v tids ab.2) aps))) ∧
  (conflict_terms aps tids ≠ [] → (pow2 (-1074) <= Qabs (conflict_weight inp))%Q →
     ∃ (c : Z) (x y : Q),
       (inject_Z c, conflict_terms aps tids) ∈ obj_terms (b_model b) ∧
       nearest_double x (conflict_weight inp) ∧ nearest_double y (x * 100) ∧
       integer_part y c) ∧
  (∀ i j ra rb,
     NoDup (players (df inp)) → df inp !! i = Some ra → df inp !! j = Some rb →
     i ≠ j → Avoid ra = Some (Name rb) → Avoid rb = Some (Name ra) →
     ∃ k1 k2, k1 ≠ k2 ∧ aps !! k1 = Some (i, j) ∧ aps !! k2 = Some (j, i) ∧
       ∀ v t, satisfies v (b_model b) → t ∈ tids →
              v (x_ i t) = 1 → v (x_ j t) = 1 →
              v (y_ k1 t) = 1 ∧ v (y_ k2 t) = 1).
Proof.
  intros Hb aps tids.
  pose proof Hb as (_ & _ & _ & _ & _ & _ & Hck & _)%build_model_checks.
  apply build_model_inv in Hb as (pcs & cp & _ & _ & _ & _ & ->).
  assert (Hand : ∀ v, satisfies v (b_model (assemble inp pcs (target_of inp) cp)) →
            ∀ k pa pb t, aps !! k = Some (pa, pb) → t ∈ tids →
              (v (y_ k t) = 0 ∨ v (y_ k t) = 1) ∧
              (v (y_ k t) = 1 ↔ v (x_ pa t) = 1 ∧ v (x_ pb t) = 1)).
  { intros v Hsat k pa pb t Hk Ht.
    destruct (avoid_pairs_bound (df inp) pa pb) as [Ha Hb];
      [by eapply list_elem_of_lookup_2|].
    pose proof (conflict_and _ _ _ _ _ Hsat k pa pb t Hk Ht) as Hy.
    destruct (sol_bits _ _ _ _ _ Hsat pa t Ha Ht),
             (sol_bits _ _ _ _ _ Hsat pb t Hb Ht); lia. }
  split; [|split; [|split; [|split]]].
  - intros pa pb. apply elem_of_avoid_pairs.
  - intros k pa pb t Hk Ht.
    destruct (conflict_structure inp pcs (target_of inp) cp k pa pb t Hk Ht)
      as (Hv & Hc & Hy).
    split; [done|]. unfold conflict_constraint in Hc. simpl in Hc.
    repeat split; try done; apply Hc; rewrite !elem_of_cons; tauto.
  - intros v Hsat. split; [by apply Hand|].
    apply (conflict_count _ _ _ _ _ Hsat).
  - intros Hne Hw. pose proof (penalised_intro _ _ Hw Hne) as Hp.
    destruct (penalty_check_coefficient _ _ Hp Hck) as (x & y & Hx & Hy & Hc).
    exists (coefficient (conflict_weight inp)), x, y.
    split; [simpl; by apply objective_conflict_term|done].
  - intros i j ra rb Hnd Hi Hj Hne Hab Hba.
    destruct (mutual_pairs _ _ _ _ _ Hnd Hi Hj Hne Hab Hba) as (k1 & k2 & Hk & Hk1 & Hk2).
    exists k1, k2. split; [done|]. split; [done|]. split; [done|].
    intros v t Hsat Ht Hxi Hxj. split.
    + apply (Hand v Hsat k1 i j t Hk1 Ht). done.
    + apply (Hand v Hsat k2 j i t Hk2 Ht). done.
Qed.

Example feud_pairs : avoid_pairs (df scenario_feud) = [(0, 3); (3, 0)]%nat.
Proof. vm_compute. reflexivity. Qed.

Example feud_penalised_twice :
  satisfiesb feud_together (b_model feud_built) = true ∧
  Zsum (feud_together <$> conflict_terms (avoid_pairs (df scenario_feud))
                            (team_ids (num_teams scenario_feud))) = 2.
Proof. split; vm_compute; reflexivity. Qed.

(** The objective of the feud scenario: the balance term, and the conflict
    term with the coefficient 100 for the weight 1. *)
Example feud_objective :
  obj_terms (b_model feud_built)
  = [(1%Q, [d_ 0; d_ 1]); (100%Q, [y_ 0 0; y_ 0 1; y_ 1 0; y_ 1 1])]%nat.
Proof. vm_compute. reflexivity. Qed.

Lemma C5_conflicts_witness :
  build_model scenario_feud = Ok feud_built ∧
  (∀ v, satisfies v (b_model feud_built) →
     Zsum (v <$> conflict_terms (avoid_pairs (df scenario_feud))
                   (team_ids (num_teams scenario_feud)))
     = Z.of_nat (length (filter
         (λ ab, label v (team_ids (num_teams scenario_feud)) ab.1
                = label v (team_ids (num_teams scenario_feud)) ab.2)
         (avoid_pairs (df scenario_feud))))) ∧
  ∃ (c : Z) (x y : Q),
    (inject_Z c, conflict_terms (avoid_pairs (df scenario_feud))
                   (team_ids (num_teams scenario_feud)))
      ∈ obj_terms (b_model feud_built) ∧
    nearest_double x (conflict_weight scenario_feud) ∧
    nearest_double y (x * 100) ∧ integer_part y c.
Proof.
  assert (Hb : build_model scenario_feud = Ok feud_built) by (vm_compute; reflexivity).
  destruct (C5_conflicts scenario_feud feud_built Hb) as (_ & _ & Hsem & Hobj & _).
  split; [exact Hb|]. split.
  - intros v Hv. exact (proj2 (Hsem v Hv)).
  - apply Hobj; [vm_compute; discriminate|vm_compute; discriminate].
Defined.

(** * The variables each part of the model reads *)

Lemma eval_agree (v v' : Valuation) (e : LinExpr) :
  (∀ a, a ∈ snd <$> terms e → v a = v' a) → eval v e = eval v' e.
Proof.
  intros H. unfold eval. f_equal. apply Zsum_ext.
  intros [c a] Hin. simpl. rewrite (H a); [done|].
  apply list_elem_of_fmap. by exists (c, a).
Qed.

Lemma holds_agree (v v' : Valuation) (c : Constraint) :
  (∀ a, a ∈ cvars c → v a = v' a) → holds v c → holds v' c.
Proof.
  intros H.
  assert (Hl : ∀ l r, cvars c = (snd <$> terms l) ++ (snd <$> terms r) →
            eval v l = eval v' l ∧ eval v r = eval v' r).
  { intros l r E. rewrite E in H. split; apply eval_agree; intros a Ha;
      apply H, elem_of_app; auto. }
  destruct c as [l r|l r|l r]; simpl;
    destruct (Hl l r eq_refl) as [-> ->]; done.
Qed.

Lemma Forall_holds_agree (v v' : Valuation) (Q : Var → Prop) (cs : list Constraint) :
  (∀ a, Q a → v a = v' a) →
  Forall (λ c, Forall Q (cvars c)) cs →
  Forall (holds v) cs → Forall (holds v') cs.
Proof.
  intros Hag Hfoot Hh. rewrite Forall_forall in Hfoot, Hh |- *.
  intros c Hc. apply (holds_agree v); [|by apply Hh].
  intros a Ha. apply Hag. specialize (Hfoot c Hc).
  rewrite Forall_forall in Hfoot. by apply Hfoot.
Qed.

Lemma one_team_footprint P tids :
  Forall (λ c, Forall structural (cvars c)) (one_team_constraints P tids).
Proof. unfold one_team_constraints, one_team_constraint. footprint. Qed.

Lemma role_footprint ps P rs tids :
  Forall (λ c, Forall structural (cvars c)) (role_constraints ps P rs tids).
Proof. unfold role_constraints, role_constraint. footprint. Qed.

Lemma pin_footprint p t tids :
  Forall (λ c, Forall structural (cvars c)) (pin p t tids).
Proof. unfold pin. footprint. Qed.

Lemma preset_footprint idx T ps pcs :
  preset_constraints idx T ps = Ok pcs →
  Forall (λ c, Forall structural (cvars c)) pcs.
Proof.
  revert pcs. induction ps as [|[n0 t0] ps IH]; intros pcs; simpl.
  - intros [= <-]. constructor.
  - destruct (idx !! n0); [|discriminate].
    destruct (negb _); [discriminate|].
    destruct (preset_constraints idx T ps) as [cs|]; [|discriminate]. simpl.
    intros [= <-]. apply Forall_app_2; [apply pin_footprint|by apply IH].
Qed.

Lemma score_footprint sws P tids :
  Forall (λ c, Forall structural (cvars c)) (score_constraint sws P <$> tids).
Proof. unfold score_constraint. footprint. Qed.

Lemma conflict_footprint aps tids :
  Forall (λ c, Forall structural (cvars c)) (conflict_constraints aps tids).
Proof.
  unfold conflict_constraints. apply Forall_join, Forall_forall.
  intros l (k & ab & -> & _)%elem_of_lookup_imap.
  unfold conflict_constraint. footprint.
Qed.

Lemma captain_count_footprint caps P tids :
  Forall (λ c, Forall structural (cvars c)) (captain_count_constraint caps P <$> tids).
Proof. unfold captain_count_constraint. footprint. Qed.

Lemma captain_part_footprint policy hard ncap T R tids cp :
  captain_part policy hard ncap T R tids = Ok cp →
  Forall (λ c, Forall captain_var (cvars c)) (cp_constraints cp).
Proof.
  unfold captain_part. destruct (bool_decide (policy ∈ _)); [|discriminate].
  destruct (bool_decide (policy = "at_least_one")).
  { intros [= <-]. unfold at_least_one_part.
    destruct (if hard && (ncap <? T) then false else hard); simpl; footprint. }
  destruct (bool_decide (policy = "separate")).
  { intros [= <-]. unfold separate_part.
    destruct (if hard && (T <? ncap) then false else hard); simpl; footprint. }
  intros [= <-]. constructor.
Qed.

Lemma deviation_footprint target t :
  Forall (λ c, Forall (λ a, a = diff_ t ∨ a = s_ t ∨ a = d_ t) (cvars c))
         (deviation_constraints target t).
Proof. unfold deviation_constraints. footprint; auto. Qed.

(** * C3: deviations *)

Lemma captain_part_variables policy hard ncap T R tids cp :
  captain_part policy hard ncap T R tids = Ok cp →
  Forall (λ d, captain_var d.1) (cp_variables cp) ∧
  Forall captain_var (captain_penalty_terms cp).
Proof.
  unfold captain_part. destruct (bool_decide (policy ∈ _)); [|discriminate].
  destruct (bool_decide (policy = "at_least_one")).
  { intros [= <-]. unfold at_least_one_part.
    destruct (if hard && (ncap <? T) then false else hard); simpl;
      split; repeat decl_step; exact I. }
  destruct (bool_decide (policy = "separate")).
  { intros [= <-]. unfold separate_part.
    destruct (if hard && (T <? ncap) then false else hard); simpl;
      split; repeat decl_step; exact I. }
  intros [= <-]. split; constructor.
Qed.

Lemma Zsum_set_deviation (v : Valuation) (t0 : nat) (z : Z) (tids : list nat) :
  NoDup tids → t0 ∈ tids →
  Zsum (set_deviation v t0 z <$> (d_ <$> tids))
  = Zsum (v <$> (d_ <$> tids)) - v (d_ t0) + z.
Proof.
  induction tids as [|t tids IH]; intros Hnd Hin.
  - by apply elem_of_nil in Hin.
  - apply NoDup_cons in Hnd as [Hnotin Hnd]. rewrite !fmap_cons.
    change (Zsum (set_deviation v t0 z (d_ t) :: (set_deviation v t0 z <$> (d_ <$> tids))))
      with (set_deviation v t0 z (d_ t) + Zsum (set_deviation v t0 z <$> (d_ <$> tids))).
    change (Zsum (v (d_ t) :: (v <$> (d_ <$> tids))))
      with (v (d_ t) + Zsum (v <$> (d_ <$> tids))).
    apply elem_of_cons in Hin as [->|Hin].
    + assert (Hrest : Zsum (set_deviation v t (z) <$> (d_ <$> tids))
                      = Zsum (v <$> (d_ <$> tids))).
      { rewrite <- !list_fmap_compose. apply Zsum_ext. intros t' Ht'. simpl.
        unfold set_deviation. destruct (decide (d_ t' = d_ t)) as [[= ->]|]; done. }
      rewrite Hrest. unfold set_deviation at 1. rewrite decide_True by done. lia.
    + rewrite IH by done. unfold set_deviation at 1.
      destruct (decide (d_ t = d_ t0)) as [[= ->]|]; [done|]. lia.
Qed.

Section Tight.
Variables (inp : Inputs) (pcs : list Constraint) (cp : CaptainPart).
Variable v : Valuation.
Let target := target_of inp.
Let m := b_model (assemble inp pcs target cp).
Let tids := team_ids (num_teams inp).
Hypothesis Hpcs :
  preset_constraints (name_to_idx (df inp)) (num_teams inp) (presets inp) = Ok pcs.
Hypothesis Hcp :
  captain_part (captain_policy inp) (captain_hard inp) (count_captains inp)
    (num_teams inp) (num_roles inp) tids = Ok cp.
Hypothesis Hsat : satisfies v m.

Lemma declarations_ok : Forall deviation_decl_ok (variables m).
Proof.
  unfold m. simpl.
  destruct (captain_part_variables _ _ _ _ _ _ _ Hcp) as [Hv _].
  repeat apply Forall_app_2;
    try (unfold x_variables, s_variables, d_variables, diff_variables,
           y_variables, c_t_variables; repeat decl_step; done).
  eapply Forall_impl; [exact Hv|]. intros [a ?]. unfold deviation_decl_ok. simpl.
  by destruct a.
Qed.

(** Lowering one deviation variable to the absolute difference keeps the
    model satisfied. *)
Lemma set_deviation_satisfies t0 :
  t0 ∈ tids →
  satisfies (set_deviation v t0 (Z.abs (v (s_ t0) - target))) m.
Proof.
  intros Ht0. set (z := Z.abs (v (s_ t0) - target)).
  destruct (sol_deviation _ _ _ _ _ Hsat t0 Ht0) as [Hdiff Hle]. fold target z in Hle.
  assert (Hag : ∀ a, a ≠ d_ t0 → v a = set_deviation v t0 z a).
  { intros a Ha. unfold set_deviation. by rewrite decide_False. }
  destruct Hsat as [Hdom Hcs]. split.
  - pose proof declarations_ok as Hok.
    rewrite Forall_forall in Hdom, Hok |- *. intros d Hd.
    specialize (Hdom d Hd). specialize (Hok d Hd).
    unfold in_domain, set_deviation in *. unfold deviation_decl_ok in Hok.
    destruct (decide (d.1 = d_ t0)) as [E|E]; [|done].
    rewrite E in Hok, Hdom. lia.
  - unfold m in Hcs |- *. simpl in Hcs |- *.
    repeat (apply Forall_app in Hcs as [?Hc Hcs]).
    assert (Hst : ∀ a, structural a → v a = set_deviation v t0 z a).
    { intros a Ha. apply Hag. by intros ->. }
    repeat apply Forall_app_2.
    + eapply Forall_holds_agree; [exact Hst|apply one_team_footprint|done].
    + eapply Forall_holds_agree; [exact Hst|apply role_footprint|done].
    + eapply Forall_holds_agree; [exact Hst|by eapply preset_footprint|done].
    + eapply Forall_holds_agree; [exact Hst|apply score_footprint|done].
    + apply Forall_join, Forall_fmap, Forall_forall. intros t Ht.
      assert (Hdev : Forall (holds v) (deviation_constraints target t)).
      { apply Forall_forall. intros c Hin. rewrite Forall_forall in Hc3. apply Hc3.
        apply list_elem_of_join. eexists. split; [exact Hin|].
        apply list_elem_of_fmap. by exists t. }
      clear Hc3. rename Hdev into Hc3. simpl.
      destruct (decide (t = t0)) as [->|Hne].
      * unfold deviation_constraints in *.
        apply Forall_cons in Hc3 as [H1 Hc3]. apply Forall_cons in Hc3 as [H2 Hc3].
        apply Forall_cons in Hc3 as [H3 _].
        unfold holds, eval in H1, H2, H3. simpl in H1, H2, H3.
        repeat apply Forall_cons_2; [| | |constructor];
          unfold holds, eval, set_deviation; simpl;
          rewrite ?decide_True by done; rewrite ?decide_False by done; lia.
      * eapply Forall_holds_agree; [|apply deviation_footprint|done].
        intros a [-> | [-> | ->]]; apply Hag; congruence.
    + eapply Forall_holds_agree; [exact Hst|apply conflict_footprint|done].
    + eapply Forall_holds_agree; [exact Hst|apply captain_count_footprint|done].
    + eapply Forall_holds_agree; [|by eapply captain_part_footprint|done].
      intros a Ha. apply Hag. intros ->. done.
Qed.
End Tight.

Lemma nonzero_pos (q : Q) : (0 < q)%Q → nonzero q = true.
Proof.
  intros H. unfold nonzero. destruct (Qeq_bool q 0) eqn:E; [|done].
  apply Qeq_bool_iff in E. rewrite E in H. by apply Qlt_irrefl in H.
Qed.

Lemma conflict_terms_vars aps tids : Forall structural (conflict_terms aps tids).
Proof. unfold conflict_terms. repeat decl_step. exact I. Qed.

Section Optimum.
Variables (inp : Inputs) (pcs : list Constraint) (cp : CaptainPart).
Variable v : Valuation.
Let target := target_of inp.
Let m := b_model (assemble inp pcs target cp).
Let tids := team_ids (num_teams inp).
Hypothesis Hpcs :
  preset_constraints (name_to_idx (df inp)) (num_teams inp) (presets inp) = Ok pcs.
Hypothesis Hcp :
  captain_part (captain_policy inp) (captain_hard inp) (count_captains inp)
    (num_teams inp) (num_roles inp) tids = Ok cp.
Hypothesis Hsat : satisfies v m.
Hypothesis Hbw : (0 < balance_weight inp)%Q.

(** Lowering one deviation variable lowers the objective by the balance
    weight times the amount. *)
Lemma objective_set_deviation t0 z :
  t0 ∈ tids →
  (objective_value (set_deviation v t0 z) m
   == objective_value v m - balance_weight inp * inject_Z (v (d_ t0) - z))%Q.
Proof.
  intros Ht0. unfold objective_value, m. simpl. unfold objective, balance_term.
  rewrite (nonzero_pos _ Hbw).
  set (rest := penalty_term (conflict_weight inp) _ ++ penalty_term (captain_weight inp) _).
  assert (Hrest : ∀ ot, ot ∈ rest → Forall (λ a, a ≠ d_ t0) ot.2).
  { intros ot. unfold rest, penalty_term. rewrite elem_of_app.
    destruct (captain_part_variables _ _ _ _ _ _ _ Hcp) as [_ Hpen].
    intros [Hin|Hin].
    - destruct (penalised _ _); [|by apply elem_of_nil in Hin].
      apply list_elem_of_singleton in Hin as ->. simpl.
      eapply Forall_impl; [apply conflict_terms_vars|]. by intros a Ha ->.
    - destruct (penalised _ _); [|by apply elem_of_nil in Hin].
      apply list_elem_of_singleton in Hin as ->. simpl.
      eapply Forall_impl; [exact Hpen|]. by intros a Ha ->. }
  assert (Heq : (λ ot : Q * list Var,
                   (ot.1 * inject_Z (Zsum (set_deviation v t0 z <$> ot.2)))%Q) <$> rest
                = (λ ot : Q * list Var, (ot.1 * inject_Z (Zsum (v <$> ot.2)))%Q) <$> rest).
  { apply list_fmap_ext. intros _ ot Hot%list_elem_of_lookup_2. simpl.
    do 2 f_equal. apply Zsum_ext. intros a Ha. unfold set_deviation.
    specialize (Hrest ot Hot). rewrite Forall_forall in Hrest.
    by rewrite decide_False by (by apply Hrest). }
  change ([(balance_weight inp, d_ <$> team_ids (num_teams inp))] ++ rest)
    with ((balance_weight inp, d_ <$> tids) :: rest).
  rewrite !fmap_cons, Heq. unfold Qsum. simpl.
  rewrite (Zsum_set_deviation v t0 z tids) by (apply NoDup_seq || done).
  set (R := foldr Qplus 0%Q _). set (D := Zsum _).
  replace (D - v (d_ t0) + z) with (D + - (v (d_ t0) - z)) by lia.
  rewrite inject_Z_plus, inject_Z_opp. ring.
Qed.

(** At an optimum with a positive balance weight, every deviation variable
    equals the absolute difference between score and target. *)
Lemma optimum_is_tight t0 :
  (∀ v', satisfies v' m → (objective_value v m <= objective_value v' m)%Q) →
  t0 ∈ tids →
  v (d_ t0) = Z.abs (v (s_ t0) - target).
Proof.
  intros Hopt Ht0.
  destruct (sol_deviation _ _ _ _ _ Hsat t0 Ht0) as [_ Hle]. fold target in Hle.
  destruct (Z.eq_dec (v (d_ t0)) (Z.abs (v (s_ t0) - target))) as [E|Hne]; [done|].
  exfalso.
  pose proof (set_deviation_satisfies inp pcs cp v Hpcs Hcp Hsat t0 Ht0) as Hsat'.
  apply Hopt in Hsat'. fold target in Hsat'.
  rewrite (objective_set_deviation t0 _ Ht0) in Hsat'.
  assert (Hpos : (0 < inject_Z (v (d_ t0) - Z.abs (v (s_ t0) - target)))%Q).
  { change 0%Q with (inject_Z 0). rewrite <- Zlt_Qlt. lia. }
  pose proof (Qmult_lt_0_compat _ _ Hbw Hpos) as Hprod.
  set (X := (balance_weight inp * inject_Z _)%Q) in *.
  lra.
Qed.
End Optimum.

Lemma oracle_sound m0 cand : satisfies cand m0 → solver_sound (oracle m0 cand).
Proof.
  intros Hsat m prm. unfold oracle. destruct (decide (m = m0)) as [->|]; simpl.
  - done.
  - discriminate.
Qed.

Lemma oracle_optimal m0 cand :
  (∀ v', satisfies v' m0 → (objective_value cand m0 <= objective_value v' m0)%Q) →
  solver_optimal (oracle m0 cand).
Proof.
  intros Hopt m prm v'. unfold oracle. destruct (decide (m = m0)) as [->|]; simpl.
  - intros _. apply Hopt.
  - discriminate.
Qed.

Lemma status_name_optimal st : status_name st = "OPTIMAL" → st = OPTIMAL.
Proof. destruct st; simpl; (done || discriminate). Qed.

Example slack_outcome :
  outcome (build_and_solve (checked OPTIMAL slack_35_35) scenario_unweighted)
  = Ok (scenario_out, slack_diag).
Proof. vm_compute. reflexivity. Qed.

Example slack_feasible_outcome :
  outcome (build_and_solve (checked FEASIBLE slack_35_35) scenario)
  = Ok (scenario_out,
        {| status := "FEASIBLE";
           team_scores := team_scores slack_diag;
           target_score := target_score slack_diag;
           deviations := deviations slack_diag;
           captain_counts := captain_counts slack_diag;
           num_captains := 2;
           feasibility_warnings := [] |}).
Proof. vm_compute. reflexivity. Qed.

(** C3 as stated fails: with a balance weight of zero the objective is
    constant, so the valuation below is optimal, yet team 1 is reported with
    score 35.00, target 35.00 and deviation 5.00. *)
Lemma C3_counterexample :
  solver_sound (checked OPTIMAL slack_35_35) ∧
  build_model scenario_unweighted = Ok unweighted_built ∧
  (∀ v', (objective_value slack_35_35 (b_model unweighted_built)
          <= objective_value v' (b_model unweighted_built))%Q) ∧
  outcome (build_and_solve (checked OPTIMAL slack_35_35) scenario_unweighted)
    = Ok (scenario_out, slack_diag) ∧
  team_scores slack_diag !! 1 = Some (unscale 3500) ∧
  target_score slack_diag = unscale 3500 ∧
  deviations slack_diag !! 1 = Some (unscale 500) ∧
  unscale 500 ≠ unscale (Z.abs (3500 - 3500)).
Proof.
  split; [apply checked_sound|].
  split; [vm_compute; reflexivity|].
  split; [intros v'; vm_compute; discriminate|].
  split; [vm_compute; reflexivity|].
  split; [vm_compute; reflexivity|].
  split; [reflexivity|].
  split; [vm_compute; reflexivity|].
  vm_compute. discriminate.
Qed.

(** C3, amended.  Whenever a result is returned, every team's reported
    deviation is an integer [dz] of the model divided by 100 with
    [dz >= |score - target|], where score is the sum of the scaled weighted
    skills of the team's members and target the balancing target, both
    reported divided by 100.  The two are equal when the engine reports
    [OPTIMAL], its optimum is a true one and the balance weight is positive. *)
Theorem C3_deviation (solve : Solver) (inp : Inputs) out diag :
  solver_sound solve →
  outcome (build_and_solve solve inp) = Ok (out, diag) →
  ∀ t, 1 <= t <= num_teams inp →
    ∃ dz,
      deviations diag !! t = Some (unscale dz) ∧
      team_scores diag !! t = Some (unscale (team_total (role_weights inp) out t)) ∧
      target_score diag = unscale (target_of inp) ∧
      Z.abs (team_total (role_weights inp) out t - target_of inp) <= dz ∧
      (solver_optimal solve → status diag = "OPTIMAL" →
       (0 < balance_weight inp)%Q →
       dz = Z.abs (team_total (role_weights inp) out t - target_of inp)).
Proof.
  intros Hsound Hres t Ht.
  destruct (solved_inv _ _ _ _ Hsound Hres)
    as (pcs & cp & st & v & _ & Hpcs & Hcp & _ & Hsv & _ & Hsat & Hex).
  pose proof (extract_rows _ _ _ _ _ _ Hex) as Hout.
  apply extract_inv in Hex as (teams & _ & _ & Hdiag).
  assert (Hid : Z.to_nat (t - 1) ∈ team_ids (num_teams inp))
    by (apply elem_of_team_ids; lia).
  assert (Et : Z.of_nat (Z.to_nat (t - 1)) + 1 = t) by lia.
  pose proof (score_team_total _ _ _ _ _ Hsat _ Hid) as Hscore.
  rewrite Et, <- Hout in Hscore.
  destruct (sol_deviation _ _ _ _ _ Hsat _ Hid) as [_ Hdev].
  exists (v (d_ (Z.to_nat (t - 1)))). rewrite Hdiag. simpl.
  split; [|split; [|split; [|split]]].
  - rewrite <- Et at 1. by rewrite per_team_lookup.
  - rewrite <- Et at 1. rewrite per_team_lookup by done. by rewrite Hscore.
  - done.
  - by rewrite <- Hscore.
  - intros Hopt Hst%status_name_optimal Hbw. rewrite <- Hscore.
    apply (optimum_is_tight inp pcs cp v Hpcs Hcp Hsat Hbw); [|done].
    intros v' Hv'.
    pose proof (Hopt (b_model (assemble inp pcs (target_of inp) cp))
                  (solver_params inp) v') as Hle.
    rewrite <- Hsv in Hle. simpl in Hle. by apply Hle.
Qed.

Lemma scenario_split_optimal v' :
  satisfies v' (b_model scenario_built) →
  (objective_value split_35_35 (b_model scenario_built)
   <= objective_value v' (b_model scenario_built))%Q.
Proof.
  intros Hsat.
  assert (H0 : (0%nat) ∈ team_ids (num_teams scenario)) by (apply elem_of_team_ids; simpl; lia).
  assert (H1 : (1%nat) ∈ team_ids (num_teams scenario)) by (apply elem_of_team_ids; simpl; lia).
  destruct (sol_deviation scenario _ _ _ v' Hsat 0%nat H0) as [_ Hd0].
  destruct (sol_deviation scenario _ _ _ v' Hsat 1%nat H1) as [_ Hd1].
  assert (Hnonneg : 0 <= v' (d_ 0) + (v' (d_ 1) + 0)) by lia.
  change (objective_value split_35_35 (b_model scenario_built)) with (1 * inject_Z 0 + 0)%Q.
  change (objective_value v' (b_model scenario_built))
    with (1 * inject_Z (v' (d_ 0) + (v' (d_ 1) + 0)) + 0)%Q.
  rewrite !Qplus_0_r, !Qmult_1_l. by rewrite <- Zle_Qle.
Qed.

Lemma C3_deviation_witness :
  solver_sound (oracle (b_model scenario_built) split_35_35) ∧
  solver_optimal (oracle (b_model scenario_built) split_35_35) ∧
  outcome (build_and_solve (oracle (b_model scenario_built) split_35_35) scenario)
    = Ok (scenario_out, scenario_diag) ∧
  1 <= 1 <= num_teams scenario ∧
  ∃ dz, deviations scenario_diag !! 1 = Some (unscale dz) ∧
        dz = Z.abs (team_total (role_weights scenario) scenario_out 1
                    - target_of scenario).
Proof.
  assert (Hs : solver_sound (oracle (b_model scenario_built) split_35_35)).
  { apply oracle_sound, satisfiesb_correct. vm_compute. reflexivity. }
  assert (Hopt : solver_optimal (oracle (b_model scenario_built) split_35_35)).
  { apply oracle_optimal, scenario_split_optimal. }
  assert (Ho : outcome (build_and_solve (oracle (b_model scenario_built) split_35_35)
                          scenario) = Ok (scenario_out, scenario_diag))
    by (vm_compute; reflexivity).
  assert (Hr : 1 <= 1 <= num_teams scenario) by (simpl; lia).
  destruct (C3_deviation _ _ _ _ Hs Ho 1 Hr) as (dz & Hd & _ & _ & _ & Htight).
  split; [exact Hs|]. split; [exact Hopt|]. split; [exact Ho|]. split; [exact Hr|].
  exists dz. split; [exact Hd|].
  apply Htight; [exact Hopt|reflexivity|reflexivity].
Defined.

(** * C2: the captain policy *)

Lemma captain_part_at_least_one hard ncap T R tids :
  captain_part "at_least_one" hard ncap T R tids
  = Ok (at_least_one_part hard ncap T tids).
Proof. reflexivity. Qed.

Lemma captain_part_separate hard ncap T R tids :
  captain_part "separate" hard ncap T R tids
  = Ok (separate_part hard ncap T R tids).
Proof. reflexivity. Qed.

Lemma captain_part_none hard ncap T R tids :
  captain_part "none" hard ncap T R tids = Ok (no_captain_part []).
Proof. reflexivity. Qed.

Lemma agree_not_penalty (v : Valuation) a :
  not_penalty a → v a = with_least_violations v a.
Proof. by destruct a. Qed.

Lemma structural_not_penalty a : structural a → not_penalty a.
Proof. by destruct a. Qed.

Lemma base_declarations inp :
  Forall (λ d : Var * (Z * Z), not_penalty d.1)
    (x_variables (num_players inp) (team_ids (num_teams inp)) ++
     s_variables (team_ids (num_teams inp)) ++ d_variables (team_ids (num_teams inp)) ++
     diff_variables (team_ids (num_teams inp)) ++
     y_variables (avoid_pairs (df inp)) (team_ids (num_teams inp)) ++
     c_t_variables (num_roles inp) (team_ids (num_teams inp))).
Proof.
  repeat apply Forall_app_2;
    unfold x_variables, s_variables, d_variables, diff_variables,
      y_variables, c_t_variables; repeat decl_step; done.
Qed.

(** The soft captain constraints never make a model infeasible: a valuation
    that satisfies the model without captain policy, completed with the least
    violations, satisfies the model with the soft policy. *)
Lemma soft_extension inp pcs target cp v :
  preset_constraints (name_to_idx (df inp)) (num_teams inp) (presets inp) = Ok pcs →
  (cp_variables cp = (λ t, (m_t_ t, (0, 1))) <$> team_ids (num_teams inp) ∧
   cp_constraints cp =
     (λ t, GeC (var_e (m_t_ t)) {| terms := [(-1, c_t_ t)]; const := 1 |})
       <$> team_ids (num_teams inp)) ∨
  (cp_variables cp = (λ t, (k_t_ t, (0, num_roles inp))) <$> team_ids (num_teams inp) ∧
   cp_constraints cp =
     (λ t, GeC (var_e (k_t_ t)) {| terms := [(1, c_t_ t)]; const := -1 |})
       <$> team_ids (num_teams inp)) →
  satisfies v (b_model (assemble inp pcs target (no_captain_part []))) →
  satisfies (with_least_violations v) (b_model (assemble inp pcs target cp)).
Proof.
  intros Hpcs Hcp [Hdom Hcs]. simpl in Hdom, Hcs.
  rewrite !app_nil_r in Hdom, Hcs.
  assert (Hcount : ∀ t, t ∈ team_ids (num_teams inp) → 0 <= v (c_t_ t) <= num_roles inp).
  { intros t Ht. do 5 apply Forall_app in Hdom as [_ Hdom].
    rewrite Forall_forall in Hdom.
    apply (Hdom (c_t_ t, (0, num_roles inp))).
    apply list_elem_of_fmap. by exists t. }
  split; simpl.
  - rewrite !app_assoc. apply Forall_app_2.
    + rewrite <- !app_assoc.
      pose proof (base_declarations inp) as Hbase.
      rewrite Forall_forall in Hdom, Hbase |- *. intros d Hd.
      specialize (Hdom d Hd). specialize (Hbase d Hd).
      unfold in_domain in *. by rewrite <- agree_not_penalty.
    + destruct Hcp as [[-> _]|[-> _]]; apply Forall_fmap, Forall_forall;
        intros t Ht; unfold in_domain; simpl; specialize (Hcount t Ht).
      * destruct (1 <=? v (c_t_ t)); lia.
      * lia.
  - repeat (apply Forall_app in Hcs as [?Hc Hcs]).
    assert (Hst : ∀ a, structural a → v a = with_least_violations v a)
      by (intros a Ha; by apply agree_not_penalty, structural_not_penalty).
    repeat apply Forall_app_2.
    + eapply Forall_holds_agree; [exact Hst|apply one_team_footprint|done].
    + eapply Forall_holds_agree; [exact Hst|apply role_footprint|done].
    + eapply Forall_holds_agree; [exact Hst|by eapply preset_footprint|done].
    + eapply Forall_holds_agree; [exact Hst|apply score_footprint|done].
    + apply Forall_join, Forall_fmap, Forall_forall. intros t Ht. simpl.
      eapply (Forall_holds_agree v); [|apply deviation_footprint|].
      * intros a [-> | [-> | ->]]; done.
      * apply Forall_forall. intros c Hin. rewrite Forall_forall in Hc3. apply Hc3.
        apply list_elem_of_join. eexists. split; [exact Hin|].
        apply list_elem_of_fmap. by exists t.
    + eapply Forall_holds_agree; [exact Hst|apply conflict_footprint|done].
    + eapply Forall_holds_agree; [exact Hst|apply captain_count_footprint|done].
    + destruct Hcp as [[_ ->]|[_ ->]]; apply Forall_fmap, Forall_forall;
        intros t Ht; unfold holds, eval; simpl; specialize (Hcount t Ht).
      * destruct (1 <=? v (c_t_ t)) eqn:E; [apply Z.leb_le in E|apply Z.leb_gt in E]; lia.
      * lia.
Qed.

(** ** When the builder succeeds *)

(** A weight of at most [C] in absolute value, [100 * C <= 2^53], is
    converted without error. *)
Lemma penalty_check_bounded (w : Q) (pts : list Var) (C : Z) :
  100 * C <= 2 ^ 53 → (Qabs w <= inject_Z C)%Q → penalty_check w pts = Ok ().
Proof.
  intros HC Hw. unfold penalty_check. destruct (penalised w pts); [|done].
  assert (H0 : 0 <= C).
  { rewrite Zle_Qle. eapply Qle_trans; [apply Qabs_nonneg|exact Hw]. }
  unfold scaled_weight.
  destruct (to_float_bounded w C ltac:(lia) Hw) as [E B1]. rewrite E. cbn [fmul].
  change (inject_Z SCALE) with 100%Q.
  assert (H100 : (Qabs 100 <= inject_Z 100)%Q) by (vm_compute; congruence).
  destruct (to_float_bounded (round53 w * 100) (C * 100) ltac:(lia)
              (Qabs_mult_le _ _ _ _ B1 H100)) as [E2 _].
  rewrite E2. done.
Qed.

Lemma minimize_linear (obj : list (Q * list Var)) :
  Forall (λ ot, ot.2 ≠ []) obj → minimize obj = Ok ().
Proof.
  intros H. unfold minimize. destruct H as [|[c [|a l]] obj Hne _]; [done| |done].
  by destruct Hne.
Qed.

Lemma objective_linear bw cw kw tids cts pts :
  tids ≠ [] → Forall (λ ot : Q * list Var, ot.2 ≠ []) (objective bw cw kw tids cts pts).
Proof.
  intros Ht. unfold objective, balance_term, penalty_term, penalised.
  repeat apply Forall_app_2.
  - destruct (nonzero bw); repeat constructor. simpl. by destruct tids.
  - destruct (negb _); [|constructor]. destruct cts; repeat constructor. done.
  - destruct (negb _); [|constructor]. destruct pts; repeat constructor. done.
Qed.

Lemma team_ids_nonempty T : 0 < T → team_ids T ≠ [].
Proof.
  intros HT. unfold team_ids. destruct (Z.to_nat T) eqn:E; [lia|done].
Qed.

Lemma build_model_intro inp pcs cp :
  0 <= random_seed inp < 2 ^ 31 →
  preset_constraints (name_to_idx (df inp)) (num_teams inp) (presets inp) = Ok pcs →
  num_teams inp ≠ 0 →
  captain_part (captain_policy inp) (captain_hard inp) (count_captains inp)
    (num_teams inp) (num_roles inp) (team_ids (num_teams inp)) = Ok cp →
  penalty_check (conflict_weight inp)
    (conflict_terms (avoid_pairs (df inp)) (team_ids (num_teams inp))) = Ok () →
  penalty_check (captain_weight inp) (captain_penalty_terms cp) = Ok () →
  minimize (obj_terms (b_model (assemble inp pcs (target_of inp) cp))) = Ok () →
  build_model inp = Ok (assemble inp pcs (target_of inp) cp).
Proof.
  intros Hseed Hpcs Hnz Hcp Hc1 Hc2 Hmin.
  unfold build_model, default_rng, floordiv, set_random_seed.
  destruct (Z.ltb_spec (random_seed inp) 0); [lia|]. simpl. rewrite Hpcs. simpl.
  destruct (Z.eqb_spec (num_teams inp) 0); [done|]. simpl. rewrite Hcp. simpl.
  rewrite Hc1. simpl. rewrite Hc2. simpl.
  unfold target_of in Hmin. simpl in Hmin. rewrite Hmin. simpl.
  destruct (Z.leb_spec (- 2 ^ 31) (random_seed inp)); [|lia].
  destruct (Z.ltb_spec (random_seed inp) (2 ^ 31)); [|lia]. done.
Qed.

Lemma captain_part_known policy hard ncap T R tids :
  policy ∈ ["none"; "at_least_one"; "separate"] →
  ∃ cp, captain_part policy hard ncap T R tids = Ok cp.
Proof.
  intros H. unfold captain_part. rewrite bool_decide_eq_true_2 by done.
  repeat (destruct (bool_decide _); [by eexists|]). by eexists.
Qed.

(** The builder succeeds on a seed of 31 bits, presets that name roster
    players and teams, a positive number of teams, a known policy and penalty
    weights of at most [2^53 / 100] in absolute value. *)
Lemma build_model_succeeds inp pcs (C K : Z) :
  0 <= random_seed inp < 2 ^ 31 →
  preset_constraints (name_to_idx (df inp)) (num_teams inp) (presets inp) = Ok pcs →
  0 < num_teams inp →
  captain_policy inp ∈ ["none"; "at_least_one"; "separate"] →
  100 * C <= 2 ^ 53 → (Qabs (conflict_weight inp) <= inject_Z C)%Q →
  100 * K <= 2 ^ 53 → (Qabs (captain_weight inp) <= inject_Z K)%Q →
  ∃ cp, captain_part (captain_policy inp) (captain_hard inp) (count_captains inp)
          (num_teams inp) (num_roles inp) (team_ids (num_teams inp)) = Ok cp ∧
        build_model inp = Ok (assemble inp pcs (target_of inp) cp).
Proof.
  intros Hseed Hpcs HT Hpol HC Hcw HK Hkw.
  destruct (captain_part_known (captain_policy inp) (captain_hard inp)
              (count_captains inp) (num_teams inp) (num_roles inp)
              (team_ids (num_teams inp)) Hpol) as [cp Hcp].
  exists cp. split; [done|].
  apply build_model_intro; try done; try lia.
  - by apply (penalty_check_bounded _ _ C).
  - by apply (penalty_check_bounded _ _ K).
  - simpl. apply minimize_linear, objective_linear. by apply team_ids_nonempty.
Qed.

Lemma pin_not_bound p t tids : Forall not_captain_bound (pin p t tids).
Proof. unfold pin. apply Forall_fmap, Forall_forall. by intros. Qed.

Lemma preset_not_bound idx T ps pcs :
  preset_constraints idx T ps = Ok pcs → Forall not_captain_bound pcs.
Proof.
  revert pcs. induction ps as [|[n0 t0] ps IH]; intros pcs; simpl.
  - intros [= <-]. constructor.
  - destruct (idx !! n0); [|discriminate].
    destruct (negb _); [discriminate|].
    destruct (preset_constraints idx T ps) as [cs|]; [|discriminate]. simpl.
    intros [= <-]. apply Forall_app_2; [apply pin_not_bound|by apply IH].
Qed.

(** Apart from what the captain policy adds, no constraint of the model
    bounds a captain count. *)
Lemma model_without_bounds inp pcs target cp :
  preset_constraints (name_to_idx (df inp)) (num_teams inp) (presets inp) = Ok pcs →
  Forall not_captain_bound (cp_constraints cp) →
  Forall not_captain_bound (constraints (b_model (assemble inp pcs target cp))).
Proof.
  intros Hpcs Hcp. simpl. repeat apply Forall_app_2; try done.
  - apply Forall_fmap, Forall_forall. by intros.
  - apply Forall_join, Forall_fmap, Forall_forall. intros t _.
    apply Forall_fmap, Forall_forall. by intros.
  - by eapply preset_not_bound.
  - apply Forall_fmap, Forall_forall. by intros.
  - apply Forall_join, Forall_fmap, Forall_forall. intros t _.
    repeat constructor; simpl; intros t'; discriminate.
  - apply Forall_join, Forall_forall.
    intros l (k & ab & -> & _)%elem_of_lookup_imap.
    apply Forall_join, Forall_fmap, Forall_forall. intros t _.
    repeat constructor; simpl; intros t'; discriminate.
  - apply Forall_fmap, Forall_forall. by intros.
Qed.

Lemma objective_captain_term bw cw kw tids cts pts :
  penalised kw pts = true →
  (inject_Z (coefficient kw), pts) ∈ objective bw cw kw tids cts pts.
Proof.
  intros H1. unfold objective, penalty_term. rewrite H1.
  apply elem_of_app. right. apply elem_of_app. right. by left.
Qed.

(** The part a downgraded policy adds. *)
Lemma at_least_one_downgraded ncap T tids :
  ncap < T →
  at_least_one_part true ncap T tids
  = {| cp_variables := (λ t, (m_t_ t, (0, 1))) <$> tids;
       cp_constraints :=
         (λ t, GeC (var_e (m_t_ t)) {| terms := [(-1, c_t_ t)]; const := 1 |}) <$> tids;
       captain_penalty_terms := m_t_ <$> tids;
       cp_warnings := [warn_at_least_one] |}.
Proof.
  intros H. unfold at_least_one_part. simpl.
  destruct (Z.ltb_spec ncap T); [done|lia].
Qed.

Lemma separate_downgraded ncap T R tids :
  T < ncap →
  separate_part true ncap T R tids
  = {| cp_variables := (λ t, (k_t_ t, (0, R))) <$> tids;
       cp_constraints :=
         (λ t, GeC (var_e (k_t_ t)) {| terms := [(1, c_t_ t)]; const := -1 |}) <$> tids;
       captain_penalty_terms := k_t_ <$> tids;
       cp_warnings := [warn_separate] |}.
Proof.
  intros H. unfold separate_part. simpl.
  destruct (Z.ltb_spec T ncap); [done|lia].
Qed.

Lemma outcome_warnings solve inp out diag b :
  build_model inp = Ok b →
  outcome (build_and_solve solve inp) = Ok (out, diag) →
  feasibility_warnings diag = b_warnings b.
Proof.
  intros Hb (b' & Hb' & _ & Hex)%build_and_solve_inv.
  assert (b' = b) as -> by congruence.
  apply extract_inv in Hex as (teams & _ & _ & ->). done.
Qed.

Lemma usable_returns solve inp b :
  solver_sound solve → build_model inp = Ok b →
  usable (solve (b_model b) (solver_params inp)).1 = true →
  ∃ out diag, outcome (build_and_solve solve inp) = Ok (out, diag).
Proof.
  intros Hsound Hb Hu. unfold build_and_solve. rewrite Hb. simpl. rewrite Hu.
  pose proof (Hsound _ _ Hu) as Hsat.
  pose proof Hb as (pcs & cp & _ & _ & _ & _ & ->)%build_model_inv.
  destruct (team_column_succeeds _ _ _ _ _ Hsat) as [teams Hteams].
  unfold extract. rewrite Hteams. simpl. by do 2 eexists.
Qed.

(** What the captain policy adds in each of the four hard cases. *)
Lemma at_least_one_cases ncap T tids :
  (ncap < T →
     cp_warnings (at_least_one_part true ncap T tids) = [warn_at_least_one] ∧
     cp_variables (at_least_one_part true ncap T tids)
       = cp_variables (at_least_one_part false ncap T tids) ∧
     cp_constraints (at_least_one_part true ncap T tids)
       = cp_constraints (at_least_one_part false ncap T tids) ∧
     captain_penalty_terms (at_least_one_part true ncap T tids)
       = captain_penalty_terms (at_least_one_part false ncap T tids)) ∧
  (¬ ncap < T →
     cp_warnings (at_least_one_part true ncap T tids) = [] ∧
     cp_constraints (at_least_one_part true ncap T tids)
       = (λ t, GeC (var_e (c_t_ t)) (const_e 1)) <$> tids).
Proof.
  unfold at_least_one_part. simpl.
  destruct (Z.ltb_spec ncap T); split; intros ?; try lia; done.
Qed.

Lemma separate_cases ncap T R tids :
  (T < ncap →
     cp_warnings (separate_part true ncap T R tids) = [warn_separate] ∧
     cp_variables (separate_part true ncap T R tids)
       = cp_variables (separate_part false ncap T R tids) ∧
     cp_constraints (separate_part true ncap T R tids)
       = cp_constraints (separate_part false ncap T R tids) ∧
     captain_penalty_terms (separate_part true ncap T R tids)
       = captain_penalty_terms (separate_part false ncap T R tids)) ∧
  (¬ T < ncap →
     cp_warnings (separate_part true ncap T R tids) = [] ∧
     cp_constraints (separate_part true ncap T R tids)
       = (λ t, LeC (var_e (c_t_ t)) (const_e 1)) <$> tids).
Proof.
  unfold separate_part. simpl.
  destruct (Z.ltb_spec T ncap); split; intros ?; try lia; done.
Qed.

Lemma hard_policy_part inp cp :
  captain_hard inp = true →
  captain_policy inp = "at_least_one" ∨ captain_policy inp = "separate" →
  captain_part (captain_policy inp) (captain_hard inp) (count_captains inp)
    (num_teams inp) (num_roles inp) (team_ids (num_teams inp)) = Ok cp →
  (pigeonhole_infeasible inp →
     ∃ cp', captain_part (captain_policy inp) false (count_captains inp)
              (num_teams inp) (num_roles inp) (team_ids (num_teams inp)) = Ok cp' ∧
            cp_warnings cp = [downgrade_warning inp] ∧ cp_warnings cp' = [] ∧
            cp_variables cp = cp_variables cp' ∧
            cp_constraints cp = cp_constraints cp' ∧
            captain_penalty_terms cp = captain_penalty_terms cp' ∧
            ((cp_variables cp = (λ t, (m_t_ t, (0, 1))) <$> team_ids (num_teams inp) ∧
              cp_constraints cp =
                (λ t, GeC (var_e (m_t_ t)) {| terms := [(-1, c_t_ t)]; const := 1 |})
                  <$> team_ids (num_teams inp)) ∨
             (cp_variables cp
                = (λ t, (k_t_ t, (0, num_roles inp))) <$> team_ids (num_teams inp) ∧
              cp_constraints cp =
                (λ t, GeC (var_e (k_t_ t)) {| terms := [(1, c_t_ t)]; const := -1 |})
                  <$> team_ids (num_teams inp)))) ∧
  (¬ pigeonhole_infeasible inp →
     cp_warnings cp = [] ∧
     ((captain_policy inp = "at_least_one" ∧
       cp_constraints cp
         = (λ t, GeC (var_e (c_t_ t)) (const_e 1)) <$> team_ids (num_teams inp)) ∨
      (captain_policy inp = "separate" ∧
       cp_constraints cp
         = (λ t, LeC (var_e (c_t_ t)) (const_e 1)) <$> team_ids (num_teams inp)))).
Proof.
  intros Hhard Hpol Hcp. rewrite Hhard in Hcp.
  unfold pigeonhole_infeasible, downgrade_warning.
  destruct Hpol as [Hp|Hp]; rewrite Hp in Hcp |- *.
  - rewrite captain_part_at_least_one in Hcp. injection Hcp as <-.
    destruct (at_least_one_cases (count_captains inp) (num_teams inp)
                (team_ids (num_teams inp))) as [Hdown Hkeep].
    split.
    + intros [[_ Hlt]|[Habs _]]; [|discriminate Habs].
      destruct (Hdown Hlt) as (Hw & Hv & Hc & Ht).
      exists (at_least_one_part false (count_captains inp) (num_teams inp)
                (team_ids (num_teams inp))).
      rewrite captain_part_at_least_one.
      repeat split; try done. left. rewrite Hv, Hc. done.
    + intros Hnot. destruct Hkeep as [Hw Hc]; [intros Hlt; apply Hnot; by left|].
      split; [done|]. by left.
  - rewrite captain_part_separate in Hcp. injection Hcp as <-.
    destruct (separate_cases (count_captains inp) (num_teams inp) (num_roles inp)
                (team_ids (num_teams inp))) as [Hdown Hkeep].
    split.
    + intros [[Habs _]|[_ Hlt]]; [discriminate Habs|].
      destruct (Hdown Hlt) as (Hw & Hv & Hc & Ht).
      exists (separate_part false (count_captains inp) (num_teams inp) (num_roles inp)
                (team_ids (num_teams inp))).
      rewrite captain_part_separate.
      repeat split; try done. right. rewrite Hv, Hc. done.
    + intros Hnot. destruct Hkeep as [Hw Hc]; [intros Hlt; apply Hnot; by right|].
      split; [done|]. by right.
Qed.


(** What the builder produces under a hard policy that cannot be met. *)
Lemma downgraded_build (inp : Inputs) (b : Built) :
  captain_hard inp = true →
  captain_policy inp = "at_least_one" ∨ captain_policy inp = "separate" →
  pigeonhole_infeasible inp →
  build_model inp = Ok b →
  let tids := team_ids (num_teams inp) in
        b_warnings b = [downgrade_warning inp] ∧
        (captain_policy inp = "at_least_one" →
           (∀ t, t ∈ tids →
              (GeC (var_e (c_t_ t)) (const_e 1) ∉ constraints (b_model b)) ∧
              (m_t_ t, (0, 1)) ∈ variables (b_model b) ∧
              GeC (var_e (m_t_ t)) {| terms := [(-1, c_t_ t)]; const := 1 |}
                ∈ constraints (b_model b) ∧
              ∀ v, satisfies v (b_model b) →
                   0 <= v (m_t_ t) <= 1 ∧ (v (c_t_ t) < 1 → v (m_t_ t) = 1)) ∧
           (0 < num_teams inp → (pow2 (-1074) <= Qabs (captain_weight inp))%Q →
              ∃ (c : Z) (x y : Q),
                (inject_Z c, m_t_ <$> tids) ∈ obj_terms (b_model b) ∧
                nearest_double x (captain_weight inp) ∧
                nearest_double y (x * 100) ∧ integer_part y c)) ∧
        (captain_policy inp = "separate" →
           (∀ t, t ∈ tids →
              (LeC (var_e (c_t_ t)) (const_e 1) ∉ constraints (b_model b)) ∧
              (k_t_ t, (0, num_roles inp)) ∈ variables (b_model b) ∧
              GeC (var_e (k_t_ t)) {| terms := [(1, c_t_ t)]; const := -1 |}
                ∈ constraints (b_model b) ∧
              ∀ v, satisfies v (b_model b) →
                   0 <= v (k_t_ t) <= num_roles inp ∧ v (c_t_ t) - 1 <= v (k_t_ t)) ∧
           (0 < num_teams inp → (pow2 (-1074) <= Qabs (captain_weight inp))%Q →
              ∃ (c : Z) (x y : Q),
                (inject_Z c, k_t_ <$> tids) ∈ obj_terms (b_model b) ∧
                nearest_double x (captain_weight inp) ∧
                nearest_double y (x * 100) ∧ integer_part y c)) ∧
        build_model (set_policy inp (captain_policy inp) false)
          = Ok {| b_model := b_model b; b_target := b_target b;
                  b_num_captains := b_num_captains b; b_warnings := [] |} ∧
        (∀ b0 v, build_model (set_policy inp "none" false) = Ok b0 →
                 satisfies v (b_model b0) →
                 satisfies (with_least_violations v) (b_model b)).
Proof.
  intros Hhard Hpol Hinf Hb tids.
  pose proof Hb as (pcs & cp & -> & Hpcs & Hnz & Hcp & Hck1 & Hck2 & Hmin & Hseed)
    %build_model_checks.
  rewrite Hhard in Hcp.
  destruct Hpol as [Hp|Hp].
  - assert (Hlt : count_captains inp < num_teams inp).
    { destruct Hinf as [[_ H]|[H _]]; [done|]. rewrite Hp in H. discriminate. }
    rewrite Hp, captain_part_at_least_one, at_least_one_downgraded in Hcp by done.
    injection Hcp as <-.
    set (cp := {| cp_variables := _; cp_constraints := _;
                  captain_penalty_terms := m_t_ <$> team_ids (num_teams inp);
                  cp_warnings := _ |}) in *.
    assert (Hnb : Forall not_captain_bound (cp_constraints cp)).
    { simpl. apply Forall_fmap, Forall_forall. intros t' _ t''. discriminate. }
    split; [|split; [|split; [|split]]].
    + simpl. unfold downgrade_warning. by rewrite bool_decide_eq_true_2.
    + intros _. split.
      * intros t Ht.
        assert (Hvar : (m_t_ t, (0, 1)) ∈ variables (b_model (assemble inp pcs (target_of inp) cp))).
        { simpl. rewrite !elem_of_app. do 6 right. apply list_elem_of_fmap. by exists t. }
        assert (Hcon : GeC (var_e (m_t_ t)) {| terms := [(-1, c_t_ t)]; const := 1 |}
                       ∈ constraints (b_model (assemble inp pcs (target_of inp) cp))).
        { simpl. rewrite !elem_of_app. do 7 right. apply list_elem_of_fmap. by exists t. }
        split; [|split; [done|split; [done|]]].
        -- intros Hin.
           pose proof (model_without_bounds inp pcs (target_of inp) cp Hpcs Hnb) as Hall.
           rewrite Forall_forall in Hall. apply Hall in Hin. by apply (Hin t).
        -- intros v [Hdom Hcs]. rewrite Forall_forall in Hdom. rewrite Forall_forall in Hcs.
           apply Hdom in Hvar. apply Hcs in Hcon.
           unfold in_domain in Hvar. unfold holds, eval in Hcon. simpl in Hvar, Hcon. lia.
      * intros HT Hkw.
        assert (Hp' : penalised (captain_weight inp) (captain_penalty_terms cp) = true).
        { apply penalised_intro; [done|]. simpl.
          pose proof (team_ids_nonempty _ HT). by destruct (team_ids (num_teams inp)). }
        destruct (penalty_check_coefficient _ _ Hp' Hck2) as (x & y & Hx & Hy & Hc).
        exists (coefficient (captain_weight inp)), x, y.
        split; [simpl; by apply objective_captain_term|done].
    + intros H. rewrite Hp in H. discriminate.
    + rewrite (build_model_intro (set_policy inp (captain_policy inp) false) pcs
                 (at_least_one_part false (count_captains inp) (num_teams inp)
                    (team_ids (num_teams inp)))); try done.
      simpl. by rewrite Hp.
    + intros b0 v Hb0 Hsat0.
      apply build_model_inv in Hb0 as (pcs0 & cp0 & _ & Hpcs0 & _ & Hcp0 & ->).
      simpl in Hpcs0, Hcp0. rewrite captain_part_none in Hcp0.
      injection Hcp0 as <-.
      assert (pcs0 = pcs) as -> by congruence.
      apply soft_extension; [done| |done]. by left.
  - assert (Hlt : num_teams inp < count_captains inp).
    { destruct Hinf as [[H _]|[_ H]]; [|done]. rewrite Hp in H. discriminate. }
    rewrite Hp, captain_part_separate, separate_downgraded in Hcp by done.
    injection Hcp as <-.
    set (cp := {| cp_variables := _; cp_constraints := _;
                  captain_penalty_terms := k_t_ <$> team_ids (num_teams inp);
                  cp_warnings := _ |}) in *.
    assert (Hnb : Forall not_captain_bound (cp_constraints cp)).
    { simpl. apply Forall_fmap, Forall_forall. intros t' _ t''. discriminate. }
    split; [|split; [|split; [|split]]].
    + simpl. unfold downgrade_warning. rewrite Hp. by rewrite bool_decide_eq_false_2.
    + intros H. rewrite Hp in H. discriminate.
    + intros _. split.
      * intros t Ht.
        assert (Hvar : (k_t_ t, (0, num_roles inp))
                       ∈ variables (b_model (assemble inp pcs (target_of inp) cp))).
        { simpl. rewrite !elem_of_app. do 6 right. apply list_elem_of_fmap. by exists t. }
        assert (Hcon : GeC (var_e (k_t_ t)) {| terms := [(1, c_t_ t)]; const := -1 |}
                       ∈ constraints (b_model (assemble inp pcs (target_of inp) cp))).
        { simpl. rewrite !elem_of_app. do 7 right. apply list_elem_of_fmap. by exists t. }
        split; [|split; [done|split; [done|]]].
        -- intros Hin.
           pose proof (model_without_bounds inp pcs (target_of inp) cp Hpcs Hnb) as Hall.
           rewrite Forall_forall in Hall. apply Hall in Hin. by apply (Hin t).
        -- intros v [Hdom Hcs]. rewrite Forall_forall in Hdom. rewrite Forall_forall in Hcs.
           apply Hdom in Hvar. apply Hcs in Hcon.
           unfold in_domain in Hvar. unfold holds, eval in Hcon. simpl in Hvar, Hcon. lia.
      * intros HT Hkw.
        assert (Hp' : penalised (captain_weight inp) (captain_penalty_terms cp) = true).
        { apply penalised_intro; [done|]. simpl.
          pose proof (team_ids_nonempty _ HT). by destruct (team_ids (num_teams inp)). }
        destruct (penalty_check_coefficient _ _ Hp' Hck2) as (x & y & Hx & Hy & Hc).
        exists (coefficient (captain_weight inp)), x, y.
        split; [simpl; by apply objective_captain_term|done].
    + rewrite (build_model_intro (set_policy inp (captain_policy inp) false) pcs
                 (separate_part false (count_captains inp) (num_teams inp)
                    (num_roles inp) (team_ids (num_teams inp)))); try done.
      simpl. by rewrite Hp.
    + intros b0 v Hb0 Hsat0.
      apply build_model_inv in Hb0 as (pcs0 & cp0 & _ & Hpcs0 & _ & Hcp0 & ->).
      simpl in Hpcs0, Hcp0. rewrite captain_part_none in Hcp0.
      injection Hcp0 as <-.
      assert (pcs0 = pcs) as -> by congruence.
      apply soft_extension; [done| |done]. by right.
Qed.

(** C2.  Under a hard [at_least_one] or [separate] policy.  When the captain
    count makes the hard bound impossible, the builder records exactly one
    warning, which every returned diagnostics carries; the hard bound is not
    among the constraints of the model; instead every team has a violation
    variable of its own (0 or 1 under [at_least_one], 0 to the number of roles
    under [separate]) with the soft constraint ([m_t >= 1 - c_t], so that a
    team without captain pays 1; [k_t >= c_t - 1], so that every captain
    beyond the first is paid for), and, when there is a team and the captain
    weight is not read as zero, the objective has the sum of these variables
    with the coefficient [int(captain_weight * 100)]; the model is the one the
    soft policy builds, and the soft constraints cost no feasibility: a
    valuation that satisfies the model without captain policy, completed with
    the least violations, satisfies the model built.  Otherwise no warning is
    recorded and in every returned table each team meets the hard bound.  On
    a seed of 31 bits, valid presets, a positive number of teams and penalty
    weights of at most [2^53 / 100] the model is built, the engine is called
    once, and a result is returned whenever the engine reports a solution. *)
Theorem C2_captain_policy (inp : Inputs) :
  captain_hard inp = true →
  captain_policy inp = "at_least_one" ∨ captain_policy inp = "separate" →
  let tids := team_ids (num_teams inp) in
  (pigeonhole_infeasible inp →
     (∀ b, build_model inp = Ok b →
        b_warnings b = [downgrade_warning inp] ∧
        (captain_policy inp = "at_least_one" →
           (∀ t, t ∈ tids →
              (GeC (var_e (c_t_ t)) (const_e 1) ∉ constraints (b_model b)) ∧
              (m_t_ t, (0, 1)) ∈ variables (b_model b) ∧
              GeC (var_e (m_t_ t)) {| terms := [(-1, c_t_ t)]; const := 1 |}
                ∈ constraints (b_model b) ∧
              ∀ v, satisfies v (b_model b) →
                   0 <= v (m_t_ t) <= 1 ∧ (v (c_t_ t) < 1 → v (m_t_ t) = 1)) ∧
           (0 < num_teams inp → (pow2 (-1074) <= Qabs (captain_weight inp))%Q →
              ∃ (c : Z) (x y : Q),
                (inject_Z c, m_t_ <$> tids) ∈ obj_terms (b_model b) ∧
                nearest_double x (captain_weight inp) ∧
                nearest_double y (x * 100) ∧ integer_part y c)) ∧
        (captain_policy inp = "separate" →
           (∀ t, t ∈ tids →
              (LeC (var_e (c_t_ t)) (const_e 1) ∉ constraints (b_model b)) ∧
              (k_t_ t, (0, num_roles inp)) ∈ variables (b_model b) ∧
              GeC (var_e (k_t_ t)) {| terms := [(1, c_t_ t)]; const := -1 |}
                ∈ constraints (b_model b) ∧
              ∀ v, satisfies v (b_model b) →
                   0 <= v (k_t_ t) <= num_roles inp ∧ v (c_t_ t) - 1 <= v (k_t_ t)) ∧
           (0 < num_teams inp → (pow2 (-1074) <= Qabs (captain_weight inp))%Q →
              ∃ (c : Z) (x y : Q),
                (inject_Z c, k_t_ <$> tids) ∈ obj_terms (b_model b) ∧
                nearest_double x (captain_weight inp) ∧
                nearest_double y (x * 100) ∧ integer_part y c)) ∧
        build_model (set_policy inp (captain_policy inp) false)
          = Ok {| b_model := b_model b; b_target := b_target b;
                  b_num_captains := b_num_captains b; b_warnings := [] |} ∧
        (∀ b0 v, build_model (set_policy inp "none" false) = Ok b0 →
                 satisfies v (b_model b0) →
                 satisfies (with_least_violations v) (b_model b))) ∧
     (∀ solve out diag,
        outcome (build_and_solve solve inp) = Ok (out, diag) →
        feasibility_warnings diag = [downgrade_warning inp])) ∧
  (¬ pigeonhole_infeasible inp →
     ∀ solve out diag, solver_sound solve →
       outcome (build_and_solve solve inp) = Ok (out, diag) →
       feasibility_warnings diag = [] ∧ hard_bound_holds inp out) ∧
  (∀ solve pcs (C K : Z), solver_sound solve →
     0 <= random_seed inp < 2 ^ 31 →
     preset_constraints (name_to_idx (df inp)) (num_teams inp) (presets inp) = Ok pcs →
     0 < num_teams inp →
     100 * C <= 2 ^ 53 → (Qabs (conflict_weight inp) <= inject_Z C)%Q →
     100 * K <= 2 ^ 53 → (Qabs (captain_weight inp) <= inject_Z K)%Q →
     ∃ b, build_model inp = Ok b ∧
          solver_calls (build_and_solve solve inp) = [(b_model b, solver_params inp)] ∧
          (usable (solve (b_model b) (solver_params inp)).1 = true →
           ∃ out diag, outcome (build_and_solve solve inp) = Ok (out, diag))).
Proof.
  intros Hhard Hpol tids. split; [|split].
  - intros Hinf.
    split.
    + intros b Hb. by apply downgraded_build.
    + intros solve out diag Hres.
      pose proof Hres as (b & Hb & _)%build_and_solve_inv.
      rewrite (outcome_warnings _ _ _ _ _ Hb Hres).
      by apply (downgraded_build inp b).
  - intros Hfeas solve out diag Hsound Hres.
    destruct (solved_inv _ _ _ _ Hsound Hres)
      as (pcs & cp & st & v & Hb & _ & Hcp & _ & _ & _ & Hsat & Hex).
    destruct (hard_policy_part inp cp Hhard Hpol Hcp) as [_ Hkeep].
    destruct (Hkeep Hfeas) as [Hw Hcs].
    split; [by rewrite (outcome_warnings _ _ _ _ _ Hb Hres)|].
    apply extract_rows in Hex as ->.
    intros t Ht.
    assert (Hid : Z.to_nat (t - 1) ∈ team_ids (num_teams inp))
      by (apply elem_of_team_ids; lia).
    assert (Et : Z.of_nat (Z.to_nat (t - 1)) + 1 = t) by lia.
    pose proof (captain_count_on_team _ _ _ _ _ Hsat _ Hid) as Hcount.
    rewrite Et in Hcount. rewrite <- Hcount.
    pose proof (sol_captain_part _ _ _ _ _ Hsat) as Hall.
    rewrite Forall_forall in Hall.
    destruct Hcs as [[Hp Hc]|[Hp Hc]]; rewrite Hc in Hall; rewrite Hp.
    + split; [intros _|discriminate].
      specialize (Hall (GeC (var_e (c_t_ (Z.to_nat (t - 1)))) (const_e 1))).
      simpl in Hall. rewrite eval_var_e in Hall. apply Hall.
      apply list_elem_of_fmap. by eexists.
    + split; [discriminate|intros _].
      specialize (Hall (LeC (var_e (c_t_ (Z.to_nat (t - 1)))) (const_e 1))).
      simpl in Hall. rewrite eval_var_e in Hall. apply Hall.
      apply list_elem_of_fmap. by eexists.
  - intros solve pcs C K Hsound Hseed Hpcs HT HC Hcw HK Hkw.
    assert (Hknown : captain_policy inp ∈ ["none"; "at_least_one"; "separate"])
      by (destruct Hpol as [-> | ->]; rewrite !elem_of_cons; auto).
    destruct (build_model_succeeds inp pcs C K Hseed Hpcs HT Hknown HC Hcw HK Hkw)
      as (cp & _ & Hb).
    eexists. split; [exact Hb|]. split.
    + unfold build_and_solve. by rewrite Hb.
    + intros Hu. by eapply usable_returns.
Qed.

Example one_captain_outcome :
  outcome (build_and_solve (checked FEASIBLE split_one_captain) scenario_one_captain)
  = Ok (one_captain_out, one_captain_diag).
Proof. vm_compute. reflexivity. Qed.

(** The objectives of the two downgraded scenarios: the balance term, and
    the violations with the coefficient 500 for the captain weight 5. *)
Example downgraded_objectives :
  (∃ b, build_model scenario_one_captain = Ok b ∧
        obj_terms (b_model b) = [(1%Q, [d_ 0; d_ 1]); (500%Q, [m_t_ 0; m_t_ 1])]%nat) ∧
  (∃ b, build_model scenario_three_captains = Ok b ∧
        obj_terms (b_model b) = [(1%Q, [d_ 0; d_ 1]); (500%Q, [k_t_ 0; k_t_ 1])]%nat).
Proof. split; eexists; split; vm_compute; reflexivity. Qed.

Example three_captains_outcome :
  outcome (build_and_solve (checked FEASIBLE split_three_captains)
             scenario_three_captains)
  = Ok (three_captains_out, three_captains_diag).
Proof. vm_compute. reflexivity. Qed.

Lemma C2_captain_policy_witness :
  (captain_hard scenario_one_captain = true ∧
   (captain_policy scenario_one_captain = "at_least_one" ∨
    captain_policy scenario_one_captain = "separate") ∧
   pigeonhole_infeasible scenario_one_captain ∧
   outcome (build_and_solve (checked FEASIBLE split_one_captain) scenario_one_captain)
     = Ok (one_captain_out, one_captain_diag) ∧
   feasibility_warnings one_captain_diag = [downgrade_warning scenario_one_captain]) ∧
  (captain_hard scenario_three_captains = true ∧
   (captain_policy scenario_three_captains = "at_least_one" ∨
    captain_policy scenario_three_captains = "separate") ∧
   pigeonhole_infeasible scenario_three_captains ∧
   outcome (build_and_solve (checked FEASIBLE split_three_captains)
              scenario_three_captains)
     = Ok (three_captains_out, three_captains_diag) ∧
   feasibility_warnings three_captains_diag
     = [downgrade_warning scenario_three_captains]) ∧
  (¬ pigeonhole_infeasible scenario ∧
   feasibility_warnings scenario_diag = [] ∧ hard_bound_holds scenario scenario_out) ∧
  (∃ b, build_model scenario_three_captains = Ok b ∧
        solver_calls (build_and_solve (checked FEASIBLE split_three_captains)
                        scenario_three_captains)
        = [(b_model b, solver_params scenario_three_captains)]).
Proof.
  assert (Hh : captain_hard scenario_one_captain = true) by reflexivity.
  assert (Hp : captain_policy scenario_one_captain = "at_least_one" ∨
               captain_policy scenario_one_captain = "separate") by (left; reflexivity).
  assert (Hi : pigeonhole_infeasible scenario_one_captain)
    by (left; split; [reflexivity|vm_compute; reflexivity]).
  assert (Ho : outcome (build_and_solve (checked FEASIBLE split_one_captain)
                          scenario_one_captain)
               = Ok (one_captain_out, one_captain_diag)) by (vm_compute; reflexivity).
  destruct (C2_captain_policy scenario_one_captain Hh Hp) as (Hdown & _ & _).
  destruct (Hdown Hi) as [_ Hwarn].
  assert (Hh3 : captain_hard scenario_three_captains = true) by reflexivity.
  assert (Hp3 : captain_policy scenario_three_captains = "at_least_one" ∨
                captain_policy scenario_three_captains = "separate")
    by (right; reflexivity).
  assert (Hi3 : pigeonhole_infeasible scenario_three_captains)
    by (right; split; [reflexivity|vm_compute; reflexivity]).
  assert (Ho3 : outcome (build_and_solve (checked FEASIBLE split_three_captains)
                           scenario_three_captains)
                = Ok (three_captains_out, three_captains_diag))
    by (vm_compute; reflexivity).
  destruct (C2_captain_policy scenario_three_captains Hh3 Hp3) as (Hdown3 & _ & Hrun3).
  destruct (Hdown3 Hi3) as [_ Hwarn3].
  destruct (Hrun3 (checked FEASIBLE split_three_captains) [] 5 5)
    as (b3 & Hb3 & Hcalls3 & _);
    [apply checked_sound | simpl; lia | reflexivity | simpl; lia
    | vm_compute; discriminate | vm_compute; discriminate
    | vm_compute; discriminate | vm_compute; discriminate |].
  assert (Hn : ¬ pigeonhole_infeasible scenario).
  { intros [[_ Hlt]|[Habs _]]; [|discriminate Habs]. vm_compute in Hlt. discriminate. }
  assert (Hs : solver_sound (checked OPTIMAL split_35_35)) by apply checked_sound.
  assert (Ho' : outcome (build_and_solve (checked OPTIMAL split_35_35) scenario)
                = Ok (scenario_out, scenario_diag)) by (vm_compute; reflexivity).
  destruct (C2_captain_policy scenario eq_refl (or_introl eq_refl)) as (_ & Hkeep & _).
  exact (conj (conj Hh (conj Hp (conj Hi (conj Ho (Hwarn _ _ _ Ho)))))
          (conj (conj Hh3 (conj Hp3 (conj Hi3 (conj Ho3 (Hwarn3 _ _ _ Ho3)))))
             (conj (conj Hn (Hkeep Hn _ _ _ Hs Ho'))
                (ex_intro _ b3 (conj Hb3 Hcalls3))))).
Defined.

(** * Further properties of [build_and_solve] *)

(** ** The name index on duplicated names *)

Lemma index_names_last i names (m : gmap string nat) n j :
  index_names i names m !! n = Some j →
  (m !! n = Some j ∧ n ∉ names) ∨
  (∃ k, names !! k = Some n ∧ j = (i + k)%nat ∧
        ∀ k', (k < k')%nat → names !! k' ≠ Some n).
Proof.
  revert i m. induction names as [|a names IH]; intros i m; simpl.
  - intros H. left. split; [done|]. apply not_elem_of_nil.
  - intros [[Hm Hnot]|(k & Hk & -> & Hlast)]%IH.
    + destruct (decide (a = n)) as [->|Hne].
      * rewrite lookup_insert_eq in Hm. injection Hm as <-.
        right. exists 0%nat. split; [done|]. split; [lia|].
        intros [|k'] Hlt; [lia|]. simpl. intros Hk'.
        apply Hnot. by eapply list_elem_of_lookup_2.
      * rewrite lookup_insert_ne in Hm by done. left. split; [done|].
        rewrite not_elem_of_cons. split; [congruence|done].
    + right. exists (S k). split; [done|]. split; [lia|].
      intros [|k'] Hlt; [lia|]. simpl. apply Hlast. lia.
Qed.

(** X1.  The name index maps a name to the last row that carries it: a
    lookup gives [i] exactly when row [i] has the name and no later row
    has; a name of no row has no entry. *)
Theorem X1_name_index_last_wins (d : list Player) (n : string) (i : nat) :
  (name_to_idx d !! n = Some i ↔
     players d !! i = Some n ∧ ∀ j, (i < j)%nat → players d !! j ≠ Some n) ∧
  (name_to_idx d !! n = None ↔ n ∉ players d).
Proof.
  split; [|apply name_to_idx_None]. split.
  - unfold name_to_idx.
    intros [[Hm _]|(k & Hk & -> & Hlast)]%index_names_last.
    + by rewrite lookup_empty in Hm.
    + done.
  - intros [Hi Hlast].
    destruct (name_to_idx d !! n) as [i'|] eqn:E.
    + unfold name_to_idx in E.
      apply index_names_last in E as [[Hm _]|(k & Hk & -> & Hlast')].
      { by rewrite lookup_empty in Hm. }
      simpl. f_equal.
      destruct (Nat.lt_trichotomy k i) as [Hlt|[->|Hgt]]; [|done|].
      * by apply Hlast' in Hlt.
      * by apply Hlast in Hgt.
    + apply name_to_idx_None in E. exfalso. apply E.
      by eapply list_elem_of_lookup_2.
Qed.

Example name_index_duplicate :
  name_to_idx [player "A" 1 1 0 None; player "B" 2 1 0 None; player "A" 3 2 0 None]
    !! "A" = Some 2%nat.
Proof. vm_compute. reflexivity. Qed.

(** ** The whole table *)

Lemma Zsum_add_fmap {A} (f g : A → Z) (l : list A) :
  Zsum ((λ a, f a + g a) <$> l) = Zsum (f <$> l) + Zsum (g <$> l).
Proof.
  induction l as [|a l IH]; [done|]. rewrite !fmap_cons.
  change (Zsum ((f a + g a) :: ((λ a, f a + g a) <$> l)))
    with (f a + g a + Zsum ((λ a, f a + g a) <$> l)).
  change (Zsum (f a :: (f <$> l))) with (f a + Zsum (f <$> l)).
  change (Zsum (g a :: (g <$> l))) with (g a + Zsum (g <$> l)).
  rewrite IH. lia.
Qed.

Lemma Zsum_zero {A} (l : list A) : Zsum ((λ _, 0) <$> l) = 0.
Proof.
  induction l as [|a l IH]; [done|]. rewrite fmap_cons.
  change (Zsum (0 :: ((λ _ : A, 0) <$> l))) with (0 + Zsum ((λ _ : A, 0) <$> l)).
  by rewrite IH.
Qed.

(** Summing a quantity key by key gives its sum over the list, when every
    element has its key in the list of keys and no key is listed twice. *)
Lemma sum_over_keys {A K} `{!EqDecision K} (key : A → K) (w : A → Z)
    (l : list A) (keys : list K) :
  NoDup keys → Forall (λ a, key a ∈ keys) l →
  Zsum ((λ k, Zsum ((λ a, if bool_decide (key a = k) then w a else 0) <$> l)) <$> keys)
  = Zsum (w <$> l).
Proof.
  intros Hnd. induction l as [|a l IH]; intros Hall.
  - simpl. apply Zsum_zero.
  - apply Forall_cons in Hall as [Ha Hall].
    rewrite (Zsum_ext _ (λ k, (if bool_decide (key a = k) then w a else 0)
        + Zsum ((λ a, if bool_decide (key a = k) then w a else 0) <$> l)))
      by done.
    rewrite Zsum_add_fmap, IH by done.
    rewrite (Zsum_ext _ (λ k, (if bool_decide (key a = k) then 1 else 0) * w a)).
    2:{ intros k _. simpl. destruct (bool_decide _); lia. }
    rewrite (Zsum_one_hot_mul _ (λ _, w a) keys (key a)); try done.
    + by rewrite bool_decide_eq_true_2.
    + intros k _ Hne. by rewrite bool_decide_eq_false_2.
Qed.

Lemma elem_of_team_labels T z : z ∈ team_labels T ↔ 1 <= z <= T.
Proof.
  unfold team_labels. rewrite list_elem_of_fmap. split.
  - intros (t & -> & Ht%elem_of_team_ids). lia.
  - intros Hz. exists (Z.to_nat (z - 1)). split; [lia|].
    apply elem_of_team_ids. lia.
Qed.

Lemma NoDup_team_labels T : NoDup (team_labels T).
Proof.
  unfold team_labels. apply NoDup_fmap_2; [|apply NoDup_seq].
  intros a b. lia.
Qed.

(** Summing a quantity team by team gives its sum over the table. *)
Lemma sum_over_teams (w : OutRow → Z) (out : list OutRow) (T : Z) :
  Forall (λ o, 1 <= Team o <= T) out →
  Zsum ((λ t, Zsum ((λ o, if bool_decide (Team o = t) then w o else 0) <$> out))
          <$> team_labels T)
  = Zsum (w <$> out).
Proof.
  intros Hall. apply sum_over_keys; [apply NoDup_team_labels|].
  eapply Forall_impl; [exact Hall|]. intros o Ho. by apply elem_of_team_labels.
Qed.

(** What a returned table is: the input rows, labelled through a valuation
    that satisfies the model. *)
Lemma returned_table (solve : Solver) (inp : Inputs) out diag :
  solver_sound solve →
  outcome (build_and_solve solve inp) = Ok (out, diag) →
  ∃ pcs cp v,
    satisfies v (b_model (assemble inp pcs (target_of inp) cp)) ∧
    out = (λ p, Build_OutRow (df inp !!! p) (label v (team_ids (num_teams inp)) p))
            <$> seq 0 (num_players inp) ∧
    row <$> out = df inp ∧
    Forall (λ o, 1 <= Team o <= num_teams inp) out ∧
    feasibility_warnings diag = cp_warnings cp ∧
    num_captains diag = count_captains inp.
Proof.
  intros Hsound Hres.
  destruct (solved_inv _ _ _ _ Hsound Hres)
    as (pcs & cp & st & v & _ & _ & _ & _ & _ & _ & Hsat & Hex).
  pose proof (extract_rows _ _ _ _ _ _ Hex) as Hout.
  apply extract_inv in Hex as (teams & _ & _ & Hdiag).
  exists pcs, cp, v. split; [done|]. split; [done|]. rewrite Hout, Hdiag.
  split; [|split; [|done]].
  - rewrite <- list_fmap_compose. simpl.
    rewrite num_players_length. apply fmap_lookup_total_seq.
  - apply Forall_fmap, Forall_forall. intros p Hp%elem_of_seq. simpl.
    eapply label_range; [exact Hsat|lia].
Qed.

Lemma Zsum_const {A} (c : Z) (l : list A) :
  Zsum ((λ _, c) <$> l) = Z.of_nat (length l) * c.
Proof.
  induction l as [|a l IH]; [done|]. rewrite fmap_cons.
  change (Zsum (c :: ((λ _ : A, c) <$> l))) with (c + Zsum ((λ _ : A, c) <$> l)).
  rewrite IH. simpl length. lia.
Qed.

Lemma Zsum_count {A} (P : A → Prop) `{!∀ a, Decision (P a)} (l : list A) :
  Zsum ((λ a, if bool_decide (P a) then 1 else 0) <$> l)
  = Z.of_nat (length (filter P l)).
Proof.
  induction l as [|a l IH]; [done|]. rewrite fmap_cons, filter_cons.
  change (Zsum ((if bool_decide (P a) then 1 else 0)
                :: ((λ a, if bool_decide (P a) then 1 else 0) <$> l)))
    with ((if bool_decide (P a) then 1 else 0)
          + Zsum ((λ a, if bool_decide (P a) then 1 else 0) <$> l)).
  rewrite IH. destruct (decide (P a)).
  - rewrite bool_decide_eq_true_2 by done. simpl length. lia.
  - rewrite bool_decide_eq_false_2 by done. lia.
Qed.

Lemma Zsum_nonneg {A} (f : A → Z) (l : list A) :
  (∀ a, a ∈ l → 0 <= f a) → 0 <= Zsum (f <$> l).
Proof.
  induction l as [|a l IH]; intros H; [done|]. rewrite fmap_cons.
  change (Zsum (f a :: (f <$> l))) with (f a + Zsum (f <$> l)).
  pose proof (H a (list_elem_of_here _ _)).
  assert (0 <= Zsum (f <$> l)) by (apply IH; intros b Hb; apply H; by right). lia.
Qed.

Lemma length_team_labels T : length (team_labels T) = Z.to_nat T.
Proof. unfold team_labels, team_ids. by rewrite length_fmap, length_seq. Qed.

Section Slots.
Variables (inp : Inputs) (pcs : list Constraint) (target : Z) (cp : CaptainPart).
Variable v : Valuation.
Hypothesis Hsat : satisfies v (b_model (assemble inp pcs target cp)).

Let tids := team_ids (num_teams inp).
Let out := (λ p, Build_OutRow (df inp !!! p) (label v tids p))
             <$> seq 0 (num_players inp).

(** In the table, a team has exactly one row of each declared role. *)
Lemma slot_unique t r :
  1 <= t <= num_teams inp → r ∈ roles inp →
  length (filter (λ o, Position (row o) = r ∧ Team o = t) out) = 1%nat.
Proof.
  intros Ht Hr. unfold out. rewrite filter_fmap, length_fmap. simpl.
  assert (Hid : Z.to_nat (t - 1) ∈ team_ids (num_teams inp))
    by (apply elem_of_team_ids; lia).
  pose proof (role_slot_count _ _ _ _ _ Hsat (Z.to_nat (t - 1)) r Hid) as Hcount.
  rewrite elem_of_sorted_set in Hcount. specialize (Hcount Hr).
  replace (Z.of_nat (Z.to_nat (t - 1)) + 1) with t in Hcount by lia.
  exact Hcount.
Qed.

Lemma score_domain t : t ∈ tids → 0 <= v (s_ t) <= big.
Proof.
  intros Ht. destruct Hsat as [Hdom _]. simpl in Hdom.
  apply Forall_app in Hdom as [_ Hdom]. apply Forall_app in Hdom as [Hs _].
  rewrite Forall_forall in Hs. apply (Hs (s_ t, (0, big))).
  apply list_elem_of_fmap. by exists t.
Qed.
End Slots.

(** X2.  In a returned table nothing is lost and nothing is counted twice:
    the team totals of scaled weighted skill add up to the total over the
    roster, and the captain counts reported per team are those of the table
    and add up to the reported number of captains. *)
Theorem X2_totals_conserved (solve : Solver) (inp : Inputs) out diag :
  solver_sound solve →
  outcome (build_and_solve solve inp) = Ok (out, diag) →
  Zsum (team_total (role_weights inp) out <$> team_labels (num_teams inp))
    = total_score (scaled_ws (role_weights inp) (df inp)) ∧
  (∀ t, 1 <= t <= num_teams inp →
     captain_counts diag !! t = Some (captains_on_team out t)) ∧
  Zsum (captains_on_team out <$> team_labels (num_teams inp)) = num_captains diag.
Proof.
  intros Hsound Hres.
  destruct (returned_table _ _ _ _ Hsound Hres)
    as (pcs & cp & v & Hsat & Hout & Hrows & Hrange & _ & Hncap).
  split; [|split].
  - unfold team_total.
    rewrite (sum_over_teams (λ o, scaled_of (role_weights inp) (row o))) by done.
    rewrite (list_fmap_compose row (scaled_of (role_weights inp))), Hrows.
    by rewrite scaled_ws_rows.
  - intros t Ht.
    destruct (solved_inv _ _ _ _ Hsound Hres)
      as (pcs' & cp' & st & v' & _ & _ & _ & _ & _ & _ & Hsat' & Hex).
    pose proof (extract_rows _ _ _ _ _ _ Hex) as Hout'.
    apply extract_inv in Hex as (teams & _ & _ & ->). simpl.
    assert (Hid : Z.to_nat (t - 1) ∈ team_ids (num_teams inp))
      by (apply elem_of_team_ids; lia).
    assert (Et : Z.of_nat (Z.to_nat (t - 1)) + 1 = t) by lia.
    rewrite <- Et at 1. rewrite per_team_lookup by done.
    rewrite (captain_count_on_team _ _ _ _ _ Hsat' _ Hid), Et, Hout'. done.
  - unfold captains_on_team.
    rewrite (sum_over_teams (λ o, Captain (row o))) by done.
    rewrite (list_fmap_compose row Captain), Hrows, Hncap. done.
Qed.

Lemma X2_totals_conserved_witness :
  solver_sound (checked OPTIMAL split_35_35) ∧
  outcome (build_and_solve (checked OPTIMAL split_35_35) scenario)
    = Ok (scenario_out, scenario_diag) ∧
  Zsum (team_total (role_weights scenario) scenario_out
          <$> team_labels (num_teams scenario)) = 7000.
Proof.
  assert (Hs : solver_sound (checked OPTIMAL split_35_35)) by apply checked_sound.
  assert (Ho : outcome (build_and_solve (checked OPTIMAL split_35_35) scenario)
               = Ok (scenario_out, scenario_diag)) by (vm_compute; reflexivity).
  exact (conj Hs (conj Ho (proj1 (X2_totals_conserved _ _ _ _ Hs Ho)))).
Defined.

(** X3.  A returned table never has a team total outside the domain the
    model gives the score variables: each team total lies in [0, 10^9], so
    the total over the roster is not negative either; a roster whose scaled
    weighted skills add up to a negative number never gets a result. *)
Theorem X3_scores_bounded (solve : Solver) (inp : Inputs) out diag :
  solver_sound solve →
  outcome (build_and_solve solve inp) = Ok (out, diag) →
  (∀ t, 1 <= t <= num_teams inp →
     0 <= team_total (role_weights inp) out t <= 1000000000) ∧
  0 <= total_score (scaled_ws (role_weights inp) (df inp)).
Proof.
  intros Hsound Hres.
  destruct (returned_table _ _ _ _ Hsound Hres)
    as (pcs & cp & v & Hsat & Hout & Hrows & Hrange & _ & _).
  assert (Hteam : ∀ t, 1 <= t <= num_teams inp →
            0 <= team_total (role_weights inp) out t <= 1000000000).
  { intros t Ht.
    assert (Hid : Z.to_nat (t - 1) ∈ team_ids (num_teams inp))
      by (apply elem_of_team_ids; lia).
    pose proof (score_team_total _ _ _ _ _ Hsat _ Hid) as Hscore.
    replace (Z.of_nat (Z.to_nat (t - 1)) + 1) with t in Hscore by lia.
    rewrite <- Hout in Hscore. rewrite <- Hscore.
    apply (score_domain _ _ _ _ _ Hsat _ Hid). }
  split; [exact Hteam|].
  assert (Hsum : Zsum (team_total (role_weights inp) out <$> team_labels (num_teams inp))
                 = total_score (scaled_ws (role_weights inp) (df inp))).
  { unfold team_total.
    rewrite (sum_over_teams (λ o, scaled_of (role_weights inp) (row o))) by done.
    rewrite (list_fmap_compose row (scaled_of (role_weights inp))), Hrows.
    by rewrite scaled_ws_rows. }
  rewrite <- Hsum. apply Zsum_nonneg.
  intros t Ht%elem_of_team_labels. by apply Hteam.
Qed.

Lemma X3_scores_bounded_witness :
  solver_sound (checked OPTIMAL split_35_35) ∧
  outcome (build_and_solve (checked OPTIMAL split_35_35) scenario)
    = Ok (scenario_out, scenario_diag) ∧
  0 <= total_score (scaled_ws (role_weights scenario) (df scenario)).
Proof.
  assert (Hs : solver_sound (checked OPTIMAL split_35_35)) by apply checked_sound.
  assert (Ho : outcome (build_and_solve (checked OPTIMAL split_35_35) scenario)
               = Ok (scenario_out, scenario_diag)) by (vm_compute; reflexivity).
  exact (conj Hs (conj Ho (proj2 (X3_scores_bounded _ _ _ _ Hs Ho)))).
Defined.

(** [sorted(set(...))] is strictly increasing, hence without repetition. *)
Lemma insert_role_sorted r l :
  StronglySorted Z.lt l → StronglySorted Z.lt (insert_role r l).
Proof.
  induction 1 as [|h tl Hs IH Hall]; simpl.
  - repeat constructor.
  - destruct (Z.ltb_spec r h) as [Hlt|Hge].
    + constructor; [by constructor|]. constructor; [done|].
      eapply Forall_impl; [exact Hall|]. simpl. intros; lia.
    + destruct (Z.eqb_spec r h) as [->|Hne]; [by constructor|].
      constructor; [done|].
      apply Forall_forall. intros a [->|Ha]%elem_of_insert_role; [lia|].
      rewrite Forall_forall in Hall. by apply Hall.
Qed.

Lemma sorted_set_sorted l : StronglySorted Z.lt (sorted_set l).
Proof.
  induction l as [|a l IH]; simpl; [constructor|by apply insert_role_sorted].
Qed.

Lemma NoDup_sorted_set l : NoDup (sorted_set l).
Proof.
  pose proof (sorted_set_sorted l) as H.
  induction H as [|h tl Hs IH Hall]; [constructor|].
  constructor; [|done]. intros Hin.
  rewrite Forall_forall in Hall. specialize (Hall h Hin). lia.
Qed.

(** The roles of a roster that gets a result are evenly held. *)
Lemma returned_role_counts (solve : Solver) (inp : Inputs) out diag :
  solver_sound solve →
  outcome (build_and_solve solve inp) = Ok (out, diag) →
  ∀ r, r ∈ roles inp →
    length (filter (λ p, Position p = r) (df inp)) = Z.to_nat (num_teams inp).
Proof.
  intros Hsound Hres r Hr.
  destruct (returned_table _ _ _ _ Hsound Hres)
    as (pcs & cp & v & Hsat & Hout & Hrows & Hrange & _ & _).
  pose proof (sum_over_teams
    (λ o, if bool_decide (Position (row o) = r) then 1 else 0) out _ Hrange) as Hsum.
  rewrite (Zsum_count (λ o, Position (row o) = r)) in Hsum.
  rewrite (Zsum_ext _ (λ _, 1)) in Hsum.
  - rewrite Zsum_const, length_team_labels in Hsum.
    rewrite <- Hrows, filter_fmap, length_fmap. lia.
  - intros t Ht%elem_of_team_labels.
    rewrite (Zsum_ext _ (λ o, if bool_decide (Position (row o) = r ∧ Team o = t)
                               then 1 else 0)).
    + rewrite (Zsum_count (λ o, Position (row o) = r ∧ Team o = t)), Hout.
      by rewrite (slot_unique _ _ _ _ _ Hsat t r Ht Hr).
    + intros o _. simpl.
      destruct (decide (Team o = t)), (decide (Position (row o) = r));
        rewrite ?bool_decide_eq_true_2, ?bool_decide_eq_false_2 by tauto; done.
Qed.

(** X4.  A result is only ever returned for a roster in which every declared
    role is held by exactly [num_teams] players: with any other distribution
    of roles the model has no solution. *)
Theorem X4_role_counts (solve : Solver) (inp : Inputs) out diag :
  solver_sound solve →
  outcome (build_and_solve solve inp) = Ok (out, diag) →
  ∀ r, r ∈ roles inp →
    length (filter (λ p, Position p = r) (df inp)) = Z.to_nat (num_teams inp).
Proof.
  exact (returned_role_counts solve inp out diag).
Qed.

Lemma X4_role_counts_witness :
  solver_sound (checked OPTIMAL split_35_35) ∧
  outcome (build_and_solve (checked OPTIMAL split_35_35) scenario)
    = Ok (scenario_out, scenario_diag) ∧
  2 ∈ roles scenario ∧
  length (filter (λ p, Position p = 2) (df scenario)) = 2%nat.
Proof.
  assert (Hs : solver_sound (checked OPTIMAL split_35_35)) by apply checked_sound.
  assert (Ho : outcome (build_and_solve (checked OPTIMAL split_35_35) scenario)
               = Ok (scenario_out, scenario_diag)) by (vm_compute; reflexivity).
  assert (Hr : 2 ∈ roles scenario) by (simpl; right; left).
  exact (conj Hs (conj Ho (conj Hr (X4_role_counts _ _ _ _ Hs Ho 2 Hr)))).
Defined.

(** The teams of a returned table have one row per distinct role. *)
Lemma returned_team_sizes (solve : Solver) (inp : Inputs) out diag :
  solver_sound solve →
  outcome (build_and_solve solve inp) = Ok (out, diag) →
  Forall (λ p, Position p ∈ roles inp) (df inp) →
  (∀ t, 1 <= t <= num_teams inp →
     length (team_rows out t) = length (sorted_set (roles inp))) ∧
  length (df inp) = (Z.to_nat (num_teams inp) * length (sorted_set (roles inp)))%nat.
Proof.
  intros Hsound Hres Hpos.
  destruct (returned_table _ _ _ _ Hsound Hres)
    as (pcs & cp & v & Hsat & Hout & Hrows & Hrange & _ & _).
  assert (Hsize : ∀ t, 1 <= t <= num_teams inp →
            length (team_rows out t) = length (sorted_set (roles inp))).
  { intros t Ht. unfold team_rows.
    assert (Hkeys : Forall (λ o, Position (row o) ∈ sorted_set (roles inp))
                      (filter (λ o, Team o = t) out)).
    { apply Forall_forall. intros o [_ Ho]%list_elem_of_filter.
      apply elem_of_sorted_set. rewrite Forall_forall in Hpos. apply Hpos.
      rewrite <- Hrows. apply list_elem_of_fmap. by exists o. }
    pose proof (sum_over_keys (λ o, Position (row o)) (λ _, 1) _ _
                  (NoDup_sorted_set (roles inp)) Hkeys) as Hsum.
    rewrite Zsum_const in Hsum.
    rewrite (Zsum_ext _ (λ _, 1)) in Hsum.
    - rewrite Zsum_const in Hsum. lia.
    - intros r Hr. apply (proj1 (elem_of_sorted_set _ _)) in Hr.
      rewrite (Zsum_count (λ o, Position (row o) = r)), list_filter_filter.
      rewrite Hout. by rewrite (slot_unique _ _ _ _ _ Hsat t r Ht Hr). }
  split; [exact Hsize|].
  pose proof (sum_over_teams (λ _, 1) out _ Hrange) as Hsum.
  rewrite Zsum_const in Hsum.
  rewrite (Zsum_ext _ (λ _, Z.of_nat (length (sorted_set (roles inp))))) in Hsum.
  - rewrite Zsum_const, length_team_labels in Hsum.
    rewrite <- Hrows, length_fmap. nia.
  - intros t Ht%elem_of_team_labels.
    rewrite (Zsum_count (λ o, Team o = t)). f_equal. by apply Hsize.
Qed.

(** X5.  When every position of the roster is a declared role, every team of
    a returned table has as many rows as there are distinct declared roles,
    and the roster has [num_teams] times that many rows. *)
Theorem X5_team_sizes (solve : Solver) (inp : Inputs) out diag :
  solver_sound solve →
  outcome (build_and_solve solve inp) = Ok (out, diag) →
  Forall (λ p, Position p ∈ roles inp) (df inp) →
  (∀ t, 1 <= t <= num_teams inp →
     length (team_rows out t) = length (sorted_set (roles inp))) ∧
  length (df inp) = (Z.to_nat (num_teams inp) * length (sorted_set (roles inp)))%nat.
Proof.
  exact (returned_team_sizes solve inp out diag).
Qed.

Lemma X5_team_sizes_witness :
  solver_sound (checked OPTIMAL split_35_35) ∧
  outcome (build_and_solve (checked OPTIMAL split_35_35) scenario)
    = Ok (scenario_out, scenario_diag) ∧
  Forall (λ p, Position p ∈ roles scenario) (df scenario) ∧
  length (df scenario)
  = (Z.to_nat (num_teams scenario) * length (sorted_set (roles scenario)))%nat.
Proof.
  assert (Hs : solver_sound (checked OPTIMAL split_35_35)) by apply checked_sound.
  assert (Ho : outcome (build_and_solve (checked OPTIMAL split_35_35) scenario)
               = Ok (scenario_out, scenario_diag)) by (vm_compute; reflexivity).
  assert (Hp : Forall (λ p, Position p ∈ roles scenario) (df scenario)).
  { repeat constructor; simpl; rewrite !elem_of_cons; tauto. }
  exact (conj Hs (conj Ho (conj Hp (proj2 (X5_team_sizes _ _ _ _ Hs Ho Hp))))).
Defined.

(** ** What [build_and_solve] can raise *)

Lemma preset_constraints_raise idx T ps e :
  preset_constraints idx T ps = Raise e → ∃ msg, e = ValueError msg.
Proof.
  induction ps as [|[n0 t0] ps IH]; simpl; [discriminate|].
  destruct (idx !! n0); [|intros [= <-]; by eexists].
  destruct (negb _); [intros [= <-]; by eexists|].
  destruct (preset_constraints idx T ps); simpl; [discriminate|].
  intros [= <-]. by apply IH.
Qed.

(** The conversion of a penalty weight raises on an infinite product only,
    hence on no weight of at most [2^53 / 100] in absolute value. *)
Lemma penalty_check_raise (w : Q) (pts : list Var) e :
  penalty_check w pts = Raise e →
  e = OverflowError ∧ (inject_Z 90071992547409 < Qabs w)%Q.
Proof.
  intros H. split.
  - revert H. unfold penalty_check, scaled_weight.
    destruct (penalised w pts); [|discriminate].
    destruct (to_float_cases w) as [E|E]; rewrite E; cbn [fmul].
    + change (inject_Z SCALE) with 100%Q.
      destruct (to_float_cases (round53 w * 100)) as [E'|E']; rewrite E'; simpl;
        congruence.
    + simpl. congruence.
  - apply Qnot_le_lt. intros Hle.
    rewrite (penalty_check_bounded w pts 90071992547409) in H; [discriminate| |done].
    vm_compute. congruence.
Qed.

Lemma penalty_term_linear (w : Q) (pts : list Var) :
  Forall (λ ot : Q * list Var, ot.2 ≠ []) (penalty_term w pts).
Proof.
  unfold penalty_term, penalised. destruct (negb _); [|constructor].
  destruct pts; repeat constructor. done.
Qed.

(** [Minimize] raises only on the balance term of a model without team. *)
Lemma minimize_raise bw cw kw tids cts pts e :
  minimize (objective bw cw kw tids cts pts) = Raise e →
  e = TypeError ∧ nonzero bw = true ∧ tids = [].
Proof.
  intros H. split; [|split].
  - revert H. unfold minimize. destruct (_ && _); congruence.
  - destruct (nonzero bw) eqn:E; [done|].
    rewrite minimize_linear in H; [discriminate|].
    unfold objective, balance_term. rewrite E.
    apply Forall_app_2; [constructor|]. apply Forall_app_2; apply penalty_term_linear.
  - destruct tids as [|t tids]; [done|].
    rewrite minimize_linear in H; [discriminate|]. by apply objective_linear.
Qed.

Lemma team_ids_empty T : team_ids T = [] → T <= 0.
Proof.
  unfold team_ids. intros H. destruct (Z.to_nat T) eqn:E; [lia|discriminate].
Qed.

(** The exceptions of the builder, each with what the input must be like. *)
Lemma build_model_raise (inp : Inputs) e :
  build_model inp = Raise e →
  (∃ msg, e = ValueError msg) ∨ e = ZeroDivisionError ∨
  (e = OverflowError ∧
   ((inject_Z 90071992547409 < Qabs (conflict_weight inp))%Q ∨
    (inject_Z 90071992547409 < Qabs (captain_weight inp))%Q)) ∨
  (e = TypeError ∧
   ((num_teams inp < 0 ∧ ¬ (balance_weight inp == 0)%Q) ∨ 2 ^ 31 <= random_seed inp)).
Proof.
  unfold build_model, default_rng, floordiv, set_random_seed.
  destruct (Z.ltb_spec (random_seed inp) 0) as [|Hseed]; simpl;
    [intros [= <-]; left; by eexists|].
  destruct (preset_constraints _ _ _) as [pcs|e'] eqn:Hp; simpl.
  2:{ intros [= <-]. left. by eapply preset_constraints_raise. }
  destruct (Z.eqb_spec (num_teams inp) 0) as [|Hnz]; simpl;
    [intros [= <-]; by right; left|].
  destruct (captain_part _ _ _ _ _ _) as [cp|e'] eqn:Hcp; simpl.
  2:{ intros [= <-]. left. unfold captain_part in Hcp.
      destruct (bool_decide (captain_policy inp ∈ _));
        [repeat (destruct (bool_decide _); [discriminate|]); discriminate|].
      injection Hcp as <-. by eexists. }
  destruct (penalty_check (conflict_weight inp) _) as [[]|e'] eqn:Hc1; simpl.
  2:{ intros [= <-]. apply penalty_check_raise in Hc1 as [-> ?]. right; right; left. auto. }
  destruct (penalty_check (captain_weight inp) _) as [[]|e'] eqn:Hc2; simpl.
  2:{ intros [= <-]. apply penalty_check_raise in Hc2 as [-> ?]. right; right; left. auto. }
  destruct (minimize _) as [[]|e'] eqn:Hmin; simpl.
  2:{ intros [= <-]. apply minimize_raise in Hmin as (-> & Hbw & Hno).
      right; right; right. split; [done|]. left.
      apply team_ids_empty in Hno. split; [lia|].
      intros Hz. apply Qeq_bool_iff in Hz. unfold nonzero in Hbw. by rewrite Hz in Hbw. }
  destruct (Z.leb_spec (- 2 ^ 31) (random_seed inp)); simpl.
  2:{ assert (0 < 2 ^ 31) by (by apply Z.pow_pos_nonneg). lia. }
  destruct (Z.ltb_spec (random_seed inp) (2 ^ 31)); simpl; [discriminate|].
  intros [= <-]. right; right; right. split; [done|]. by right.
Qed.

Lemma to_float_overflow (q : Q) : (pow2 1024 <= Qabs q)%Q → to_float q = Infinite.
Proof.
  intros Hq. unfold to_float.
  assert (Hr : representable (pow2 1024)) by (by apply representable_pow2).
  assert (Hbig : (pow2 1024 <= Qabs (round53 q))%Q).
  { destruct (Qlt_le_dec q 0) as [Hneg|Hpos].
    - assert (Hle : (q <= - pow2 1024)%Q) by (revert Hq; qabs; lra).
      pose proof (round53_le_rep q _ (representable_opp _ Hr) Hle).
      pose proof (pow2_pos 1024). qabs; lra.
    - assert (Hle : (pow2 1024 <= q)%Q) by (revert Hq; qabs; lra).
      pose proof (round53_ge_rep q _ Hr Hle).
      pose proof (pow2_pos 1024). qabs; lra. }
  apply Qle_bool_iff in Hbig. by rewrite Hbig.
Qed.

Lemma penalty_check_overflow (w : Q) (pts : list Var) :
  (pow2 1024 <= Qabs w)%Q → pts ≠ [] → penalty_check w pts = Raise OverflowError.
Proof.
  intros Hw Hne. unfold penalty_check, penalised, scaled_weight.
  rewrite (to_float_overflow w Hw). simpl. by destruct pts.
Qed.

Lemma penalty_check_no_term (w : Q) : penalty_check w [] = Ok ().
Proof. unfold penalty_check, penalised. by rewrite andb_false_r. Qed.

(** A seed of more than 31 bits stops the builder at the parameters of the
    solver, once everything before has gone through. *)
Lemma build_model_seed_refused inp pcs (C K : Z) :
  2 ^ 31 <= random_seed inp →
  preset_constraints (name_to_idx (df inp)) (num_teams inp) (presets inp) = Ok pcs →
  0 < num_teams inp →
  captain_policy inp ∈ ["none"; "at_least_one"; "separate"] →
  100 * C <= 2 ^ 53 → (Qabs (conflict_weight inp) <= inject_Z C)%Q →
  100 * K <= 2 ^ 53 → (Qabs (captain_weight inp) <= inject_Z K)%Q →
  build_model inp = Raise TypeError.
Proof.
  intros Hseed Hpcs HT Hpol HC Hcw HK Hkw.
  assert (H31 : 0 < 2 ^ 31) by (by apply Z.pow_pos_nonneg).
  destruct (captain_part_known (captain_policy inp) (captain_hard inp)
              (count_captains inp) (num_teams inp) (num_roles inp)
              (team_ids (num_teams inp)) Hpol) as [cp Hcp].
  unfold build_model, default_rng, floordiv, set_random_seed.
  destruct (Z.ltb_spec (random_seed inp) 0); [lia|]. simpl. rewrite Hpcs. simpl.
  destruct (Z.eqb_spec (num_teams inp) 0); [lia|]. simpl. rewrite Hcp. simpl.
  rewrite (penalty_check_bounded (conflict_weight inp) _ C) by done. simpl.
  rewrite (penalty_check_bounded (captain_weight inp) _ K) by done. simpl.
  rewrite minimize_linear by (apply objective_linear; by apply team_ids_nonempty).
  simpl.
  destruct (Z.ltb_spec (random_seed inp) (2 ^ 31)); [lia|].
  by rewrite andb_false_r.
Qed.

(** A negative number of teams leaves a model without team: [Minimize] gets
    the float [balance_weight * 0]. *)
Lemma build_model_no_team inp :
  0 <= random_seed inp → presets inp = [] → num_teams inp < 0 →
  captain_policy inp ∈ ["none"; "at_least_one"; "separate"] →
  ¬ (balance_weight inp == 0)%Q →
  build_model inp = Raise TypeError.
Proof.
  intros Hseed Hpre HT Hpol Hbw.
  assert (Hno : team_ids (num_teams inp) = []).
  { unfold team_ids. by replace (Z.to_nat (num_teams inp)) with 0%nat by lia. }
  destruct (captain_part_known (captain_policy inp) (captain_hard inp)
              (count_captains inp) (num_teams inp) (num_roles inp)
              (team_ids (num_teams inp)) Hpol) as [cp Hcp].
  unfold build_model, default_rng, floordiv.
  destruct (Z.ltb_spec (random_seed inp) 0); [lia|]. simpl. rewrite Hpre. simpl.
  destruct (Z.eqb_spec (num_teams inp) 0); [lia|]. simpl. rewrite Hcp. simpl.
  rewrite Hno in Hcp |- *. apply captain_part_no_team in Hcp.
  rewrite Hcp, conflict_terms_no_team, !penalty_check_no_term. simpl.
  rewrite minimize_no_team; [done|].
  unfold nonzero. destruct (Qeq_bool (balance_weight inp) 0) eqn:E; [|done].
  by apply Qeq_bool_iff in E.
Qed.

(** A conflict weight beyond the range of the floats stops the builder at
    the conversion of the coefficient, when there is a conflict variable. *)
Lemma build_model_overflow inp pcs :
  0 <= random_seed inp →
  preset_constraints (name_to_idx (df inp)) (num_teams inp) (presets inp) = Ok pcs →
  num_teams inp ≠ 0 →
  captain_policy inp ∈ ["none"; "at_least_one"; "separate"] →
  conflict_terms (avoid_pairs (df inp)) (team_ids (num_teams inp)) ≠ [] →
  (pow2 1024 <= Qabs (conflict_weight inp))%Q →
  build_model inp = Raise OverflowError.
Proof.
  intros Hseed Hpcs HT Hpol Hne Hcw.
  destruct (captain_part_known (captain_policy inp) (captain_hard inp)
              (count_captains inp) (num_teams inp) (num_roles inp)
              (team_ids (num_teams inp)) Hpol) as [cp Hcp].
  unfold build_model, default_rng, floordiv.
  destruct (Z.ltb_spec (random_seed inp) 0); [lia|]. simpl. rewrite Hpcs. simpl.
  destruct (Z.eqb_spec (num_teams inp) 0); [lia|]. simpl. rewrite Hcp. simpl.
  rewrite (penalty_check_overflow (conflict_weight inp)) by done. done.
Qed.

(** A seed beyond 31 bits, a negative number of teams and a penalty weight
    beyond the range of the floats each stop the run before the engine is
    called. *)
Example seed_too_large :
  build_and_solve (checked OPTIMAL split_35_35) (set_seed scenario (2 ^ 31))
  = {| solver_calls := []; outcome := Raise TypeError |}.
Proof. vm_compute. reflexivity. Qed.

Example negative_teams :
  build_and_solve (checked OPTIMAL split_35_35) (set_num_teams scenario (-1))
  = {| solver_calls := []; outcome := Raise TypeError |}.
Proof. vm_compute. reflexivity. Qed.

Example weight_too_large :
  build_and_solve (checked OPTIMAL split_35_35)
    (set_conflict_weight scenario_feud (inject_Z (2 ^ 1024)))
  = {| solver_calls := []; outcome := Raise OverflowError |}.
Proof. vm_compute. reflexivity. Qed.

(** X6.  With an engine that honours its contract, [build_and_solve] ends
    in an exception either before the engine is called or after exactly one
    call.  Before: a [ValueError] (negative seed, bad preset, unknown
    policy), the [ZeroDivisionError] of the target, an [OverflowError] of the
    conversion of a penalty weight (only for a weight beyond [2^53 / 100]) or
    a [TypeError] (only with a negative number of teams and a balance weight
    other than zero, or with a seed of more than 31 bits).  After: the runtime
    error for a status without solution.  In particular the extraction loop
    never meets a player without a team.  The three exceptions that are not
    checks of the program do occur: a seed of more than 31 bits is refused
    once everything before has gone through, a negative number of teams with
    a balance weight other than zero makes [Minimize] refuse the objective,
    and a conflict weight of [2^1024] or more cannot be converted when there
    is a conflict variable. *)
Theorem X6_exceptions (solve : Solver) (inp : Inputs) :
  solver_sound solve →
  (∀ e, outcome (build_and_solve solve inp) = Raise e →
     (solver_calls (build_and_solve solve inp) = [] ∧
      ((∃ msg, e = ValueError msg) ∨ e = ZeroDivisionError ∨
       (e = OverflowError ∧
        ((inject_Z 90071992547409 < Qabs (conflict_weight inp))%Q ∨
         (inject_Z 90071992547409 < Qabs (captain_weight inp))%Q)) ∨
       (e = TypeError ∧
        ((num_teams inp < 0 ∧ ¬ (balance_weight inp == 0)%Q) ∨
         2 ^ 31 <= random_seed inp)))) ∨
     (e = no_assignment ∧
      length (solver_calls (build_and_solve solve inp)) = 1%nat)) ∧
  (∀ pcs (C K : Z),
     2 ^ 31 <= random_seed inp →
     preset_constraints (name_to_idx (df inp)) (num_teams inp) (presets inp) = Ok pcs →
     0 < num_teams inp →
     captain_policy inp ∈ ["none"; "at_least_one"; "separate"] →
     100 * C <= 2 ^ 53 → (Qabs (conflict_weight inp) <= inject_Z C)%Q →
     100 * K <= 2 ^ 53 → (Qabs (captain_weight inp) <= inject_Z K)%Q →
     build_and_solve solve inp = {| solver_calls := []; outcome := Raise TypeError |}) ∧
  (0 <= random_seed inp → presets inp = [] → num_teams inp < 0 →
   captain_policy inp ∈ ["none"; "at_least_one"; "separate"] →
   ¬ (balance_weight inp == 0)%Q →
   build_and_solve solve inp = {| solver_calls := []; outcome := Raise TypeError |}) ∧
  (∀ pcs,
     0 <= random_seed inp →
     preset_constraints (name_to_idx (df inp)) (num_teams inp) (presets inp) = Ok pcs →
     num_teams inp ≠ 0 →
     captain_policy inp ∈ ["none"; "at_least_one"; "separate"] →
     conflict_terms (avoid_pairs (df inp)) (team_ids (num_teams inp)) ≠ [] →
     (pow2 1024 <= Qabs (conflict_weight inp))%Q →
     build_and_solve solve inp
     = {| solver_calls := []; outcome := Raise OverflowError |}).
Proof.
  intros Hsound. split; [|split; [|split]].
  - intros e. unfold build_and_solve.
    destruct (build_model inp) as [b|e'] eqn:Hb; simpl.
    + destruct (usable _) eqn:Hu.
      * pose proof (Hsound _ _ Hu) as Hsat.
        pose proof Hb as (pcs & cp & _ & _ & _ & _ & ->)%build_model_inv.
        destruct (team_column_succeeds inp pcs (target_of inp) cp _ Hsat)
          as [teams Hteams].
        unfold extract. rewrite Hteams. simpl. discriminate.
      * intros [= <-]. by right.
    + intros [= <-]. left. split; [done|]. exact (build_model_raise _ _ Hb).
  - intros pcs C K Hseed Hpcs HT Hpol HC Hcw HK Hkw. unfold build_and_solve.
    by rewrite (build_model_seed_refused inp pcs C K).
  - intros Hseed Hpre HT Hpol Hbw. unfold build_and_solve.
    by rewrite build_model_no_team.
  - intros pcs Hseed Hpcs HT Hpol Hne Hcw. unfold build_and_solve.
    by rewrite (build_model_overflow inp pcs).
Qed.

Lemma X6_exceptions_witness :
  solver_sound (checked OPTIMAL split_35_35) ∧
  outcome (build_and_solve (checked OPTIMAL split_35_35) scenario_clash)
    = Raise no_assignment ∧
  length (solver_calls (build_and_solve (checked OPTIMAL split_35_35) scenario_clash))
    = 1%nat ∧
  build_and_solve (checked OPTIMAL split_35_35) (set_num_teams scenario (-1))
    = {| solver_calls := []; outcome := Raise TypeError |}.
Proof.
  assert (Hs : solver_sound (checked OPTIMAL split_35_35)) by apply checked_sound.
  assert (Ho : outcome (build_and_solve (checked OPTIMAL split_35_35) scenario_clash)
               = Raise no_assignment) by (vm_compute; reflexivity).
  destruct (X6_exceptions _ scenario_clash Hs) as (Hraise & _).
  destruct (X6_exceptions (checked OPTIMAL split_35_35) (set_num_teams scenario (-1)) Hs)
    as (_ & _ & Hneg & _).
  split; [exact Hs|]. split; [exact Ho|]. split.
  - destruct (Hraise _ Ho)
      as [[_ [[msg Hm]|[Hz|[[Hv _]|[Ht _]]]]]|[_ Hlen]]; try discriminate.
    exact Hlen.
  - apply Hneg; try (simpl; lia); try reflexivity.
    + simpl. rewrite !elem_of_cons. auto.
    + simpl. intros H. discriminate H.
Defined.

(** X7.  With [num_teams = 0] the function always raises before the engine
    is called; when the seed is not negative and there is no preset the
    exception is the [ZeroDivisionError] of the target computation, whatever
    the captain policy: the check of the policy name is never reached. *)
Theorem X7_zero_teams (solve : Solver) (inp : Inputs) :
  num_teams inp = 0 →
  ∃ e, outcome (build_and_solve solve inp) = Raise e ∧
       solver_calls (build_and_solve solve inp) = [] ∧
       ((∃ msg, e = ValueError msg) ∨ e = ZeroDivisionError) ∧
       (0 <= random_seed inp → presets inp = [] → e = ZeroDivisionError).
Proof.
  intros HT.
  assert (∃ e, build_model inp = Raise e ∧
               ((∃ msg, e = ValueError msg) ∨ e = ZeroDivisionError) ∧
               (0 <= random_seed inp → presets inp = [] → e = ZeroDivisionError))
    as (e & Hb & Hkind & Hz).
  { unfold build_model, default_rng, floordiv. rewrite HT.
    destruct (Z.ltb_spec (random_seed inp) 0); simpl.
    - eexists. split; [done|]. split; [left; by eexists|lia].
    - destruct (preset_constraints _ _ _) as [pcs|e'] eqn:Hp; simpl.
      + eexists. split; [done|]. split; [by right|done].
      + eexists. split; [done|]. split.
        * left. by eapply preset_constraints_raise.
        * intros _ Hps. rewrite Hps in Hp. discriminate. }
  exists e. unfold build_and_solve. rewrite Hb. simpl. done.
Qed.

Lemma X7_zero_teams_witness :
  num_teams scenario_no_teams = 0 ∧
  outcome (build_and_solve (checked OPTIMAL split_35_35) scenario_no_teams)
  = Raise ZeroDivisionError.
Proof.
  split; [reflexivity|].
  destruct (X7_zero_teams (checked OPTIMAL split_35_35) scenario_no_teams eq_refl)
    as (e & Ho & _ & _ & Hz).
  rewrite Ho. f_equal. apply Hz; [simpl; lia|reflexivity].
Defined.

(** ** A player who avoids themselves *)

(** X8.  A row whose avoid target is its own name is not rejected: on a
    roster with unique names it is recorded as the pair of the row with
    itself, and in every valuation that satisfies the model the variables of
    that pair add up to 1 over the teams, so its penalty is paid whatever the
    assignment. *)
Theorem X8_self_avoidance (inp : Inputs) (b : Built) (i : nat) (r : Player) :
  build_model inp = Ok b →
  NoDup (players (df inp)) →
  df inp !! i = Some r → Avoid r = Some (Name r) →
  ∃ k, avoid_pairs (df inp) !! k = Some (i, i) ∧
       ∀ v, satisfies v (b_model b) →
            Zsum ((λ t, v (y_ k t)) <$> team_ids (num_teams inp)) = 1.
Proof.
  intros (pcs & cp & _ & _ & _ & _ & ->)%build_model_inv Hnd Hi Hav.
  assert (Hni : name_to_idx (df inp) !! Name r = Some i).
  { apply name_to_idx_NoDup; [done|]. unfold players. by rewrite list_lookup_fmap, Hi. }
  assert (Hin : (i, i) ∈ avoid_pairs (df inp)).
  { apply elem_of_avoid_pairs. exists r, (Name r).
    split; [by eapply list_elem_of_lookup_2|done]. }
  apply list_elem_of_lookup in Hin as [k Hk]. exists k. split; [done|].
  intros v Hsat. rewrite (pair_penalty _ _ _ _ _ Hsat k i i Hk).
  by rewrite bool_decide_eq_true_2.
Qed.

Lemma X8_self_avoidance_witness :
  build_model scenario_self = Ok self_built ∧
  NoDup (players (df scenario_self)) ∧
  ∃ k, avoid_pairs (df scenario_self) !! k = Some (0, 0)%nat ∧
       ∀ v, satisfies v (b_model self_built) →
            Zsum ((λ t, v (y_ k t)) <$> team_ids (num_teams scenario_self)) = 1.
Proof.
  assert (Hb : build_model scenario_self = Ok self_built) by (vm_compute; reflexivity).
  assert (Hn : NoDup (players (df scenario_self)))
    by (apply (bool_decide_unpack _); vm_compute; exact I).
  exact (conj Hb (conj Hn
    (X8_self_avoidance scenario_self self_built 0%nat _ Hb Hn eq_refl eq_refl))).
Defined.

(** * Validation of the signup table *)

Lemma cast_column_Ok {A} col (cells : list (option A)) l :
  cast_column col cells = Ok l ↔ cells = Some <$> l.
Proof.
  unfold cast_column. destruct (mapM id cells) as [l'|] eqn:E.
  - apply mapM_Some in E. split.
    + intros [= <-]. induction E as [|x y xs ys Hxy _ IH]; [done|].
      simpl in Hxy. rewrite fmap_cons. by f_equal.
    + intros ->. f_equal. clear -E. revert l' E.
      induction l as [|a l IH]; intros l' E.
      * by apply Forall2_nil_inv_l in E.
      * rewrite fmap_cons in E. apply Forall2_cons_inv_l in E as (y & k & Hy & Hk & ->).
        simpl in Hy. injection Hy as <-. f_equal. by apply IH.
  - split; [discriminate|]. intros ->. exfalso.
    assert (is_Some (mapM id (Some <$> l))) as [? ?]; [|congruence].
    apply mapM_is_Some. apply Forall_fmap, Forall_forall. intros a _. by eexists.
Qed.

Lemma cast_column_Raise {A} col (cells : list (option A)) e :
  cast_column col cells = Raise e ↔ e = cast_error col ∧ None ∈ cells.
Proof.
  unfold cast_column. destruct (mapM id cells) as [l'|] eqn:E.
  - split; [discriminate|]. intros [_ Hin]. exfalso.
    apply mapM_Some in E. apply list_elem_of_lookup in Hin as [i Hi].
    destruct (Forall2_lookup_l _ _ _ _ _ E Hi) as (y & _ & Hy). discriminate.
  - split.
    + intros [= <-]. split; [done|].
      apply eq_None_not_Some in E. rewrite mapM_is_Some in E.
      apply not_Forall_Exists in E; [|intros x; apply _].
      apply Exists_exists in E as (x & Hx & Hn). simpl in Hn.
      destruct x; [exfalso; apply Hn; by eexists|done].
    + by intros [-> _].
Qed.

Lemma typed_rows_cleaned strip (rows : list RawRow) sk po ca :
  raw_Position <$> rows = Some <$> po →
  raw_Captain <$> rows = Some <$> ca →
  raw_Skill <$> rows = Some <$> sk →
  Forall2 (cleaned strip) rows
    (typed_rows ((λ r, strip (raw_Name r)) <$> rows) sk po ca
                ((λ r, clean_avoid strip (raw_Avoid r)) <$> rows)).
Proof.
  revert sk po ca. induction rows as [|r rows IH]; intros sk po ca Hpo Hca Hsk.
  - constructor.
  - destruct po as [|p po]; [done|]. destruct ca as [|c ca]; [done|].
    destruct sk as [|s sk]; [done|].
    rewrite !fmap_cons in *. injection Hpo as Hp Hpo. injection Hca as Hc Hca.
    injection Hsk as Hs Hsk.
    unfold typed_rows. simpl. constructor.
    + by repeat split.
    + by apply IH.
Qed.

Lemma cleaned_names strip rows d :
  Forall2 (cleaned strip) rows d →
  players d = (λ r, strip (raw_Name r)) <$> rows ∧
  Some <$> pos d = raw_Position <$> rows.
Proof.
  unfold players, pos.
  induction 1 as [|r p rows d (Hn & _ & Hp & _) _ [IH1 IH2]]; [done|].
  rewrite !fmap_cons. rewrite Hn, Hp, IH1, IH2. done.
Qed.

Lemma bad_roles_empty (positions roles : list Z) :
  list_to_set positions ∖ list_to_set roles = (∅ : gset Z) ↔
  Forall (λ z, z ∈ roles) positions.
Proof.
  rewrite Forall_forall. split.
  - intros H z Hz. destruct (decide (z ∈ roles)) as [|Hn]; [done|].
    exfalso. apply (not_elem_of_empty (C:=gset Z) z). rewrite <- H.
    apply elem_of_difference. rewrite !elem_of_list_to_set. done.
  - intros H. apply set_eq. intros z.
    rewrite elem_of_difference, !elem_of_list_to_set. split.
    + intros [Hz Hn]. exfalso. by apply Hn, H.
    + intros []%not_elem_of_empty.
Qed.

Lemma missing_columns_nil cols : missing_columns cols = [] ↔ expected ⊆ cols.
Proof.
  unfold missing_columns. split.
  - intros H c Hc. destruct (decide (c ∈ cols)) as [|Hn]; [done|].
    exfalso. assert (c ∈ filter (λ c, c ∉ cols) expected) as Hin
      by (by apply list_elem_of_filter).
    rewrite H in Hin. by apply elem_of_nil in Hin.
  - intros H. induction expected as [|c l IH]; [done|].
    rewrite filter_cons. destruct (decide (c ∉ cols)) as [Hn|_].
    + exfalso. apply Hn, H. by left.
    + apply IH. intros x Hx. apply H. by right.
Qed.

Lemma prepare_data_inv strip csv roles d :
  prepare_data strip csv roles = Ok d ↔
  expected ⊆ csv_columns csv ∧
  Forall2 (cleaned strip) (csv_rows csv) d ∧
  Forall (λ p, Position p ∈ roles) d ∧
  NoDup (players d).
Proof.
  unfold prepare_data. split.
  - destruct (nonempty _) eqn:Hm; [discriminate|].
    destruct (cast_column "Position" _) as [po|] eqn:Hpo; [|discriminate].
    destruct (cast_column "Captain" _) as [ca|] eqn:Hca; [|discriminate].
    destruct (cast_column "Skill" _) as [sk|] eqn:Hsk; [|discriminate]. simpl.
    apply cast_column_Ok in Hpo, Hca, Hsk.
    pose proof (typed_rows_cleaned strip _ _ _ _ Hpo Hca Hsk) as Hcl.
    destruct (bool_decide (_ ≠ ∅)) eqn:Hbad; [discriminate|].
    destruct (bool_decide (NoDup _)) eqn:Hnd; [|discriminate].
    intros [= <-]. apply bool_decide_eq_true_1 in Hnd.
    apply bool_decide_eq_false_1 in Hbad. apply dec_stable in Hbad.
    apply bad_roles_empty in Hbad.
    destruct (cleaned_names _ _ _ Hcl) as [Hnames Hpos].
    split; [|split; [done|split]].
    + apply missing_columns_nil. by destruct (missing_columns _).
    + rewrite Hpo in Hpos. apply (inj (fmap Some)) in Hpos. rewrite <- Hpos in Hbad.
      unfold pos in Hbad. by apply Forall_fmap in Hbad.
    + by rewrite Hnames.
  - intros (Hcols & Hcl & Hroles & Hnd).
    apply missing_columns_nil in Hcols. rewrite Hcols. simpl.
    destruct (cleaned_names _ _ _ Hcl) as [Hnames Hpos].
    assert (Hpo : raw_Position <$> csv_rows csv = Some <$> pos d) by done.
    assert (Hca : raw_Captain <$> csv_rows csv = Some <$> is_capt d).
    { unfold is_capt. clear -Hcl.
      induction Hcl as [|r p rows d (_ & _ & _ & Hc & _) _ IH]; [done|].
      rewrite !fmap_cons. by rewrite Hc, IH. }
    assert (Hsk : raw_Skill <$> csv_rows csv = Some <$> skill d).
    { unfold skill. clear -Hcl.
      induction Hcl as [|r p rows d (_ & Hs & _) _ IH]; [done|].
      rewrite !fmap_cons. by rewrite Hs, IH. }
    rewrite (proj2 (cast_column_Ok "Position" _ _) Hpo). simpl.
    rewrite (proj2 (cast_column_Ok "Captain" _ _) Hca). simpl.
    rewrite (proj2 (cast_column_Ok "Skill" _ _) Hsk). simpl.
    rewrite bool_decide_eq_false_2.
    2:{ intros Hne. apply Hne. apply bad_roles_empty. unfold pos. by apply Forall_fmap. }
    rewrite <- Hnames. rewrite bool_decide_eq_true_2 by done. f_equal.
    pose proof (typed_rows_cleaned strip _ _ _ _ Hpo Hca Hsk) as Hcl'.
    rewrite <- Hnames in Hcl'.
    clear -Hcl Hcl'.
    revert Hcl'. generalize (typed_rows (players d) (skill d) (pos d) (is_capt d)
        ((λ r, clean_avoid strip (raw_Avoid r)) <$> csv_rows csv)).
    intros d' Hcl'. revert d' Hcl'.
    induction Hcl as [|r p rows d Hp _ IH]; intros d' Hcl'.
    + by apply Forall2_nil_inv_l in Hcl'.
    + apply Forall2_cons_inv_l in Hcl' as (p' & d'' & Hp' & Hd'' & ->).
      f_equal; [|by apply IH].
      destruct Hp as (H1 & H2 & H3 & H4 & H5), Hp' as (H1' & H2' & H3' & H4' & H5').
      destruct p, p'. simpl in *. congruence.
Qed.


Lemma cleaned_columns strip rows d :
  Forall2 (cleaned strip) rows d →
  raw_Position <$> rows = Some <$> pos d ∧
  raw_Captain <$> rows = Some <$> is_capt d ∧
  raw_Skill <$> rows = Some <$> skill d.
Proof.
  unfold pos, is_capt, skill.
  induction 1 as [|r p rows d (_ & Hs & Hp & Hc & _) _ (IH1 & IH2 & IH3)]; [done|].
  rewrite !fmap_cons. by rewrite Hs, Hp, Hc, IH1, IH2, IH3.
Qed.

Lemma clean_row_cleaned strip rows :
  Forall castable rows → Forall2 (cleaned strip) rows (clean_row strip <$> rows).
Proof.
  intros H. apply Forall2_fmap_r, Forall_Forall2_diag.
  eapply Forall_impl; [exact H|].
  intros r ([p Hp] & [c Hc] & [s Hs]). unfold cleaned, clean_row. simpl.
  by rewrite Hp, Hc, Hs.
Qed.

Lemma cleaned_castable strip rows d :
  Forall2 (cleaned strip) rows d → Forall castable rows.
Proof.
  induction 1 as [|r p rows d (_ & Hs & Hp & Hc & _) _ IH]; constructor; [|done].
  unfold castable. rewrite Hs, Hp, Hc. by repeat split.
Qed.

Lemma length_zero_string (s : string) : (String.length s =? 0)%nat = true ↔ s = "".
Proof. destruct s; simpl; split; congruence. Qed.

Lemma clean_avoid_Some strip x b :
  clean_avoid strip x = Some b ↔ ∃ a, x = Some a ∧ b = strip a ∧ strip a ≠ "".
Proof.
  unfold clean_avoid. destruct x as [a|].
  - destruct (String.length (strip a) =? 0)%nat eqn:E.
    + apply length_zero_string in E. split; [discriminate|].
      intros (a' & [= <-] & _ & Hne). done.
    + split.
      * intros [= <-]. exists a. split; [done|]. split; [done|].
        intros He. apply length_zero_string in He. congruence.
      * intros (a' & [= <-] & -> & _). done.
  - split; [discriminate|]. intros (a & Ha & _). discriminate.
Qed.

(** X9.  The table [prepare_data] returns: its rows are those of the file in
    the same order, the name stripped, the numeric cells cast and the avoid
    cell cleaned; no two rows have the same name, every position is a
    configured role, and no avoid target is the empty string. *)
Theorem X9_prepared_table (strip : string → string) (csv : Csv) (roles : list Z)
    (d : list Player) :
  prepare_data strip csv roles = Ok d →
  Forall2 (cleaned strip) (csv_rows csv) d ∧
  NoDup (players d) ∧
  Forall (λ p, Position p ∈ roles) d ∧
  Forall (λ p, Avoid p ≠ Some "") d.
Proof.
  intros (_ & Hcl & Hroles & Hnd)%prepare_data_inv.
  repeat split; try done.
  clear -Hcl. induction Hcl as [|r p rows d (_ & _ & _ & _ & Ha) _ IH]; constructor; [|done].
  intros Hp. rewrite Hp in Ha. symmetry in Ha.
  apply clean_avoid_Some in Ha as (a & _ & He & Hne). by rewrite <- He in Hne.
Qed.

Lemma X9_prepared_table_witness :
  prepare_data ascii_strip signups [1; 2] = Ok roster4 ∧ NoDup (players roster4).
Proof.
  assert (H : prepare_data ascii_strip signups [1; 2] = Ok roster4)
    by (vm_compute; reflexivity).
  exact (conj H (proj1 (proj2 (X9_prepared_table _ _ _ _ H)))).
Defined.

(** X10.  Which files [prepare_data] accepts, and which error comes first:
    the file is accepted exactly when it has the five columns, the cells of
    the three numeric columns can be cast, every position is a configured
    role and the stripped names are pairwise different.  A missing column is
    reported before anything else is looked at, and an unknown role is
    reported even when names are repeated. *)
Theorem X10_prepare_data_accepts (strip : string → string) (csv : Csv) (roles : list Z) :
  ((∃ d, prepare_data strip csv roles = Ok d) ↔
     expected ⊆ csv_columns csv ∧
     Forall castable (csv_rows csv) ∧
     Forall (λ r, ∀ z, raw_Position r = Some z → z ∈ roles) (csv_rows csv) ∧
     NoDup ((λ r, strip (raw_Name r)) <$> csv_rows csv)) ∧
  (¬ expected ⊆ csv_columns csv →
     prepare_data strip csv roles
     = Raise (missing_error (missing_columns (csv_columns csv)))) ∧
  (expected ⊆ csv_columns csv → Forall castable (csv_rows csv) →
     ¬ Forall (λ r, ∀ z, raw_Position r = Some z → z ∈ roles) (csv_rows csv) →
     prepare_data strip csv roles = Raise unknown_roles_error).
Proof.
  assert (Hroles : ∀ d, Forall2 (cleaned strip) (csv_rows csv) d →
            Forall (λ p, Position p ∈ roles) d ↔
            Forall (λ r, ∀ z, raw_Position r = Some z → z ∈ roles) (csv_rows csv)).
  { intros d Hcl.
    induction Hcl as [|r p rows d (_ & _ & Hp & _) _ IH].
    - split; constructor.
    - rewrite !Forall_cons, IH. rewrite Hp. split.
      + intros [H1 H2]. split; [|done]. by intros z [= <-].
      + intros [H1 H2]. split; [|done]. by apply H1. }
  split; [|split].
  - split.
    + intros [d Hd]. apply prepare_data_inv in Hd as (Hcols & Hcl & Hr & Hnd).
      split; [done|]. split; [by eapply cleaned_castable|].
      split; [by apply (Hroles d)|].
      by rewrite <- (proj1 (cleaned_names _ _ _ Hcl)).
    + intros (Hcols & Hcast & Hr & Hnd).
      exists (clean_row strip <$> csv_rows csv).
      pose proof (clean_row_cleaned strip _ Hcast) as Hcl.
      apply prepare_data_inv. split; [done|]. split; [done|].
      split; [by apply (Hroles _ Hcl)|].
      by rewrite (proj1 (cleaned_names _ _ _ Hcl)).
  - intros Hmiss. unfold prepare_data.
    destruct (missing_columns (csv_columns csv)) as [|c l] eqn:Hm; [|done].
    exfalso. by apply Hmiss, missing_columns_nil.
  - intros Hcols Hcast Hbad. unfold prepare_data.
    apply missing_columns_nil in Hcols. rewrite Hcols. simpl.
    pose proof (clean_row_cleaned strip _ Hcast) as Hcl.
    destruct (cleaned_columns _ _ _ Hcl) as (Hpo & Hca & Hsk).
    rewrite (proj2 (cast_column_Ok "Position" _ _) Hpo). simpl.
    rewrite (proj2 (cast_column_Ok "Captain" _ _) Hca). simpl.
    rewrite (proj2 (cast_column_Ok "Skill" _ _) Hsk). simpl.
    rewrite bool_decide_eq_true_2; [done|].
    intros He. apply Hbad. apply (Hroles _ Hcl).
    apply bad_roles_empty in He. unfold pos in He. by apply Forall_fmap in He.
Qed.

(** X11.  Avoid targets are matched with names after both have been
    stripped: in the table of an accepted file, row [i] avoids row [j]
    exactly when the avoid cell of [i], stripped, is not empty and equals the
    stripped name of [j].  A cell of blanks names nobody. *)
Theorem X11_avoid_matching (strip : string → string) (csv : Csv) (roles : list Z)
    (d : list Player) (i j : nat) :
  prepare_data strip csv roles = Ok d →
  ((i, j) ∈ avoid_pairs d ↔
   ∃ ri rj a, csv_rows csv !! i = Some ri ∧ csv_rows csv !! j = Some rj ∧
              raw_Avoid ri = Some a ∧ strip a ≠ "" ∧ strip a = strip (raw_Name rj)).
Proof.
  intros (_ & Hcl & _ & Hnd)%prepare_data_inv.
  assert (Hidx : ∀ n k, name_to_idx d !! n = Some k ↔
            ∃ r, csv_rows csv !! k = Some r ∧ n = strip (raw_Name r)).
  { intros n k. split.
    - intros Hk%name_to_idx_Some. unfold players in Hk.
      rewrite list_lookup_fmap in Hk.
      destruct (d !! k) as [p|] eqn:Hp; [|done]. injection Hk as <-.
      destruct (Forall2_lookup_r _ _ _ _ _ Hcl Hp) as (r & Hr & Hn & _).
      by exists r.
    - intros (r & Hr & ->).
      destruct (Forall2_lookup_l _ _ _ _ _ Hcl Hr) as (p & Hp & Hn & _).
      apply name_to_idx_NoDup; [done|]. unfold players.
      by rewrite list_lookup_fmap, Hp, <- Hn. }
  rewrite elem_of_avoid_pairs. split.
  - intros (p & b & Hp & Hb & Hi & Hj).
    apply Hidx in Hi as (ri & Hri & Hni). apply Hidx in Hj as (rj & Hrj & ->).
    destruct (Forall2_lookup_l _ _ _ _ _ Hcl Hri) as (p' & Hp' & Hn' & _ & _ & _ & Ha').
    assert (p' = p) as ->.
    { apply list_elem_of_lookup in Hp as [k Hk].
      assert (k = i) as ->; [|congruence].
      eapply NoDup_lookup; [exact Hnd| |].
      - unfold players. by rewrite list_lookup_fmap, Hk.
      - unfold players. rewrite list_lookup_fmap, Hp'. simpl. congruence. }
    rewrite Hb in Ha'. symmetry in Ha'.
    apply clean_avoid_Some in Ha' as (a & Ha & He & Hne).
    exists ri, rj, a. by repeat split.
  - intros (ri & rj & a & Hri & Hrj & Ha & Hne & He).
    destruct (Forall2_lookup_l _ _ _ _ _ Hcl Hri) as (p & Hp & Hn & _ & _ & _ & Hav).
    exists p, (strip a). split; [by eapply list_elem_of_lookup_2|].
    split; [|split].
    + rewrite Hav. apply clean_avoid_Some. by exists a.
    + apply Hidx. by exists ri.
    + apply Hidx. by exists rj.
Qed.

Lemma X11_avoid_matching_witness :
  prepare_data ascii_strip signups_avoid [1; 2]
  = Ok [ player "P1" 10 1 0 (Some "P4"); player "P2" 20 1 1 None;
         player "P3" 15 2 0 None; player "P4" 25 2 1 None ] ∧
  (0, 3)%nat ∈ avoid_pairs [ player "P1" 10 1 0 (Some "P4"); player "P2" 20 1 1 None;
                             player "P3" 15 2 0 None; player "P4" 25 2 1 None ].
Proof.
  assert (H : prepare_data ascii_strip signups_avoid [1; 2]
              = Ok [ player "P1" 10 1 0 (Some "P4"); player "P2" 20 1 1 None;
                     player "P3" 15 2 0 None; player "P4" 25 2 1 None ])
    by (vm_compute; reflexivity).
  split; [exact H|].
  apply (proj2 (X11_avoid_matching _ _ _ _ 0%nat 3%nat H)).
  exists (raw "P1" 10 1 0 (Some " P4 ")), (raw " P4" 25 2 1 None), " P4 ".
  repeat split; try reflexivity. vm_compute. discriminate.
Defined.

(** * The number of teams *)

Lemma length_by_position (d : list Player) :
  Zsum ((λ r, Z.of_nat (length (filter (λ p, Position p = r) d)))
          <$> sorted_set (pos d))
  = Z.of_nat (length d).
Proof.
  pose proof (sum_over_keys Position (λ _, 1) d (sorted_set (pos d))
                (NoDup_sorted_set _)) as H.
  rewrite Zsum_const in H. rewrite Z.mul_1_r in H. rewrite <- H.
  - apply Zsum_ext. intros r _. by rewrite (Zsum_count (λ p, Position p = r)).
  - apply Forall_forall. intros p Hp. apply elem_of_sorted_set.
    unfold pos. apply list_elem_of_fmap. by exists p.
Qed.

Lemma set_eq_lists (l k : list Z) :
  list_to_set l =@{gset Z} list_to_set k ↔ ∀ z, z ∈ l ↔ z ∈ k.
Proof.
  rewrite set_eq. by setoid_rewrite elem_of_list_to_set.
Qed.

Lemma counted_teams_Return d roles T :
  counted_teams d roles = Return T ↔
  d ≠ [] ∧ (∀ z, z ∈ pos d ↔ z ∈ roles) ∧
  ∀ r, r ∈ roles → Z.of_nat (length (filter (λ p, Position p = r) d)) = T.
Proof.
  unfold counted_teams, position_counts.
  rewrite <- !list_fmap_compose.
  change (fst ∘ _) with (λ r : Z, r). rewrite list_fmap_id.
  change (snd ∘ _) with (λ r, length (filter (λ p, Position p = r) d)).
  destruct (decide (list_to_set (sorted_set (pos d)) =@{gset Z} list_to_set roles))
    as [Heq|Hne].
  - rewrite bool_decide_eq_false_2 by (by intros ?).
    pose proof (proj1 (set_eq_lists _ _) Heq) as Heq'. clear Heq. rename Heq' into Heq.
    setoid_rewrite elem_of_sorted_set in Heq.
    destruct (sorted_set (pos d)) as [|r0 rs] eqn:Hs.
    + simpl. split; [discriminate|]. intros (Hd & _ & _). exfalso.
      destruct d as [|p d]; [done|].
      assert (Position p ∈ sorted_set (pos (p :: d))) as Hin.
      { apply elem_of_sorted_set. left. }
      rewrite Hs in Hin. by apply elem_of_nil in Hin.
    + rewrite fmap_cons.
      set (cnt := λ r, length (filter (λ p, Position p = r) d)).
      assert (Hd : d ≠ []).
      { intros ->. simpl in Hs. discriminate. }
      assert (Hmem : ∀ r, r ∈ roles ↔ r ∈ r0 :: rs).
      { intros r. rewrite <- Hs, elem_of_sorted_set. symmetry. apply Heq. }
      destruct (forallb _ _) eqn:Hall.
      * rewrite forallb_forall in Hall.
        assert (Hc : ∀ r, r ∈ roles → cnt r = cnt r0).
        { intros r Hr. apply Nat.eqb_eq, Hall, list_elem_of_In.
          change (cnt r ∈ cnt <$> (r0 :: rs)). apply list_elem_of_fmap. exists r.
          split; [done|]. by apply Hmem. }
        split.
        -- intros [= <-]. split; [done|]. split; [done|].
           intros r Hr. f_equal. exact (Hc r Hr).
        -- intros (_ & _ & HT). f_equal. apply HT, Hmem. left.
      * split; [discriminate|]. intros (_ & _ & HT). exfalso.
        apply not_true_iff_false in Hall. apply Hall.
        apply forallb_forall. intros c Hc%list_elem_of_In.
        change (c ∈ cnt <$> (r0 :: rs)) in Hc.
        apply list_elem_of_fmap in Hc as (r & -> & Hr%Hmem).
        apply Nat.eqb_eq. apply Nat2Z.inj. unfold cnt.
        etrans; [apply (HT r Hr)|]. symmetry. apply HT, Hmem. left.
  - rewrite bool_decide_eq_true_2 by done. split; [discriminate|].
    intros (_ & Hset & _). exfalso. apply Hne. apply (proj2 (set_eq_lists _ _)).
    intros z. rewrite elem_of_sorted_set. apply Hset.
Qed.

Lemma counted_teams_Throw d roles e :
  counted_teams d roles = Throw e →
  (e = IndexError ∧ d = [] ∧ roles = []) ∨ (∃ msg, e = Core (ValueError msg)).
Proof.
  unfold counted_teams, position_counts.
  rewrite <- !list_fmap_compose.
  change (fst ∘ _) with (λ r : Z, r). rewrite list_fmap_id.
  change (snd ∘ _) with (λ r, length (filter (λ p, Position p = r) d)).
  destruct (bool_decide _) eqn:Hset.
  - intros [= <-]. right. by eexists.
  - apply bool_decide_eq_false_1 in Hset. apply dec_stable in Hset.
    pose proof (proj1 (set_eq_lists _ _) Hset) as Heq.
    destruct (sorted_set (pos d)) as [|r0 rs] eqn:Hs.
    + simpl. intros [= <-]. left. split; [done|].
      assert (Hd : d = []).
      { destruct d as [|p d]; [done|]. exfalso.
        assert (Position p ∈ sorted_set (pos (p :: d))) as Hin
          by (apply elem_of_sorted_set; left).
        rewrite Hs in Hin. by apply elem_of_nil in Hin. }
      split; [done|]. destruct roles as [|r roles]; [done|]. exfalso.
      apply (elem_of_nil r), Heq. left.
    + rewrite fmap_cons. destruct (forallb _ _); [discriminate|].
      intros [= <-]. right. by eexists.
Qed.

Lemma inferred_teams d roles T :
  infer_num_teams d roles None = Return T ↔
  d ≠ [] ∧ NoDup roles ∧ (∀ r, r ∈ pos d ↔ r ∈ roles) ∧
  ∀ r, r ∈ roles → Z.of_nat (length (filter (λ p, Position p = r) d)) = T.
Proof.
  unfold infer_num_teams.
  assert (Hlen : ∀ T0, (∀ r, r ∈ pos d ↔ r ∈ roles) →
            (∀ r, r ∈ roles → Z.of_nat (length (filter (λ p, Position p = r) d)) = T0) →
            Z.of_nat (length d) = Z.of_nat (length (sorted_set (pos d))) * T0).
  { intros T0 Hset HT. rewrite <- length_by_position.
    rewrite (Zsum_ext _ (λ _, T0)); [apply Zsum_const|].
    intros r Hr. apply HT, Hset, elem_of_sorted_set, Hr. }
  assert (Hpos : ∀ T0, d ≠ [] → (∀ r, r ∈ pos d ↔ r ∈ roles) →
            (∀ r, r ∈ roles → Z.of_nat (length (filter (λ p, Position p = r) d)) = T0) →
            1 <= T0).
  { intros T0 Hd Hset HT. destruct d as [|p d']; [done|].
    rewrite <- (HT (Position p)) by (apply Hset; left).
    rewrite filter_cons_True by done. simpl length. lia. }
  assert (Hsub : (∀ r, r ∈ pos d ↔ r ∈ roles) → sorted_set (pos d) ⊆+ roles).
  { intros Hset. apply NoDup_submseteq; [apply NoDup_sorted_set|].
    intros r Hr. apply Hset, elem_of_sorted_set, Hr. }
  destruct (counted_teams d roles) as [T0|e] eqn:Hc; simpl.
  - apply counted_teams_Return in Hc as (Hd & Hset & HT).
    pose proof (Hlen _ Hset HT) as Hl. pose proof (Hpos _ Hd Hset HT) as HT1.
    destruct (decide (Z.of_nat (length d) ≠ T0 * Z.of_nat (length roles))) as [Hne|He].
    + rewrite bool_decide_eq_true_2 by done. split; [discriminate|].
      intros (_ & Hnd & _ & HT'). exfalso. apply Hne.
      assert (roles ≡ₚ sorted_set (pos d)) as Hperm.
      { apply NoDup_Permutation; [done|apply NoDup_sorted_set|].
        intros r. rewrite elem_of_sorted_set. symmetry. apply Hset. }
      rewrite Hperm. lia.
    + rewrite bool_decide_eq_false_2 by done. apply dec_stable in He.
      assert (Hnd : NoDup roles).
      { assert (sorted_set (pos d) ≡ₚ roles) as <-; [|apply NoDup_sorted_set].
        apply submseteq_length_Permutation; [by apply Hsub|]. nia. }
      split.
      * intros [= <-]. done.
      * intros (_ & _ & _ & HT'). f_equal.
        destruct d as [|p d']; [done|].
        rewrite <- (HT (Position p)) by (apply Hset; left).
        apply HT', Hset. left.
  - split; [discriminate|]. intros (Hd & _ & Hset & HT). exfalso.
    assert (counted_teams d roles = Return T) as Hc'
      by (by apply counted_teams_Return).
    congruence.
Qed.

Lemma infer_num_teams_Throw d roles cfg e :
  infer_num_teams d roles cfg = Throw e →
  (e = IndexError ∧ cfg = None ∧ d = [] ∧ roles = []) ∨
  (∃ msg, e = Core (ValueError msg)).
Proof.
  unfold infer_num_teams. destruct cfg as [n|]; simpl.
  - destruct (bool_decide _); [|discriminate]. intros [= <-]. right. by eexists.
  - destruct (counted_teams d roles) as [T0|e0] eqn:Hc; simpl.
    + destruct (bool_decide _); [|discriminate]. intros [= <-]. right. by eexists.
    + intros [= <-]. apply counted_teams_Throw in Hc as [(-> & -> & ->)|Hv].
      * by left.
      * by right.
Qed.

(** X12.  With no configured number of teams, [infer_num_teams] returns [T]
    exactly when the table is not empty, the configured roles are pairwise
    different and are the positions that occur, and every role is held by
    [T] players.  Then [T] is at least 1 and the table has
    [T * len(roles)] rows.  A role listed twice in the configuration is
    rejected although no check names it. *)
Theorem X12_inferred_teams (d : list Player) (roles : list Z) (T : Z) :
  (infer_num_teams d roles None = Return T ↔
   d ≠ [] ∧ NoDup roles ∧ (∀ r, r ∈ pos d ↔ r ∈ roles) ∧
   ∀ r, r ∈ roles → Z.of_nat (length (filter (λ p, Position p = r) d)) = T) ∧
  (infer_num_teams d roles None = Return T →
   1 <= T ∧ Z.of_nat (length d) = T * Z.of_nat (length roles)).
Proof.
  split; [apply inferred_teams|].
  intros H. pose proof H as (Hd & Hnd & Hset & HT)%inferred_teams.
  split.
  - destruct d as [|p d']; [done|].
    rewrite <- (HT (Position p)) by (apply Hset; left).
    rewrite filter_cons_True by done. simpl length. lia.
  - unfold infer_num_teams in H.
    destruct (counted_teams d roles) as [T0|]; simpl in H; [|discriminate].
    destruct (bool_decide _) eqn:Hb; [discriminate|]. injection H as ->.
    apply bool_decide_eq_false_1 in Hb. by apply dec_stable in Hb.
Qed.

(** X13.  What [infer_num_teams] raises: an [IndexError], exactly when no
    number of teams is configured and both the table and the list of roles
    are empty, and a [ValueError] otherwise. *)
Theorem X13_infer_errors (d : list Player) (roles : list Z) (cfg : option Z) :
  (infer_num_teams d roles cfg = Throw IndexError ↔
   cfg = None ∧ d = [] ∧ roles = []) ∧
  (∀ e, infer_num_teams d roles cfg = Throw e →
        e = IndexError ∨ ∃ msg, e = Core (ValueError msg)).
Proof.
  split.
  - split.
    + intros [(_ & H)|[msg Hm]]%infer_num_teams_Throw; [done|discriminate].
    + intros (-> & -> & ->). vm_compute. reflexivity.
  - intros e [(-> & _)|Hv]%infer_num_teams_Throw; [by left|by right].
Qed.

(** * The whole run *)

Lemma run_inv strip solve cfg csv res :
  result (run strip solve cfg csv) = Return res →
  ∃ d T, prepare_data strip csv (cfg_roles cfg) = Ok d ∧
         infer_num_teams d (cfg_roles cfg) (cfg_num_teams cfg) = Return T ∧
         outcome (build_and_solve solve (inputs_of cfg d T)) = Ok res ∧
         engine_calls (run strip solve cfg csv)
         = solver_calls (build_and_solve solve (inputs_of cfg d T)).
Proof.
  unfold run. destruct (prepare_data _ _ _) as [d|] eqn:Hd; [|discriminate].
  destruct (infer_num_teams _ _ _) as [T|] eqn:HT; [|discriminate]. simpl.
  destruct (outcome _) as [res'|] eqn:Ho; [|discriminate]. simpl.
  intros [= <-]. by exists d, T.
Qed.

Lemma infer_num_teams_length d roles cfg T :
  infer_num_teams d roles cfg = Return T →
  Z.of_nat (length d) = T * Z.of_nat (length roles).
Proof.
  unfold infer_num_teams.
  destruct (match cfg with Some n => Return n | None => counted_teams d roles end)
    as [T0|]; simpl; [|discriminate].
  destruct (bool_decide _) eqn:Hb; [discriminate|]. intros [= <-].
  apply bool_decide_eq_false_1 in Hb. by apply dec_stable in Hb.
Qed.

(** X14.  What a run that gets a result guarantees, from the file to the
    table: the engine was called once; the rows of the table are the cleaned
    rows of the file, in order, with pairwise different names; every row has
    a team in [1..T], [T] being the number of teams [infer_num_teams]
    accepts for that table; every team has exactly one row for each
    configured role and as many rows as the configuration lists roles. *)
Theorem X14_run_result (strip : string → string) (solve : Solver) (cfg : Config)
    (csv : Csv) (out : list OutRow) (diag : Diagnostics) :
  solver_sound solve →
  result (run strip solve cfg csv) = Return (out, diag) →
  ∃ T,
    infer_num_teams (row <$> out) (cfg_roles cfg) (cfg_num_teams cfg) = Return T ∧
    length (engine_calls (run strip solve cfg csv)) = 1%nat ∧
    Forall2 (cleaned strip) (csv_rows csv) (row <$> out) ∧
    NoDup (players (row <$> out)) ∧
    Forall (λ o, 1 <= Team o <= T) out ∧
    (∀ t r, 1 <= t <= T → r ∈ cfg_roles cfg →
       length (filter (λ o, Position (row o) = r ∧ Team o = t) out) = 1%nat) ∧
    (∀ t, 1 <= t <= T → length (team_rows out t) = length (cfg_roles cfg)).
Proof.
  intros Hsound (d & T & Hd & HT & Ho & Hcalls)%run_inv.
  destruct (returned_table _ _ _ _ Hsound Ho)
    as (pcs & cp & v & Hsat & Hout & Hrows & Hrange & _ & _).
  simpl in Hrows, Hrange. rewrite Hrows.
  apply prepare_data_inv in Hd as (_ & Hcl & Hroles & Hnd).
  exists T. split; [done|]. split.
  { rewrite Hcalls. unfold build_and_solve in *.
    destruct (build_model _); [done|discriminate]. }
  split; [done|]. split; [done|]. split; [done|]. split.
  - intros t r Ht Hr. rewrite Hout.
    exact (slot_unique _ _ _ _ _ Hsat t r Ht Hr).
  - intros t Ht.
    destruct (returned_team_sizes _ _ _ _ Hsound Ho Hroles) as [Hsize Hlen].
    simpl in Hsize, Hlen. rewrite (Hsize t Ht).
    apply infer_num_teams_length in HT. apply Nat2Z.inj. nia.
Qed.

Lemma X14_run_result_witness :
  solver_sound (checked OPTIMAL split_35_35) ∧
  result (run ascii_strip (checked OPTIMAL split_35_35) config4 signups)
    = Return (scenario_out, scenario_diag) ∧
  ∃ T, infer_num_teams (row <$> scenario_out) (cfg_roles config4)
         (cfg_num_teams config4) = Return T ∧
       length (engine_calls (run ascii_strip (checked OPTIMAL split_35_35)
                               config4 signups)) = 1%nat.
Proof.
  assert (Hs : solver_sound (checked OPTIMAL split_35_35)) by apply checked_sound.
  assert (Ho : result (run ascii_strip (checked OPTIMAL split_35_35) config4 signups)
               = Return (scenario_out, scenario_diag)) by (vm_compute; reflexivity).
  split; [exact Hs|]. split; [exact Ho|].
  destruct (X14_run_result _ _ _ _ _ _ Hs Ho) as (T & HT & Hc & _).
  exists T. exact (conj HT Hc).
Defined.

(** Once the model is built, a run of [build_and_solve] with an engine that
    honours its contract can only fail for want of a solution. *)
Lemma raise_after_build (solve : Solver) (inp : Inputs) (b : Built) (e : Exn) :
  solver_sound solve →
  build_model inp = Ok b →
  outcome (build_and_solve solve inp) = Raise e →
  e = no_assignment ∧
  solver_calls (build_and_solve solve inp) = [(b_model b, solver_params inp)].
Proof.
  intros Hsound Hb. unfold build_and_solve. rewrite Hb. simpl.
  destruct (usable _) eqn:Hu.
  - pose proof (Hsound _ _ Hu) as Hsat.
    pose proof Hb as (pcs & cp & _ & _ & _ & _ & ->)%build_model_inv.
    destruct (team_column_succeeds inp pcs (target_of inp) cp _ Hsat)
      as [teams Hteams].
    unfold extract. rewrite Hteams. simpl. discriminate.
  - by intros [= <-].
Qed.

(** X15.  A configured number of teams switches the check of the roles off:
    [infer_num_teams] then compares the number of rows only.  A run on a
    table in which some configured role is not held by that many players
    never gets a result; when the number of rows fits and the builder gets
    as far as the call of the solver (which takes a seed of 31 bits among
    other things), the run ends in the runtime error of the solver stage,
    after the engine has been called once. *)
Theorem X15_uneven_roles (strip : string → string) (solve : Solver) (cfg : Config)
    (csv : Csv) (d : list Player) (n r : Z) :
  solver_sound solve →
  cfg_num_teams cfg = Some n →
  prepare_data strip csv (cfg_roles cfg) = Ok d →
  r ∈ cfg_roles cfg →
  Z.of_nat (length (filter (λ p, Position p = r) d)) ≠ n →
  ∃ e, result (run strip solve cfg csv) = Throw e ∧
       (Z.of_nat (length d) = n * Z.of_nat (length (cfg_roles cfg)) →
        ∀ b, build_model (inputs_of cfg d n) = Ok b →
             e = Core no_assignment ∧
             engine_calls (run strip solve cfg csv)
             = [(b_model b, solver_params (inputs_of cfg d n))] ∧
             0 <= cfg_random_seed cfg < 2 ^ 31).
Proof.
  intros Hsound Hn Hd Hr Hcount.
  destruct (result (run strip solve cfg csv)) as [[out diag]|e] eqn:Hres.
  { exfalso. apply run_inv in Hres as (d' & T & Hd' & HT & Ho & _).
    rewrite Hd in Hd'. injection Hd' as <-. rewrite Hn in HT.
    pose proof (infer_num_teams_length _ _ _ _ HT) as Hlen.
    unfold infer_num_teams in HT. simpl in HT.
    destruct (bool_decide _); [discriminate|]. injection HT as <-.
    pose proof (returned_role_counts _ _ _ _ Hsound Ho r Hr) as Hc. simpl in Hc.
    destruct (decide (0 <= n)) as [Hpos|Hneg]; [lia|].
    assert (0 < length (cfg_roles cfg))%nat.
    { destruct (cfg_roles cfg); [by apply elem_of_nil in Hr|simpl; lia]. }
    nia. }
  exists e. split; [done|]. intros Hlen b Hb.
  unfold run in *. rewrite Hd, Hn in *.
  assert (HT : infer_num_teams d (cfg_roles cfg) (Some n) = Return n).
  { unfold infer_num_teams. simpl. by rewrite bool_decide_eq_false_2 by (by intros ?). }
  rewrite HT in *. simpl in Hres. simpl.
  destruct (outcome (build_and_solve solve (inputs_of cfg d n))) as [res|e'] eqn:Ho;
    [discriminate|].
  simpl in Hres. injection Hres as <-.
  destruct (raise_after_build _ _ _ _ Hsound Hb Ho) as [-> Hcalls].
  apply build_model_checks in Hb as (_ & _ & _ & _ & _ & _ & _ & _ & _ & Hseed).
  done.
Qed.

Lemma X15_uneven_roles_witness :
  solver_sound (gives_up INFEASIBLE) ∧
  cfg_num_teams config_two_teams = Some 2 ∧
  prepare_data ascii_strip signups_uneven (cfg_roles config_two_teams)
    = Ok roster_uneven ∧
  2 ∈ cfg_roles config_two_teams ∧
  Z.of_nat (length (filter (λ p, Position p = 2) roster_uneven)) ≠ 2 ∧
  ∃ e, result (run ascii_strip (gives_up INFEASIBLE) config_two_teams signups_uneven)
       = Throw e.
Proof.
  assert (Hs : solver_sound (gives_up INFEASIBLE)) by (by apply gives_up_sound).
  assert (Hd : prepare_data ascii_strip signups_uneven (cfg_roles config_two_teams)
               = Ok roster_uneven) by (vm_compute; reflexivity).
  assert (Hr : 2 ∈ cfg_roles config_two_teams) by (simpl; right; left).
  assert (Hc : Z.of_nat (length (filter (λ p, Position p = 2) roster_uneven)) ≠ 2)
    by (vm_compute; discriminate).
  destruct (X15_uneven_roles ascii_strip (gives_up INFEASIBLE) config_two_teams
              signups_uneven roster_uneven 2 2 Hs eq_refl Hd Hr Hc) as (e & He & _).
  exact (conj Hs (conj eq_refl (conj Hd (conj Hr (conj Hc (ex_intro _ e He)))))).
Defined.

(** * The figures *)

Lemma Qceiling_div_bounds (T c : Z) :
  0 < c →
  (Qceiling (inject_Z T / inject_Z c) - 1) * c < T <= Qceiling (inject_Z T / inject_Z c) * c.
Proof.
  intros Hc. set (q := (inject_Z T / inject_Z c)%Q).
  assert (Hc0 : ¬ (inject_Z c == 0)%Q).
  { intros H. unfold Qeq in H. simpl in H. lia. }
  assert (Hcpos : (0 < inject_Z c)%Q).
  { change 0%Q with (inject_Z 0). rewrite <- Zlt_Qlt. lia. }
  assert (Hq : (q * inject_Z c == inject_Z T)%Q).
  { unfold q. field. exact Hc0. }
  pose proof (Qle_ceiling q) as Hup. pose proof (Qceiling_lt q) as Hlo.
  split.
  - rewrite Zlt_Qlt, <- Hq, inject_Z_mult.
    apply Qmult_lt_compat_r; [exact Hcpos|exact Hlo].
  - rewrite Zle_Qle, <- Hq, inject_Z_mult.
    apply Qmult_le_compat_r; [exact Hup|]. by apply Qlt_le_weak.
Qed.

Lemma grid_spec (width T : Z) :
  1 <= width → 0 <= T →
  (grid width T = Throw (Core ZeroDivisionError) ↔ T = 0) ∧
  (T ≠ 0 → ∃ rows cols, grid width T = Return (rows, cols) ∧
                        cols = Z.min width T ∧ fits width T rows cols).
Proof.
  intros Hw HT. unfold grid. destruct (Z.eqb_spec (Z.min width T) 0) as [He|Hne].
  - assert (T = 0) by lia. split; [done|]. done.
  - split; [split; [discriminate|lia]|]. intros _.
    eexists _, _. split; [done|]. split; [done|].
    unfold fits. split; [lia|]. apply Qceiling_div_bounds. lia.
Qed.

Lemma teams_of_nil out : teams_of out = [] ↔ out = [].
Proof.
  unfold teams_of. split; [|by intros ->].
  destruct out as [|o out]; [done|]. intros H. exfalso.
  assert (Team o ∈ sorted_set (Team <$> o :: out)) as Hin
    by (apply elem_of_sorted_set; left).
  rewrite H in Hin. by apply elem_of_nil in Hin.
Qed.

(** X16.  The grids of panels of [plot_mmr_bars_per_team] and
    [plot_team_reports]: on an empty table both functions divide by zero;
    on any other table the grid has at most 4 (respectively 3) columns,
    every team of the table has a cell, and no line of the grid is empty. *)
Theorem X16_panel_grids (out : list OutRow) :
  (mmr_bars_grid out = Throw (Core ZeroDivisionError) ↔ out = []) ∧
  (team_reports_grid out = Throw (Core ZeroDivisionError) ↔ out = []) ∧
  (out ≠ [] →
   ∃ r4 c4 r3 c3,
     mmr_bars_grid out = Return (r4, c4) ∧
     team_reports_grid out = Return (r3, c3) ∧
     fits 4 (Z.of_nat (length (teams_of out))) r4 c4 ∧
     fits 3 (Z.of_nat (length (teams_of out))) r3 c3).
Proof.
  assert (Hlen : Z.of_nat (length (teams_of out)) = 0 ↔ out = []).
  { rewrite <- teams_of_nil. destruct (teams_of out); simpl; split; (done || lia). }
  unfold mmr_bars_grid, team_reports_grid.
  destruct (grid_spec 4 (Z.of_nat (length (teams_of out)))) as [H4 H4']; [lia..|].
  destruct (grid_spec 3 (Z.of_nat (length (teams_of out)))) as [H3 H3']; [lia..|].
  split; [by rewrite H4|]. split; [by rewrite H3|].
  intros Hne. rewrite <- Hlen in Hne.
  destruct (H4' Hne) as (r4 & c4 & E4 & _ & F4).
  destruct (H3' Hne) as (r3 & c3 & E3 & _ & F3).
  by exists r4, c4, r3, c3.
Qed.

Lemma insert_sorted_perm r l : insert_sorted r l ≡ₚ r :: l.
Proof.
  induction l as [|h t IH]; simpl; [done|].
  destruct (r <=? h); [done|]. rewrite IH. apply Permutation_swap.
Qed.

Lemma sorted_perm l : sorted l ≡ₚ l.
Proof.
  induction l as [|a l IH]; simpl; [done|].
  by rewrite insert_sorted_perm, IH.
Qed.

Lemma mapM_Return {A B} (f : A → Outcome B) (R : A → B → Prop) (l : list A) :
  (∀ x, x ∈ l → ∃ y, f x = Return y ∧ R x y) →
  ∃ ys, mapM f l = Return ys ∧ Forall2 R l ys.
Proof.
  induction l as [|x l IH]; intros H.
  - exists []. split; [done|constructor].
  - destruct (H x) as (y & Hy & HR); [left|].
    destruct IH as (ys & Hys & Hall); [intros z Hz; apply H; by right|].
    exists (y :: ys). split; [|by constructor].
    simpl. rewrite Hy. simpl. rewrite Hys. done.
Qed.

Lemma sorted_lists_equal (l k : list Z) :
  StronglySorted Z.lt l → StronglySorted Z.lt k → (∀ z, z ∈ l ↔ z ∈ k) → l = k.
Proof.
  intros Hl. revert k. induction Hl as [|a l Hl IH Ha]; intros k Hk Heq.
  - destruct k as [|b k]; [done|]. exfalso. apply (elem_of_nil b), Heq. left.
  - destruct Hk as [|b k Hk Hb].
    { exfalso. apply (elem_of_nil a), Heq. left. }
    rewrite Forall_forall in Ha, Hb.
    assert (a = b) as <-.
    { assert (Hab : a ∈ b :: k) by (apply Heq; left).
      assert (Hba : b ∈ a :: l) by (apply Heq; left).
      apply elem_of_cons in Hab as [?|Hab]; [done|].
      apply elem_of_cons in Hba as [?|Hba]; [done|].
      specialize (Ha _ Hba). specialize (Hb _ Hab). lia. }
    f_equal. apply IH; [done|]. intros z. split.
    + intros Hz. assert (z ∈ a :: k) as [->|?]%elem_of_cons by (apply Heq; by right);
        [|done]. specialize (Ha _ Hz). lia.
    + intros Hz. assert (z ∈ a :: l) as [->|?]%elem_of_cons by (apply Heq; by right);
        [|done]. specialize (Hb _ Hz). lia.
Qed.

Lemma team_labels_sorted T : StronglySorted Z.lt (team_labels T).
Proof.
  unfold team_labels, team_ids. generalize (Z.to_nat T) as n. generalize 0%nat as s.
  intros s n. revert s. induction n as [|n IH]; intros s; simpl; [constructor|].
  constructor; [apply IH|].
  apply Forall_fmap, Forall_forall. intros t Ht%elem_of_seq. simpl. lia.
Qed.

Lemma mapM_Throw {A B} (f : A → Outcome B) (x : A) (l : list A) e :
  f x = Throw e → mapM f (x :: l) = Throw e.
Proof. intros H. simpl. by rewrite H. Qed.

Lemma sorted_nil l : sorted l = [] → l = [].
Proof.
  intros H. apply Permutation_nil. rewrite <- H. apply sorted_perm.
Qed.

Lemma mapM_no_column {A} (f : A → Outcome (list Q)) (l : list A) :
  (∀ x, f x = Return []) → mapM f l = Return ((λ _, []) <$> l).
Proof.
  intros H. induction l as [|x l IH]; [done|]. simpl. rewrite H. simpl.
  by rewrite IH.
Qed.

(** X17.  The figures of a returned table.  With a pandas before 3.0 the
    heat map of [plot_avg_role_mmr_by_team] never fails on the conversion of
    a cell: for every team of the table and every entry of the sorted roles
    there is exactly one row, and the matrix has a line per team and a column
    per entry, each cell holding the skill of the row with that team and
    role.  With pandas 3.0 or later the conversion raises [TypeError] as soon
    as there is a row and a role; without a row or without a role the matrix
    has no cell.  When a role is declared, the teams shown are
    [1..num_teams], in order. *)
Theorem X17_heat_map (solve : Solver) (inp : Inputs) (out : list OutRow)
    (diag : Diagnostics) :
  solver_sound solve →
  outcome (build_and_solve solve inp) = Ok (out, diag) →
  (∃ data, heat_data pandas_2 out (roles inp) = Return data ∧
           Forall2 (λ t line, Forall2 (cell_of out t) (sorted (roles inp)) line)
                   (teams_of out) data) ∧
  (roles inp ≠ [] → out ≠ [] →
   heat_data pandas_3 out (roles inp) = Throw (Core TypeError)) ∧
  (roles inp = [] ∨ out = [] →
   heat_data pandas_3 out (roles inp) = Return ((λ _, []) <$> teams_of out)) ∧
  (roles inp ≠ [] → teams_of out = team_labels (num_teams inp)).
Proof.
  intros Hsound Hres.
  destruct (returned_table _ _ _ _ Hsound Hres)
    as (pcs & cp & v & Hsat & Hout & Hrows & Hrange & _ & _).
  assert (Hslot : ∀ t r, 1 <= t <= num_teams inp → r ∈ roles inp →
            ∃ o, filter (λ o, Position (row o) = r) (team_rows out t) = [o]).
  { intros t r Ht Hr. unfold team_rows. 
    pose proof (slot_unique _ _ _ _ _ Hsat t r Ht Hr) as Hlen.
    rewrite <- Hout in Hlen. rewrite list_filter_filter.
    destruct (filter _ out) as [|o [|o' l]]; try done. by exists o. }
  assert (Hteam : ∀ t, t ∈ teams_of out → 1 <= t <= num_teams inp).
  { intros t Ht. unfold teams_of in Ht. apply (proj1 (elem_of_sorted_set _ _)) in Ht.
    apply list_elem_of_fmap in Ht as (o & -> & Ho).
    rewrite Forall_forall in Hrange. by apply Hrange. }
  split; [|split; [|split]].
  - unfold heat_data. apply mapM_Return. intros t Ht.
    apply mapM_Return. intros r Hr. rewrite sorted_perm in Hr.
    destruct (Hslot t r (Hteam t Ht) Hr) as [o Ho].
    exists (Skill (row o)). unfold heat_cell. rewrite Ho. split; [done|].
    assert (o ∈ filter (λ o, Position (row o) = r) (team_rows out t)) as Hin
      by (rewrite Ho; left).
    apply list_elem_of_filter in Hin as [Hp Hin]. unfold team_rows in Hin.
    apply list_elem_of_filter in Hin as [Ht' Hin]. by exists o.
  - intros Hroles Hne. unfold heat_data.
    destruct (teams_of out) as [|t ts] eqn:Et; [by apply teams_of_nil in Et|].
    apply mapM_Throw.
    destruct (sorted (roles inp)) as [|r rs] eqn:Er; [by apply sorted_nil in Er|].
    by apply mapM_Throw.
  - intros [Hr| ->]; unfold heat_data.
    + rewrite Hr. by apply mapM_no_column.
    + done.
  - intros Hroles. apply sorted_lists_equal.
    + apply sorted_set_sorted.
    + apply team_labels_sorted.
    + intros t. rewrite elem_of_team_labels. split; [apply Hteam|].
      intros Ht. destruct (roles inp) as [|r rs] eqn:Hr; [done|].
      destruct (Hslot t r Ht) as [o Ho]; [left|].
      assert (o ∈ filter (λ o, Position (row o) = r) (team_rows out t)) as Hin
        by (rewrite Ho; left).
      apply list_elem_of_filter in Hin as [_ Hin]. unfold team_rows in Hin.
      apply list_elem_of_filter in Hin as [Ht' Hin].
      unfold teams_of. apply elem_of_sorted_set, list_elem_of_fmap. by exists o.
Qed.

Example heat_map_scenario :
  heat_data pandas_2 scenario_out (roles scenario) = Return [[10; 25]; [20; 15]]%Q ∧
  heat_data pandas_3 scenario_out (roles scenario) = Throw (Core TypeError).
Proof. split; vm_compute; reflexivity. Qed.

Lemma X17_heat_map_witness :
  solver_sound (checked OPTIMAL split_35_35) ∧
  outcome (build_and_solve (checked OPTIMAL split_35_35) scenario)
    = Ok (scenario_out, scenario_diag) ∧
  heat_data pandas_3 scenario_out (roles scenario) = Throw (Core TypeError) ∧
  teams_of scenario_out = team_labels (num_teams scenario).
Proof.
  assert (Hs : solver_sound (checked OPTIMAL split_35_35)) by apply checked_sound.
  assert (Ho : outcome (build_and_solve (checked OPTIMAL split_35_35) scenario)
               = Ok (scenario_out, scenario_diag)) by (vm_compute; reflexivity).
  destruct (X17_heat_map _ _ _ _ Hs Ho) as (_ & H3 & _ & Ht).
  split; [exact Hs|]. split; [exact Ho|]. split.
  - apply H3; discriminate.
  - apply Ht. discriminate.
Defined.

(** * Every validated table has an assignment *)

Lemma filter_seq_rank (f : nat → Prop) `{!∀ p, Decision (f p)} (P k p : nat) :
  filter f (seq 0 P) !! k = Some p → length (filter f (seq 0 p)) = k.
Proof.
  induction P as [|P IH]; [done|].
  rewrite seq_S, filter_app. simpl.
  destruct (decide (k < length (filter f (seq 0 P)))%nat) as [Hlt|Hge].
  - rewrite lookup_app_l by done. exact IH.
  - rewrite lookup_app_r by lia. rewrite filter_cons, filter_nil.
    destruct (decide (f P)); [|done].
    intros Hk. apply list_lookup_singleton_Some in Hk as [Hk <-]. lia.
Qed.

(** A sum of indicators of [g p = t] over a list whose [k]-th element has
    [g]-value [k]. *)
Lemma Zsum_indexed (g : nat → nat) (l : list nat) (t : nat) :
  (∀ k p, l !! k = Some p → g p = k) →
  Zsum ((λ p, if bool_decide (g p = t) then 1 else 0) <$> l)
  = if bool_decide (t < length l)%nat then 1 else 0.
Proof.
  induction l as [|p l IH] using rev_ind; intros H; [done|].
  rewrite fmap_app, Zsum_app, IH.
  2:{ intros k q Hk. apply H. rewrite lookup_app_l; [done|]. by eapply lookup_lt_Some. }
  assert (g p = length l) as Hp.
  { apply H. rewrite lookup_app_r by lia. by rewrite Nat.sub_diag. }
  simpl. rewrite Hp, length_app. simpl.
  repeat case_bool_decide; lia.
Qed.

Lemma Zsum_filter {A} (P : A → Prop) `{!∀ a, Decision (P a)} (w : A → Z) (l : list A) :
  Zsum ((λ a, if bool_decide (P a) then w a else 0) <$> l) = Zsum (w <$> filter P l).
Proof.
  induction l as [|a l IH]; [done|]. rewrite fmap_cons, filter_cons.
  change (Zsum ((if bool_decide (P a) then w a else 0)
                :: ((λ a, if bool_decide (P a) then w a else 0) <$> l)))
    with ((if bool_decide (P a) then w a else 0)
          + Zsum ((λ a, if bool_decide (P a) then w a else 0) <$> l)).
  rewrite IH. destruct (decide (P a)).
  - rewrite bool_decide_eq_true_2 by done. done.
  - rewrite bool_decide_eq_false_2 by done. lia.
Qed.

Lemma Zsum_le {A} (f g : A → Z) (l : list A) :
  (∀ a, a ∈ l → f a <= g a) → Zsum (f <$> l) <= Zsum (g <$> l).
Proof.
  induction l as [|a l IH]; intros H; [done|]. rewrite !fmap_cons.
  change (Zsum (f a :: (f <$> l))) with (f a + Zsum (f <$> l)).
  change (Zsum (g a :: (g <$> l))) with (g a + Zsum (g <$> l)).
  pose proof (H a (list_elem_of_here _ _)).
  assert (Zsum (f <$> l) <= Zsum (g <$> l)) by (apply IH; intros b Hb; apply H; by right).
  lia.
Qed.

Lemma length_with_role (d : list Player) (r : Z) :
  length (with_role (pos d) (length d) r) = length (filter (λ p, Position p = r) d).
Proof.
  unfold with_role.
  pose proof (fmap_lookup_total_seq (pos d)) as H.
  assert (length (filter (λ z, z = r) (pos d))
          = length (filter (λ p, pos d !!! p = r) (seq 0 (length d)))) as <-.
  { rewrite <- H at 1. rewrite filter_fmap, length_fmap. unfold pos.
    by rewrite length_fmap. }
  unfold pos. by rewrite filter_fmap, length_fmap.
Qed.

Section Assigned.
Variable inp : Inputs.
Variable a : nat → nat.
Hypothesis Hset : ∀ r, r ∈ pos (df inp) ↔ r ∈ roles inp.
Hypothesis Hcap : Forall (λ p, Captain p = 0 ∨ Captain p = 1) (df inp).
Hypothesis Hsk : Forall (λ z, 0 <= z) (scaled_ws (role_weights inp) (df inp)).
Hypothesis Hbig : total_score (scaled_ws (role_weights inp) (df inp)) <= big.
Hypothesis HT : 1 <= num_teams inp.

Let ps := pos (df inp).
Let P := num_players inp.
Let tids := team_ids (num_teams inp).
Let x := λ p t : nat, if bool_decide (a p = t) then 1 else 0.

(** The two properties of the assignment: every player has a team, and
    every team has one player of each role. *)
Hypothesis Hteam : ∀ p, (p < P)%nat → (a p < Z.to_nat (num_teams inp))%nat.
Hypothesis Hrole : ∀ t r, t ∈ tids → r ∈ roles inp →
  Zsum ((λ p, x p t) <$> with_role ps P r) = 1.

Lemma P_length : P = length (df inp).
Proof. apply num_players_length. Qed.

Lemma role_of_row p : (p < P)%nat → ps !!! p ∈ roles inp.
Proof.
  intros Hp. apply Hset. apply list_elem_of_lookup. exists p.
  apply list_lookup_lookup_total_lt. unfold ps, pos. rewrite length_fmap, <- P_length. done.
Qed.

Lemma x_bit p t : x p t = 0 ∨ x p t = 1.
Proof. unfold x. case_bool_decide; auto. Qed.

Lemma x_one_team p : (p < P)%nat → Zsum ((λ t, x p t) <$> tids) = 1.
Proof.
  intros Hp. unfold x, tids, team_ids.
  rewrite (Zsum_ext _ (λ t, if bool_decide (id t = a p) then 1 else 0)).
  2:{ intros t _. simpl. repeat case_bool_decide; congruence. }
  rewrite (Zsum_indexed id).
  - rewrite length_seq. rewrite bool_decide_eq_true_2; [done|]. by apply Hteam.
  - intros k q Hk. apply lookup_seq in Hk. simpl. lia.
Qed.

Lemma team_size t : t ∈ tids → Zsum ((λ p, x p t) <$> seq 0 P) = num_roles inp.
Proof.
  intros Ht.
  rewrite <- (sum_over_keys (λ p, ps !!! p) (λ p, x p t) (seq 0 P) (sorted_set (roles inp))).
  - rewrite (Zsum_ext _ (λ _, 1)).
    + rewrite Zsum_const. unfold num_roles. lia.
    + intros r Hr. apply (proj1 (elem_of_sorted_set _ _)) in Hr.
      rewrite (Zsum_filter (λ p, ps !!! p = r)). by apply Hrole.
  - apply NoDup_sorted_set.
  - apply Forall_forall. intros p Hp%elem_of_seq.
    apply elem_of_sorted_set, role_of_row. lia.
Qed.

Lemma column_sum (col : list Z) :
  length col = P → Zsum ((λ p, col !!! p) <$> seq 0 P) = Zsum col.
Proof. intros <-. by rewrite fmap_lookup_total_seq. Qed.

Lemma weighted_bounds (col : list Z) t :
  length col = P → Forall (λ z, 0 <= z) col →
  0 <= Zsum ((λ p, col !!! p * x p t) <$> seq 0 P) <= Zsum col.
Proof.
  intros Hlen Hcol.
  assert (Hnn : ∀ p, p ∈ seq 0 P → 0 <= col !!! p).
  { intros p Hp%elem_of_seq. rewrite Forall_forall in Hcol. apply Hcol.
    apply list_elem_of_lookup_total_2. lia. }
  split.
  - apply Zsum_nonneg. intros p Hp. specialize (Hnn p Hp).
    destruct (x_bit p t) as [-> | ->]; lia.
  - rewrite <- (column_sum col Hlen). apply Zsum_le. intros p Hp.
    specialize (Hnn p Hp). destruct (x_bit p t) as [-> | ->]; lia.
Qed.

Lemma captain_bounds t :
  t ∈ tids →
  0 <= Zsum ((λ p, is_capt (df inp) !!! p * x p t) <$> seq 0 P) <= num_roles inp.
Proof.
  intros Ht.
  assert (Hc : ∀ p, p ∈ seq 0 P → is_capt (df inp) !!! p = 0 ∨ is_capt (df inp) !!! p = 1).
  { intros p Hp%elem_of_seq. unfold is_capt.
    assert (is_Some (df inp !! p)) as [r Hr]
      by (apply lookup_lt_is_Some; rewrite <- P_length; lia).
    rewrite (list_lookup_total_correct _ _ (Captain r))
      by (by rewrite list_lookup_fmap, Hr).
    rewrite Forall_forall in Hcap. apply Hcap. by eapply list_elem_of_lookup_2. }
  split.
  - apply Zsum_nonneg. intros p Hp.
    destruct (Hc p Hp) as [-> | ->], (x_bit p t) as [-> | ->]; lia.
  - rewrite <- (team_size t Ht). apply Zsum_le. intros p Hp.
    destruct (Hc p Hp) as [-> | ->], (x_bit p t) as [-> | ->]; lia.
Qed.

Lemma target_bounds :
  0 <= target_of inp <= total_score (scaled_ws (role_weights inp) (df inp)).
Proof.
  unfold target_of.
  assert (0 <= total_score (scaled_ws (role_weights inp) (df inp))).
  { unfold total_score. rewrite <- (list_fmap_id (scaled_ws _ _)).
    apply Zsum_nonneg. intros z Hz. rewrite Forall_forall in Hsk. by apply Hsk. }
  split.
  - apply Z.div_pos; lia.
  - apply Z.div_le_upper_bound; [lia|nia].
Qed.

Lemma score_bounds t :
  0 <= assigned inp a (s_ t) <= total_score (scaled_ws (role_weights inp) (df inp)).
Proof.
  apply (weighted_bounds (scaled_ws (role_weights inp) (df inp)) t); [|exact Hsk].
  rewrite scaled_ws_rows, length_fmap. symmetry. apply P_length.
Qed.

Lemma assigned_domains cp :
  cp_variables cp = [] →
  Forall (in_domain (assigned inp a))
    (variables (b_model (assemble inp [] (target_of inp) cp))).
Proof.
  intros Hcp.
  pose proof target_bounds as Htg.
  simpl. rewrite Hcp. repeat apply Forall_app_2.
  - apply Forall_forall. intros d (l & Hd & Hl)%list_elem_of_join.
    apply list_elem_of_fmap in Hl as (p & -> & Hp).
    apply list_elem_of_fmap in Hd as (t & -> & Ht).
    unfold in_domain. simpl. case_bool_decide; lia.
  - apply Forall_fmap, Forall_forall. intros t Ht. unfold in_domain.
    pose proof (score_bounds t). simpl in *. unfold big in *. lia.
  - apply Forall_fmap, Forall_forall. intros t Ht. unfold in_domain.
    pose proof (score_bounds t) as Hs. simpl in *. unfold big in *. lia.
  - apply Forall_fmap, Forall_forall. intros t Ht. unfold in_domain.
    pose proof (score_bounds t) as Hs. simpl in *. unfold big in *. lia.
  - apply Forall_forall. intros d (l & Hd & Hl)%list_elem_of_join.
    apply elem_of_lookup_imap in Hl as (k & ab & -> & Hk).
    apply list_elem_of_fmap in Hd as (t & -> & Ht).
    unfold in_domain. simpl. rewrite Hk. repeat case_bool_decide; lia.
  - apply Forall_fmap, Forall_forall. intros t Ht. unfold in_domain.
    exact (captain_bounds t Ht).
  - constructor.
Qed.

Lemma assigned_constraints cp :
  Forall (holds (assigned inp a)) (cp_constraints cp) →
  Forall (holds (assigned inp a))
    (constraints (b_model (assemble inp [] (target_of inp) cp))).
Proof.
  intros Hcp. unfold assemble. cbn [b_model constraints].
  repeat apply Forall_app_2.
  - apply Forall_forall. intros c (p & -> & Hp%elem_of_seq)%list_elem_of_fmap.
    unfold one_team_constraint, holds. rewrite eval_sum_ones, eval_const_e.
    apply (x_one_team p). fold P. lia.
  - apply Forall_forall. intros c (l & Hc & Hl)%list_elem_of_join.
    apply list_elem_of_fmap in Hl as (t & -> & Ht).
    apply list_elem_of_fmap in Hc as (r & -> & Hr).
    apply (proj1 (elem_of_sorted_set _ _)) in Hr.
    unfold role_constraint, holds. rewrite eval_sum_ones, eval_const_e.
    exact (Hrole t r Ht Hr).
  - constructor.
  - apply Forall_forall. intros c (t & -> & Ht)%list_elem_of_fmap.
    unfold score_constraint, holds. rewrite eval_var_e, eval_sum_weighted. done.
  - apply Forall_forall. intros c (l & Hc & Hl)%list_elem_of_join.
    apply list_elem_of_fmap in Hl as (t & -> & Ht).
    unfold deviation_constraints in Hc.
    rewrite !elem_of_cons in Hc. destruct Hc as [-> | [-> | [-> | Hc]]];
      [..|by apply elem_of_nil in Hc]; unfold holds, eval; simpl; lia.
  - apply Forall_forall. intros c (l & Hc & Hl)%list_elem_of_join.
    apply elem_of_lookup_imap in Hl as (k & ab & -> & Hk).
    apply list_elem_of_join in Hc as (l' & Hc & Hl').
    apply list_elem_of_fmap in Hl' as (t & -> & Ht).
    unfold conflict_constraint in Hc.
    rewrite !elem_of_cons in Hc. destruct Hc as [-> | [-> | [-> | Hc]]];
      [..|by apply elem_of_nil in Hc]; unfold holds, eval; simpl; rewrite Hk;
      repeat case_bool_decide; lia.
  - apply Forall_forall. intros c (t & -> & Ht)%list_elem_of_fmap.
    unfold captain_count_constraint, holds. rewrite eval_var_e, eval_sum_weighted. done.
  - exact Hcp.
Qed.

Lemma assigned_satisfies cp :
  cp_variables cp = [] →
  Forall (holds (assigned inp a)) (cp_constraints cp) →
  satisfies (assigned inp a) (b_model (assemble inp [] (target_of inp) cp)).
Proof. intros Hv Hc. split; [by apply assigned_domains|by apply assigned_constraints]. Qed.
End Assigned.

(** ** Captains first *)

Lemma Zsum_perm (l k : list Z) : l ≡ₚ k → Zsum l = Zsum k.
Proof.
  induction 1 as [|x l k _ IH|x y l|l k m _ IH1 _ IH2]; simpl; lia.
Qed.

Lemma fmap_reindex {B} (g f : nat → B) (L : list nat) :
  (∀ k p, L !! k = Some p → g p = f k) → g <$> L = f <$> seq 0 (length L).
Proof.
  intros H. apply list_eq. intros i. rewrite !list_lookup_fmap.
  destruct (L !! i) as [p|] eqn:Hp; simpl.
  - rewrite (lookup_seq_lt _ _ i) by (by eapply lookup_lt_Some). simpl.
    f_equal. by apply H.
  - rewrite lookup_seq_ge; [done|]. by apply lookup_ge_None.
Qed.

(** Turning the teams by [o] places is one to one. *)
Lemma rotation_one_hot (n o t : nat) :
  (t < n)%nat →
  Zsum ((λ k, if bool_decide (Nat.modulo (o + k) n = t) then 1 else 0) <$> seq 0 n) = 1.
Proof.
  intros Ht.
  set (k0 := Nat.modulo (t + n - Nat.modulo o n) n).
  assert (Hn : n ≠ 0%nat) by lia.
  pose proof (Nat.mod_upper_bound o n Hn) as Ho.
  assert (Hk0 : (k0 < n)%nat) by (apply Nat.mod_upper_bound; lia).
  assert (Hmod : ∀ k, (k < n)%nat → Nat.modulo (o + k) n = t ↔ k = k0).
  { intros k Hk. unfold k0.
    rewrite (Nat.Div0.add_mod o k n).
    rewrite (Nat.mod_small k n) by done.
    set (m := Nat.modulo o n) in *.
    destruct (decide (m + k < n)%nat).
    - rewrite (Nat.mod_small (m + k)) by done.
      destruct (decide (m <= t)%nat).
      + replace (t + n - m)%nat with ((t - m) + 1 * n)%nat by lia.
        rewrite Nat.Div0.mod_add. rewrite Nat.mod_small by lia. lia.
      + rewrite (Nat.mod_small (t + n - m)) by lia. lia.
    - replace (m + k)%nat with ((m + k - n) + 1 * n)%nat by lia.
      rewrite Nat.Div0.mod_add. rewrite (Nat.mod_small (m + k - n)) by lia.
      destruct (decide (m <= t)%nat).
      + replace (t + n - m)%nat with ((t - m) + 1 * n)%nat by lia.
        rewrite Nat.Div0.mod_add. rewrite Nat.mod_small by lia. lia.
      + rewrite (Nat.mod_small (t + n - m)) by lia. lia. }
  rewrite (Zsum_ext _ (λ k, (if bool_decide (k = k0) then 1 else 0) * 1)).
  - rewrite (Zsum_one_hot_mul _ (λ _, 1) (seq 0 n) k0); try done.
    + apply NoDup_seq.
    + apply elem_of_seq. lia.
    + by rewrite bool_decide_eq_true_2.
    + intros b _ Hb. by rewrite bool_decide_eq_false_2.
  - intros k Hk%elem_of_seq. specialize (Hmod k ltac:(lia)).
    repeat case_bool_decide; try lia; tauto.
Qed.

Lemma Zsum_of_nat {A} (c : A → nat) (l : list A) :
  Zsum ((λ a, Z.of_nat (c a)) <$> l) = Z.of_nat (sum_list (c <$> l)).
Proof.
  induction l as [|a l IH]; [done|]. rewrite !fmap_cons.
  change (Zsum (Z.of_nat (c a) :: ((λ a, Z.of_nat (c a)) <$> l)))
    with (Z.of_nat (c a) + Zsum ((λ a, Z.of_nat (c a)) <$> l)).
  rewrite IH. simpl. lia.
Qed.

Lemma Zsum_ge_term {A} (f : A → Z) (l : list A) (a : A) :
  (∀ b, b ∈ l → 0 <= f b) → a ∈ l → f a <= Zsum (f <$> l).
Proof.
  induction l as [|b l IH]; intros Hnn Ha; [by apply elem_of_nil in Ha|].
  rewrite fmap_cons. change (Zsum (f b :: (f <$> l))) with (f b + Zsum (f <$> l)).
  pose proof (Hnn b (list_elem_of_here _ _)).
  assert (0 <= Zsum (f <$> l)) by (apply Zsum_nonneg; intros; apply Hnn; by right).
  apply elem_of_cons in Ha as [->|Ha]; [lia|].
  assert (f a <= Zsum (f <$> l)) by (apply IH; [intros; apply Hnn; by right|done]).
  lia.
Qed.

Lemma filter_none {A} (P : A → Prop) `{!∀ a, Decision (P a)} (l : list A) :
  Forall (λ a, ¬ P a) l → filter P l = [].
Proof.
  induction 1 as [|a l Ha _ IH]; [done|]. by rewrite filter_cons_False.
Qed.

(** Ranges laid end to end, in the order of a sorted list of keys, make one
    range. *)
Lemma ranges_concat (h : nat → Z) (c : Z → nat) (l : list Z) :
  StronglySorted Z.lt l →
  ∀ o, Zsum ((λ r, Zsum ((λ k, h (o + sum_list (c <$> filter (λ r', (r' < r)%Z) l) + k)%nat)
                           <$> seq 0 (c r))) <$> l)
       = Zsum ((λ j, h (o + j)%nat) <$> seq 0 (sum_list (c <$> l))).
Proof.
  induction 1 as [|r1 rest Hs IH Hall]; intros o; [done|].
  rewrite Forall_forall in Hall.
  rewrite !fmap_cons.
  change (Zsum (?a :: ?k)) with (a + Zsum k).
  simpl sum_list. rewrite seq_app, fmap_app, Zsum_app.
  f_equal.
  - rewrite filter_cons_False by lia.
    rewrite filter_none.
    2:{ apply Forall_forall. intros r Hr. specialize (Hall r Hr). lia. }
    simpl. apply Zsum_ext. intros k _. f_equal. lia.
  - replace (0 + c r1)%nat with (c r1 + 0)%nat by lia.
    rewrite <- (fmap_add_seq (c r1) 0), <- list_fmap_compose.
    rewrite (Zsum_ext (_ ∘ _) (λ j, h (o + c r1 + j)%nat))
      by (intros j _; simpl; f_equal; lia).
    rewrite <- (IH (o + c r1)%nat).
    apply Zsum_ext. intros r Hr. specialize (Hall r Hr).
    rewrite filter_cons_True by lia. rewrite fmap_cons.
    change (sum_list (?x :: ?k)) with (x + sum_list k)%nat.
    apply Zsum_ext. intros k _. f_equal. lia.
Qed.

Section CaptainsFirst.
Variable inp : Inputs.
Hypothesis Hset : ∀ r, r ∈ pos (df inp) ↔ r ∈ roles inp.
Hypothesis Hcount : ∀ r, r ∈ roles inp →
  Z.of_nat (length (filter (λ p, Position p = r) (df inp))) = num_teams inp.
Hypothesis Hcap : Forall (λ p, Captain p = 0 ∨ Captain p = 1) (df inp).
Hypothesis HT : 1 <= num_teams inp.

Let ps := pos (df inp).
Let cs := is_capt (df inp).
Let P := num_players inp.
Let n := Z.to_nat (num_teams inp).
Let rs := sorted_set (roles inp).
Let tids := team_ids (num_teams inp).

Lemma block_perm r : block ps cs P r ≡ₚ with_role ps P r.
Proof. unfold block, captains_of. apply filter_app_complement. Qed.

Lemma length_block r : r ∈ roles inp → length (block ps cs P r) = n.
Proof.
  intros Hr. rewrite block_perm. unfold ps, P.
  rewrite num_players_length, length_with_role. unfold n. rewrite <- (Hcount r Hr). lia.
Qed.

Lemma captains_of_seq r :
  captains_of ps cs P r = filter (λ q, cs !!! q = 1 ∧ ps !!! q = r) (seq 0 P).
Proof. unfold captains_of, with_role. by rewrite list_filter_filter. Qed.

Lemma slot_index r k p :
  block ps cs P r !! k = Some p → ps !!! p = r ∧ slot ps cs P p = k.
Proof.
  unfold block. intros Hk.
  destruct (decide (k < length (captains_of ps cs P r))%nat) as [Hlt|Hge].
  - rewrite lookup_app_l in Hk by done.
    pose proof Hk as Hin%list_elem_of_lookup_2. unfold captains_of in Hin.
    apply list_elem_of_filter in Hin as [Hc Hin]. unfold with_role in Hin.
    apply list_elem_of_filter in Hin as [Hr _].
    split; [done|]. unfold slot. rewrite bool_decide_eq_true_2 by done.
    rewrite Hr. rewrite captains_of_seq in Hk.
    by eapply (filter_seq_rank (λ q, cs !!! q = 1 ∧ ps !!! q = r)).
  - rewrite lookup_app_r in Hk by lia.
    pose proof Hk as Hin%list_elem_of_lookup_2.
    apply list_elem_of_filter in Hin as [Hc Hin]. unfold with_role in Hin.
    apply list_elem_of_filter in Hin as [Hr _].
    split; [done|]. unfold slot. rewrite bool_decide_eq_false_2 by done.
    rewrite Hr. unfold with_role in Hk. rewrite list_filter_filter in Hk.
    rewrite (filter_seq_rank (λ q, ¬ cs !!! q = 1 ∧ ps !!! q = r) _ _ _ Hk). lia.
Qed.

Lemma team_in_block r k p :
  block ps cs P r !! k = Some p →
  captains_first inp p = Nat.modulo (offset ps cs P rs r + k) n.
Proof.
  intros [Hr Hs]%slot_index. unfold captains_first.
  fold ps cs P rs n. by rewrite Hr, Hs.
Qed.

Lemma captains_first_team p : (captains_first inp p < n)%nat.
Proof. unfold captains_first. apply Nat.mod_upper_bound. unfold n. lia. Qed.

Lemma captains_first_role t r :
  t ∈ tids → r ∈ roles inp →
  Zsum ((λ p, if bool_decide (captains_first inp p = t) then 1 else 0)
          <$> with_role ps P r) = 1.
Proof.
  intros Ht%elem_of_team_ids Hr.
  rewrite <- (Zsum_perm _ _ (fmap_Permutation _ _ _ (block_perm r))).
  rewrite (fmap_reindex _
    (λ k, if bool_decide (Nat.modulo (offset ps cs P rs r + k) n = t) then 1 else 0)).
  - rewrite (length_block r Hr). apply rotation_one_hot. unfold n. lia.
  - intros k p Hk. by rewrite (team_in_block r k p Hk).
Qed.

Lemma captain_flag p : (p < P)%nat → cs !!! p = 0 ∨ cs !!! p = 1.
Proof.
  intros Hp. unfold cs, is_capt.
  assert (is_Some (df inp !! p)) as [r Hr].
  { apply lookup_lt_is_Some. unfold P in Hp. rewrite num_players_length in Hp. lia. }
  rewrite (list_lookup_total_correct _ _ (Captain r))
    by (by rewrite list_lookup_fmap, Hr).
  rewrite Forall_forall in Hcap. apply Hcap. by eapply list_elem_of_lookup_2.
Qed.

Lemma role_listed p : (p < P)%nat → ps !!! p ∈ rs.
Proof.
  intros Hp. apply elem_of_sorted_set, Hset. apply list_elem_of_lookup. exists p.
  apply list_lookup_lookup_total_lt. unfold ps, pos. rewrite length_fmap.
  unfold P in Hp. rewrite num_players_length in Hp. done.
Qed.

(** A sum over the captains, taken role by role. *)
Lemma captain_sum_by_role (w : nat → Z) :
  Zsum ((λ p, cs !!! p * w p) <$> seq 0 P)
  = Zsum ((λ r, Zsum (w <$> captains_of ps cs P r)) <$> rs).
Proof.
  rewrite <- (sum_over_keys (λ p, ps !!! p) (λ p, cs !!! p * w p) (seq 0 P) rs).
  - apply Zsum_ext. intros r Hr.
    rewrite (Zsum_filter (λ p, ps !!! p = r)). fold (with_role ps P r).
    unfold captains_of. rewrite <- (Zsum_filter (λ p, cs !!! p = 1)).
    apply Zsum_ext. intros p Hp. unfold with_role in Hp.
    apply list_elem_of_filter in Hp as [_ Hp%elem_of_seq].
    destruct (captain_flag p ltac:(lia)) as [E|E]; rewrite E;
      case_bool_decide; lia.
  - apply NoDup_sorted_set.
  - apply Forall_forall. intros p Hp%elem_of_seq. apply role_listed. lia.
Qed.

Lemma total_captains :
  Z.of_nat (sum_list ((λ r, length (captains_of ps cs P r)) <$> rs)) = count_captains inp.
Proof.
  rewrite <- Zsum_of_nat. unfold count_captains. fold cs.
  assert (Hlen : length cs = P).
  { unfold cs, is_capt, P. by rewrite length_fmap, num_players_length. }
  assert (Hsum : Zsum cs = Zsum ((λ p, cs !!! p * 1) <$> seq 0 P)).
  { rewrite <- (fmap_lookup_total_seq cs) at 1. rewrite Hlen.
    apply Zsum_ext. intros p _. lia. }
  rewrite Hsum, (captain_sum_by_role (λ _, 1)).
  apply Zsum_ext. intros r _. rewrite Zsum_const. lia.
Qed.

(** The number of captains of team [t]: the captains are numbered role by
    role, and captain [j] is on team [j mod n]. *)
Lemma captains_in_turn t :
  assigned inp (captains_first inp) (c_t_ t)
  = Zsum ((λ j, if bool_decide (Nat.modulo j n = t) then 1 else 0)
            <$> seq 0 (sum_list ((λ r, length (captains_of ps cs P r)) <$> rs))).
Proof.
  simpl. fold cs P.
  rewrite (captain_sum_by_role
             (λ p, if bool_decide (captains_first inp p = t) then 1 else 0)).
  pose proof (ranges_concat (λ j, if bool_decide (Nat.modulo j n = t) then 1 else 0)
                (λ r, length (captains_of ps cs P r)) rs (sorted_set_sorted _) 0%nat) as Hc.
  etrans; [|etrans; [exact Hc|]].
  - apply Zsum_ext. intros r Hr.
    apply (f_equal Zsum). apply fmap_reindex.
    intros k p Hk. rewrite (team_in_block r k p); [done|].
    unfold block. by apply lookup_app_l_Some.
  - apply Zsum_ext. intros j _. done.
Qed.

Lemma every_team_a_captain t :
  t ∈ tids → num_teams inp <= count_captains inp →
  1 <= assigned inp (captains_first inp) (c_t_ t).
Proof.
  intros Ht%elem_of_team_ids Hge. rewrite captains_in_turn.
  rewrite <- total_captains in Hge.
  set (f := λ j, if bool_decide (Nat.modulo j n = t) then 1 else 0).
  assert (f t = 1) as <-.
  { unfold f. rewrite bool_decide_eq_true_2; [done|].
    apply Nat.mod_small. unfold n. lia. }
  apply (Zsum_ge_term f).
  - intros j _. unfold f. case_bool_decide; lia.
  - apply elem_of_seq. lia.
Qed.

Lemma no_team_two_captains t :
  count_captains inp <= num_teams inp →
  assigned inp (captains_first inp) (c_t_ t) <= 1.
Proof.
  intros Hle. rewrite captains_in_turn. rewrite <- total_captains in Hle.
  rewrite (Zsum_ext _ (λ j, if bool_decide (id j = t) then 1 else 0)).
  - rewrite (Zsum_indexed id).
    + case_bool_decide; lia.
    + intros k q Hk. apply lookup_seq in Hk. simpl. lia.
  - intros j Hj%elem_of_seq. simpl.
    rewrite Nat.mod_small by (unfold n; lia). done.
Qed.
End CaptainsFirst.

(** What the captain policy adds, in the four forms it can take. *)
Lemma captain_part_forms policy hard ncap T R tids cp :
  captain_part policy hard ncap T R tids = Ok cp →
  (cp_variables cp = [] ∧ cp_constraints cp = []) ∨
  ((cp_variables cp = (λ t, (m_t_ t, (0, 1))) <$> tids ∧
    cp_constraints cp =
      (λ t, GeC (var_e (m_t_ t)) {| terms := [(-1, c_t_ t)]; const := 1 |}) <$> tids) ∨
   (cp_variables cp = (λ t, (k_t_ t, (0, R))) <$> tids ∧
    cp_constraints cp =
      (λ t, GeC (var_e (k_t_ t)) {| terms := [(1, c_t_ t)]; const := -1 |}) <$> tids)) ∨
  (cp_variables cp = [] ∧ T <= ncap ∧
   cp_constraints cp = (λ t, GeC (var_e (c_t_ t)) (const_e 1)) <$> tids) ∨
  (cp_variables cp = [] ∧ ncap <= T ∧
   cp_constraints cp = (λ t, LeC (var_e (c_t_ t)) (const_e 1)) <$> tids).
Proof.
  unfold captain_part. destruct (bool_decide (policy ∈ _)); [|discriminate].
  destruct (bool_decide (policy = "at_least_one")).
  - intros [= <-]. unfold at_least_one_part.
    destruct hard; simpl; [|right; left; left; done].
    destruct (Z.ltb_spec ncap T); [right; left; left; done|].
    right. right. left. done.
  - destruct (bool_decide (policy = "separate")); intros [= <-]; [|by left].
    unfold separate_part.
    destruct hard; simpl; [|right; left; right; done].
    destruct (Z.ltb_spec T ncap); [right; left; right; done|].
    right. right. right. done.
Qed.

(** A validated table has an assignment once its model is built. *)
Lemma validated_has_assignment (inp : Inputs) (b : Built) :
  infer_num_teams (df inp) (roles inp) None = Return (num_teams inp) →
  presets inp = [] →
  Forall (λ p, Captain p = 0 ∨ Captain p = 1) (df inp) →
  Forall (λ z, 0 <= z) (scaled_ws (role_weights inp) (df inp)) →
  total_score (scaled_ws (role_weights inp) (df inp)) <= 1000000000 →
  build_model inp = Ok b →
  ∃ v, satisfies v (b_model b) ∧
       ∃ out diag, outcome (build_and_solve (oracle (b_model b) v) inp) = Ok (out, diag).
Proof.
  intros HT Hpre Hcap Hsk Hbig Hb.
  apply inferred_teams in HT as (Hd & _ & Hset & Hcount).
  assert (HT1 : 1 <= num_teams inp).
  { destruct (df inp) as [|p d'] eqn:E; [done|].
    rewrite <- (Hcount (Position p)) by (apply Hset; left).
    rewrite filter_cons_True by done. simpl length. lia. }
  assert (Hsat : ∀ cp, cp_variables cp = [] →
            Forall (holds (assigned inp (captains_first inp))) (cp_constraints cp) →
            satisfies (assigned inp (captains_first inp))
              (b_model (assemble inp [] (target_of inp) cp))).
  { intros cp. apply assigned_satisfies; try done.
    - intros p _. by apply captains_first_team.
    - intros t r. by apply captains_first_role. }
  pose proof Hb as (pcs & cp & _ & Hpcs & _ & Hcp & ->)%build_model_inv.
  rewrite Hpre in Hpcs. simpl in Hpcs. injection Hpcs as <-.
  assert (∃ v, satisfies v (b_model (assemble inp [] (target_of inp) cp))) as [v Hv].
  { apply captain_part_forms in Hcp
      as [[Hv Hc]|[Hsoft|[(Hv & Hge & Hc)|(Hv & Hle & Hc)]]].
    - eexists. apply Hsat; [done|]. rewrite Hc. constructor.
    - exists (with_least_violations (assigned inp (captains_first inp))).
      apply soft_extension; [by rewrite Hpre|exact Hsoft|].
      apply Hsat; [done|constructor].
    - eexists. apply Hsat; [done|]. rewrite Hc.
      apply Forall_forall. intros c (t & -> & Ht)%list_elem_of_fmap.
      unfold holds. rewrite eval_var_e, eval_const_e.
      by apply every_team_a_captain.
    - eexists. apply Hsat; [done|]. rewrite Hc.
      apply Forall_forall. intros c (t & -> & Ht)%list_elem_of_fmap.
      unfold holds. rewrite eval_var_e, eval_const_e.
      by apply no_team_two_captains. }
  exists v. split; [exact Hv|].
  eapply usable_returns; [by apply oracle_sound|exact Hb|].
  unfold oracle. by rewrite decide_True.
Qed.

(** X18.  A validated table always has an assignment.  When the number of
    teams is the one [infer_num_teams] derives from the table, there is no
    preset, the captain flags are 0 or 1, the scaled weighted skills are not
    negative and add up to at most [10^9], the policy is a known one, the
    seed has at most 31 bits and the penalty weights are at most [2^53 / 100]
    in absolute value, the model is built and has a solution, whatever the
    captain policy, hard or not: a hard policy that is not downgraded can
    always be met.  An engine that finds the solution makes
    [build_and_solve] return a table. *)
Theorem X18_validated_feasible (inp : Inputs) (C K : Z) :
  infer_num_teams (df inp) (roles inp) None = Return (num_teams inp) →
  presets inp = [] →
  Forall (λ p, Captain p = 0 ∨ Captain p = 1) (df inp) →
  Forall (λ z, 0 <= z) (scaled_ws (role_weights inp) (df inp)) →
  total_score (scaled_ws (role_weights inp) (df inp)) <= 1000000000 →
  captain_policy inp ∈ ["none"; "at_least_one"; "separate"] →
  0 <= random_seed inp < 2 ^ 31 →
  100 * C <= 2 ^ 53 → (Qabs (conflict_weight inp) <= inject_Z C)%Q →
  100 * K <= 2 ^ 53 → (Qabs (captain_weight inp) <= inject_Z K)%Q →
  ∃ b, build_model inp = Ok b ∧
    ∃ v, satisfies v (b_model b) ∧
      ∃ out diag, outcome (build_and_solve (oracle (b_model b) v) inp) = Ok (out, diag).
Proof.
  intros HT Hpre Hcap Hsk Hbig Hpol Hseed HC Hcw HK Hkw.
  assert (HT1 : 0 < num_teams inp).
  { pose proof HT as (Hd & _ & Hset & Hcount)%inferred_teams.
    destruct (df inp) as [|p d'] eqn:E; [done|].
    rewrite <- (Hcount (Position p)) by (apply Hset; left).
    rewrite filter_cons_True by done. simpl length. lia. }
  assert (Hpcs : preset_constraints (name_to_idx (df inp)) (num_teams inp) (presets inp)
                 = Ok []) by (by rewrite Hpre).
  destruct (build_model_succeeds inp [] C K Hseed Hpcs HT1 Hpol HC Hcw HK Hkw)
    as (cp & _ & Hb).
  eexists. split; [exact Hb|].
  exact (validated_has_assignment inp _ HT Hpre Hcap Hsk Hbig Hb).
Qed.

Lemma X18_validated_feasible_witness :
  infer_num_teams (df scenario) (roles scenario) None = Return (num_teams scenario) ∧
  ∃ b, build_model scenario = Ok b ∧ ∃ v, satisfies v (b_model b).
Proof.
  assert (HT : infer_num_teams (df scenario) (roles scenario) None
               = Return (num_teams scenario)) by (vm_compute; reflexivity).
  assert (Hcap : Forall (λ p, Captain p = 0 ∨ Captain p = 1) (df scenario)).
  { apply (bool_decide_unpack _). vm_compute. exact I. }
  assert (Hsk : Forall (λ z, 0 <= z) (scaled_ws (role_weights scenario) (df scenario))).
  { apply (bool_decide_unpack _). vm_compute. exact I. }
  assert (Hbig : total_score (scaled_ws (role_weights scenario) (df scenario))
                 <= 1000000000).
  { vm_compute. discriminate. }
  assert (Hpol : captain_policy scenario ∈ ["none"; "at_least_one"; "separate"]).
  { simpl. rewrite !elem_of_cons. auto. }
  assert (Hseed : 0 <= random_seed scenario < 2 ^ 31) by (simpl; lia).
  assert (HC : 100 * 5 <= 2 ^ 53) by (vm_compute; discriminate).
  assert (Hcw : (Qabs (conflict_weight scenario) <= inject_Z 5)%Q)
    by (vm_compute; discriminate).
  assert (Hkw : (Qabs (captain_weight scenario) <= inject_Z 5)%Q)
    by (vm_compute; discriminate).
  destruct (X18_validated_feasible scenario 5 5 HT eq_refl
              Hcap Hsk Hbig Hpol Hseed HC Hcw HC Hkw) as (b & Hb & v & Hv & _).
  exact (conj HT (ex_intro _ b (conj Hb (ex_intro _ v Hv)))).
Defined.
